(** * KiCost [eda_tools]: organisation of the parts of a bill of materials

    A shallow embedding of [kicost/eda_tools/eda_tools.py]: the decoder of
    quantity/code strings, the sub-part splitter, the grouping engine, the
    sorter of groups, the collapser of references and the splitter of
    collapsed references, followed by the properties of these functions.

    Conventions of the embedding.
    - A Python [str] is a [string]; its characters are the code points
      below 256.
    - A field value is an [option string]: [None] is Python's [None].
    - A Python [dict] is an association list in insertion order, with at
      most one entry per key ([dict_set] keeps the position of a key that
      is already there, as assignment to a [dict] does).
    - An uncaught exception or a call of [exit] is a [Raise]. *)

From Stdlib Require Import List String Ascii Bool Arith ZArith NArith Lia.
From Stdlib Require Import Permutation DecimalString Sorted.
From Stdlib Require DecimalNat DecimalFacts DecimalPos OrderedTypeEx.
Import ListNotations.

Open Scope list_scope.
Open Scope string_scope.

(* ================================================================== *)
(** * Exceptions *)

(** The three calls of [exit] of the module carry the data that the
    message is formatted from. *)
Inductive exit_reason : Type :=
| MergeFieldNotAllowed (c : string)
    (* 'Manufactutor/distributor codes and manufacture company ... can't be ignored ...' *)
| FieldValueMismatch (ref key val group_val : string)
    (* 'Field value mismatch: ref={} field={} value='{}' group='{}'' *)
| NotRecognizedCharacters (ref : string).
    (* 'Not recognized characters used in <ref> reference. ...' *)

Inductive exn : Type :=
| SystemExit (r : exit_reason)
| KeyError (k : string)
| IndexError
| AttributeError
| UnboundLocalError.

Inductive result (A : Type) : Type :=
| Ok (a : A)
| Raise (e : exn).
Arguments Ok {A} a.
Arguments Raise {A} e.

Definition bind {A B} (r : result A) (k : A -> result B) : result B :=
  match r with
  | Ok a => k a
  | Raise e => Raise e
  end.

Notation "x <- r ;; k" := (bind r (fun x => k))
  (at level 61, r at next level, right associativity).

(** [[f(x) for x in l]], stopping at the first exception. *)
Fixpoint mapM {A B} (f : A -> result B) (l : list A) : result (list B) :=
  match l with
  | [] => Ok []
  | x :: l' => y <- f x ;; ys <- mapM f l' ;; Ok (y :: ys)
  end.

(** A loop [for x in l: st = body(st, x)], stopping at the first exception. *)
Fixpoint foldM {A S} (body : S -> A -> result S) (l : list A) (st : S) : result S :=
  match l with
  | [] => Ok st
  | x :: l' => st' <- body st x ;; foldM body l' st'
  end.

(* ================================================================== *)
(** * Characters and strings *)

Definition code (c : ascii) : N := N_of_ascii c.

Definition in_range (lo hi : N) (c : ascii) : bool :=
  (lo <=? code c)%N && (code c <=? hi)%N.

(** [str.isspace] and the class [\s] of [re] on a one-character string:
    TAB..CR, FS..US, space, NEL and the no-break space. *)
Definition is_space (c : ascii) : bool :=
  in_range 9 13 c || in_range 28 32 c || (code c =? 133)%N || (code c =? 160)%N.

(** [[0-9]], and [\d] below code point 256. *)
Definition is_digit (c : ascii) : bool := in_range 48 57 c.

(** [[a-z]] under [re.IGNORECASE]. *)
Definition is_letter (c : ascii) : bool := in_range 97 122 c || in_range 65 90 c.

(** [str.lower], one character at a time: A..Z and the upper-case letters
    of Latin-1 (all of 192..222 but the multiplication sign 215). *)
Definition lower_char (c : ascii) : ascii :=
  if in_range 65 90 c || (in_range 192 222 c && negb (code c =? 215)%N)
  then ascii_of_N (code c + 32)
  else c.

Fixpoint lower (s : string) : string :=
  match s with
  | EmptyString => EmptyString
  | String c s' => String (lower_char c) (lower s')
  end.

Fixpoint lstrip (s : string) : string :=
  match s with
  | EmptyString => EmptyString
  | String c s' => if is_space c then lstrip s' else s
  end.

Fixpoint rstrip (s : string) : string :=
  match s with
  | EmptyString => EmptyString
  | String c s' =>
      match rstrip s' with
      | EmptyString => if is_space c then EmptyString else String c EmptyString
      | r => String c r
      end
  end.

(** [s.strip()] *)
Definition strip (s : string) : string := rstrip (lstrip s).

Fixpoint take_while (p : ascii -> bool) (s : string) : string :=
  match s with
  | EmptyString => EmptyString
  | String c s' => if p c then String c (take_while p s') else EmptyString
  end.

Fixpoint drop_while (p : ascii -> bool) (s : string) : string :=
  match s with
  | EmptyString => EmptyString
  | String c s' => if p c then drop_while p s' else s
  end.

Fixpoint remove_chars (p : ascii -> bool) (s : string) : string :=
  match s with
  | EmptyString => EmptyString
  | String c s' => if p c then remove_chars p s' else String c (remove_chars p s')
  end.

Fixpoint drop (n : nat) (s : string) : string :=
  match n, s with
  | S k, String _ s' => drop k s'
  | _, _ => s
  end.

(** [sub in s] for two strings. *)
Fixpoint contains (sub s : string) : bool :=
  prefix sub s ||
  match s with
  | EmptyString => false
  | String _ s' => contains sub s'
  end.

(** [sep.join(l)] *)
Definition join (sep : string) (l : list string) : string := String.concat sep l.

(** [str(n)] for a natural number and for an integer. *)
Definition str_nat (n : nat) : string := NilZero.string_of_uint (Nat.to_uint n).
Definition str_int (z : Z) : string := NilZero.string_of_int (Z.to_int z).

(** [int(s)] for a non-empty string of digits. *)
Definition digit_val (c : ascii) : Z := Z.of_N (code c) - 48.

Fixpoint int_of_digits (acc : Z) (s : string) : Z :=
  match s with
  | EmptyString => acc
  | String c s' => int_of_digits (10 * acc + digit_val c) s'
  end.

Fixpoint all_chars (p : ascii -> bool) (s : string) : bool :=
  match s with
  | EmptyString => true
  | String c s' => p c && all_chars p s'
  end.

Definition mem_string (x : string) (l : list string) : bool :=
  existsb (String.eqb x) l.

(* ================================================================== *)
(** * Dictionaries *)

Definition dict (V : Type) : Type := list (string * V).

Fixpoint dict_get {V} (d : dict V) (k : string) : option V :=
  match d with
  | [] => None
  | (k', v) :: d' => if String.eqb k' k then Some v else dict_get d' k
  end.

(** [d[k] = v] *)
Fixpoint dict_set {V} (d : dict V) (k : string) (v : V) : dict V :=
  match d with
  | [] => [(k, v)]
  | (k', v') :: d' =>
      if String.eqb k' k then (k', v) :: d' else (k', v') :: dict_set d' k v
  end.

Definition keys {V} (d : dict V) : list string := map fst d.

(** [d.update(l)], and a dict display or comprehension listing [l]. *)
Definition dict_update {V} (d : dict V) (l : list (string * V)) : dict V :=
  fold_left (fun acc kv => dict_set acc (fst kv) (snd kv)) l d.

Definition dict_of_list {V} (l : list (string * V)) : dict V := dict_update [] l.

(** A field value: a string or [None]. *)
Definition value : Type := option string.

(** The fields of a part. *)
Definition record : Type := dict value.

(** [fields.get(k)]: [None] when the key is absent (or bound to [None]). *)
Definition get_field (fields : record) (k : string) : value :=
  match dict_get fields k with
  | Some v => v
  | None => None
  end.

Definition value_eqb (a b : value) : bool :=
  match a, b with
  | None, None => true
  | Some x, Some y => String.eqb x y
  | _, _ => false
  end.

Definition mem_value (x : value) (l : list value) : bool :=
  existsb (value_eqb x) l.

(** A [set] of field values, held in the order of first insertion. *)
Definition set_add (x : value) (s : list value) : list value :=
  if mem_value x s then s else s ++ [x].

(* ================================================================== *)
(** * The regular expressions of the module *)

Definition backslash : ascii := "\"%char.

(** ** [QTY_SEPRTR] and [PART_SEPRTR]: [(?<!\\)\s*[...]\s*]

    [sep_match is_sep s] is the match of [\s*[...]\s*] at the head of [s]:
    the separator character and the length of the match. Both [\s*] are
    greedy, and since no separator is a space, giving back spaces never
    helps. *)
Definition sep_match (is_sep : ascii -> bool) (s : string) : option (ascii * nat) :=
  let spaces := String.length (take_while is_space s) in
  match drop spaces s with
  | String c r =>
      if is_sep c
      then Some (c, spaces + 1 + String.length (take_while is_space r))
      else None
  | EmptyString => None
  end.

(** The look-behind [(?<!\\)]: the character before the position, if there
    is one, is not a backslash. *)
Definition not_after_backslash (prev : option ascii) : bool :=
  match prev with
  | Some c => negb (Ascii.eqb c backslash)
  | None => true
  end.

(** [re.split(sep, s)]: a scan from the left; [skip] characters of a match
    are still to be passed over, [prev] is the character before the position,
    [cur] the segment since the last match. *)
Fixpoint split_scan (is_sep : ascii -> bool) (skip : nat) (prev : option ascii)
    (cur : string) (s : string) : list string :=
  match s with
  | EmptyString => [cur]
  | String c s' =>
      match skip with
      | S k => split_scan is_sep k (Some c) cur s'
      | O =>
          match (if not_after_backslash prev then sep_match is_sep s else None) with
          | Some (_, n) => cur :: split_scan is_sep (n - 1) (Some c) EmptyString s'
          | None => split_scan is_sep 0 (Some c) (cur ++ String c EmptyString) s'
          end
      end
  end.

Definition re_split (is_sep : ascii -> bool) (s : string) : list string :=
  split_scan is_sep 0 None EmptyString s.

Definition is_qty_sep (c : ascii) : bool := Ascii.eqb c ":".
Definition is_part_sep (c : ascii) : bool := Ascii.eqb c ";" || Ascii.eqb c ",".
Definition is_any_sep (c : ascii) : bool := is_part_sep c || is_qty_sep c.

(** ** [ESC_FIND]: [re.sub(r'\\\s*([;,:])\s*', r'\1', s)] *)
Fixpoint esc_sub (skip : nat) (s : string) : string :=
  match s with
  | EmptyString => EmptyString
  | String c s' =>
      match skip with
      | S k => esc_sub k s'
      | O =>
          match (if Ascii.eqb c backslash then sep_match is_any_sep s' else None) with
          | Some (sep, n) => String sep (esc_sub n s')
          | None => String c (esc_sub 0 s')
          end
      end
  end.

(** ** The pattern of numbers of [manf_code_qtypart]:
    [^\s*[\-\+]?\s*[0-9]*\s*[\.\/]*\s*?[0-9]*\s*$]

    Every item of the pattern is a class of characters under a star or a
    question mark. *)
Inductive item : Type :=
| Star (p : ascii -> bool)
| Opt (p : ascii -> bool).

(** The strings of a pattern of such items, from [^] to [$]. *)
Fixpoint in_items (items : list item) (s : string) : Prop :=
  match items with
  | [] => s = EmptyString
  | Star p :: items' =>
      exists w t, s = w ++ t /\ all_chars p w = true /\ in_items items' t
  | Opt p :: items' =>
      in_items items' s
      \/ exists c t, s = String c t /\ p c = true /\ in_items items' t
  end.

(** The match of such a pattern: each item in turn takes what it can. *)
Fixpoint match_items (items : list item) (s : string) : bool :=
  match items with
  | [] => String.eqb s EmptyString
  | Star p :: items' => match_items items' (drop_while p s)
  | Opt p :: items' =>
      match_items items' (match s with
                          | String c t => if p c then t else s
                          | EmptyString => s
                          end)
  end.

Definition is_sign (c : ascii) : bool := Ascii.eqb c "-" || Ascii.eqb c "+".
Definition is_frac_mark (c : ascii) : bool := Ascii.eqb c "." || Ascii.eqb c "/".

(** The items of [num_format]. The end [$] is also before a last newline,
    which the last [\s*] takes. *)
Definition num_format_items : list item :=
  [ Star is_space; Opt is_sign; Star is_space; Star is_digit; Star is_space;
    Star is_frac_mark; Star is_space; Star is_digit; Star is_space ].

(** [re.match(num_format, s)] as a truth value. *)
Definition num_format (s : string) : bool := match_items num_format_items s.

(* ================================================================== *)
(** * [subpart_list] and [manf_code_qtypart] *)

(** [re.split(PART_SEPRTR, part.strip())] *)
Definition subpart_list (part : string) : list string :=
  re_split is_part_sep (strip part).

(** The length of [re.sub('[\.\/]','',s)]. *)
Definition len_no_marks (s : string) : nat :=
  String.length (remove_chars is_frac_mark s).

Definition manf_code_qtypart (subpart : string) : string * string :=
  let subpart := esc_sub 0 subpart in
  let strings := re_split is_qty_sep subpart in
  match strings with
  | [s0; s1] =>
      let string0_test := num_format s0 in
      let string1_test := num_format s1 in
      let '(qty, part) :=
        if string0_test && negb string1_test then (strip s0, strip s1)
        else if negb string0_test && string1_test then (strip s1, strip s0)
        else if string0_test && string1_test then
          if Nat.ltb (len_no_marks s0) (len_no_marks s1)
          then (strip s0, strip s1)
          else (strip s1, strip s0)
        else ("1", strip s0 ++ strip s1) in
      (if String.eqb qty "" then "1" else qty, part)
  | _ => ("1", join "" strings)
  end.

(* ================================================================== *)
(** * Sorting *)

(** [sorted] and [list.sort] are stable: an element goes after the elements
    that are not greater. [lt] is the strict order of the keys. *)
Fixpoint insert_by {A} (lt : A -> A -> bool) (x : A) (l : list A) : list A :=
  match l with
  | [] => [x]
  | y :: l' => if lt x y then x :: y :: l' else y :: insert_by lt x l'
  end.

Definition sorted_by {A} (lt : A -> A -> bool) (l : list A) : list A :=
  fold_left (fun acc x => insert_by lt x acc) l [].

(** The order of Python on lists of strings. *)
Fixpoint refs_ltb (a b : list string) : bool :=
  match a, b with
  | _, [] => false
  | [], _ :: _ => true
  | x :: a', y :: b' =>
      if String.ltb x y then true
      else if String.eqb x y then refs_ltb a' b'
      else false
  end.

(* ================================================================== *)
(** * [collapse_refs] *)

(** ** [PART_REF_REGEX], under [re.IGNORECASE]:
    [(?P<prefix>[a-z{sc}\d]*[a-z{sc}])(?P<num>((?P<ref_num>\d+(\.\d+)?)(#(?P<subpart_num>\d+))?)?)]
    where [{sc}] is [PART_REF_REGEX_SPECIAL_CHAR_REF]. *)
Definition is_ref_special (c : ascii) : bool :=
  existsb (Ascii.eqb c) ["+"; "-"; "="; "_"; "."; "("; ")"; "$"; "*"; "&"]%char
  || is_space c.

(** [[a-z{sc}]] and [[a-z{sc}\d]] *)
Definition is_prefix_end (c : ascii) : bool := is_letter c || is_ref_special c.
Definition is_prefix_char (c : ascii) : bool := is_prefix_end c || is_digit c.

(** The group [prefix] at the head of [s], and what follows it: the star is
    greedy, so the prefix runs to the last character of [[a-z{sc}]] in the
    longest run of [[a-z{sc}\d]]. *)
Fixpoint match_prefix (s : string) : option (string * string) :=
  match s with
  | EmptyString => None
  | String c r =>
      if is_prefix_char c then
        match match_prefix r with
        | Some (p, rest) => Some (String c p, rest)
        | None => if is_prefix_end c then Some (String c EmptyString, r) else None
        end
      else None
  end.

(** [\d+] at the head of [s]. *)
Definition match_digits (s : string) : option (string * string) :=
  match take_while is_digit s with
  | EmptyString => None
  | d => Some (d, drop_while is_digit s)
  end.

(** An optional group [(m\d+)?] at the head of [s]: its text (empty when
    the group does not take part in the match) and what follows. *)
Definition match_marked_digits (m : ascii) (s : string) : string * string :=
  match s with
  | String c r =>
      if Ascii.eqb c m then
        match match_digits r with
        | Some (d, rest) => (String c d, rest)
        | None => (EmptyString, s)
        end
      else (EmptyString, s)
  | EmptyString => (EmptyString, s)
  end.

(** The group [num] at the head of [s]. *)
Definition match_num (s : string) : string :=
  match match_digits s with
  | None => EmptyString
  | Some (d, r) =>
      let '(frac, r) := match_marked_digits "." r in
      let '(sub, _) := match_marked_digits "#" r in
      d ++ frac ++ sub
  end.

(** [re.search(PART_REF_REGEX, ref)]: the groups [prefix] and [num] of the
    leftmost match. *)
Fixpoint part_ref_search (ref : string) : option (string * string) :=
  match match_prefix ref with
  | Some (p, rest) => Some (p, match_num rest)
  | None =>
      match ref with
      | EmptyString => None
      | String _ r => part_ref_search r
      end
  end.

(** ** [convert_to_ranges] *)

(** An element of [nums] after [to_int]: an [int], or the string that
    [int] refused. *)
Inductive refnum : Type :=
| RInt (n : Z)
| RStr (s : string).

(** An element of [num_ranges]: a number, or the list [[first, last]]. *)
Inductive num_range : Type :=
| Single (n : refnum)
| Range (first last : Z).

(** [int(re.match('\d+', refnum).group(0))]; without a leading digit
    [re.match] gives [None], which has no [group]. *)
Definition get_refnum (refnum : string) : result Z :=
  match match_digits refnum with
  | Some (d, _) => Ok (int_of_digits 0 d)
  | None => Raise AttributeError
  end.

(** [to_int]: here [n] is a text of the group [num], which [int] accepts
    exactly when it has digits only. *)
Definition to_int (n : string) : refnum :=
  match n with
  | EmptyString => RStr n
  | _ => if all_chars is_digit n then RInt (int_of_digits 0 n) else RStr n
  end.

(** The loop [for range_end in range(range_start + 2, len(nums))]: [first]
    is [nums[range_start]], [cands] the elements from index [range_end] on,
    [k] is [range_end - range_start]; the state is [num_range] and
    [next_range_start - range_start]. *)
Fixpoint extend_range (first : Z) (cands : list refnum) (k : nat)
    (acc : num_range * nat) : num_range * nat :=
  match cands with
  | [] => acc
  | RStr _ :: _ => acc
  | RInt n :: cands' =>
      if (Z.of_nat k =? n - first)%Z
      then extend_range first cands' (S k) (Range first n, S k)
      else acc
  end.

(** The loop [while range_start < len(nums)] over the elements from index
    [range_start] on; [skip] elements are still before [next_range_start]. *)
Fixpoint ranges_loop (skip : nat) (nums : list refnum) : list num_range :=
  match nums with
  | [] => []
  | x :: rest =>
      match skip with
      | S k => ranges_loop k rest
      | O =>
          match x with
          | RStr _ => Single x :: ranges_loop 0 rest
          | RInt n =>
              let '(num_range, next) := extend_range n (tl rest) 2 (Single x, 1) in
              num_range :: ranges_loop (next - 1) rest
          end
      end
  end.

Definition convert_to_ranges (nums : list string) : result (list num_range) :=
  keyed <- mapM (fun n => k <- get_refnum n ;; Ok (k, n)) nums ;;
  let nums := map snd (sorted_by (fun a b => (fst a <? fst b)%Z) keyed) in
  let nums := map to_int nums in
  Ok (ranges_loop 0 nums).

Definition str_refnum (n : refnum) : string :=
  match n with
  | RInt z => str_int z
  | RStr s => s
  end.

Definition format_range (prefix : string) (r : num_range) : string :=
  match r with
  | Range first last => prefix ++ str_int first ++ "-" ++ prefix ++ str_int last
  | Single n => prefix ++ str_refnum n
  end.

(** [prefix_nums.setdefault(prefix, []).append(num)] *)
Definition setdefault_append (d : dict (list string)) (k x : string)
    : dict (list string) :=
  match dict_get d k with
  | Some l => dict_set d k (l ++ [x])%list
  | None => dict_set d k [x]
  end.

Definition collapse_refs (refs : list string) : result string :=
  prefix_nums <-
    foldM (fun d ref =>
             match part_ref_search ref with
             | Some (prefix, num) => Ok (setdefault_append d prefix num)
             | None => Raise (SystemExit (NotRecognizedCharacters ref))
             end) refs [] ;;
  prefix_ranges <-
    mapM (fun pn : string * list string =>
            r <- convert_to_ranges (snd pn) ;; Ok (fst pn, r)) prefix_nums ;;
  Ok (join "," (flat_map (fun pr : string * list num_range =>
                            map (format_range (fst pr)) (snd pr)) prefix_ranges)).

(* ================================================================== *)
(** * Groups and [groups_sort] *)

(** The class [IdenticalComponents]: [fields] is set by the last loop of
    [group_parts] only. *)
Record IdenticalComponents : Type := {
  refs : list string;
  manf_nums : list value;
  fields : option record
}.

Definition BOM_ORDER : string := "u,q,d,t,y,x,c,r,s,j,p,cnn,con".

Fixpoint split_commas (cur : string) (s : string) : list string :=
  match s with
  | EmptyString => [cur]
  | String c s' =>
      if Ascii.eqb c ","
      then cur :: split_commas EmptyString s'
      else split_commas (cur ++ String c EmptyString) s'
  end.

(** [re.split('(?<![\W\*\/])\s*,\s*|\s*,\s*(?![\W\*\/])', BOM_ORDER)]:
    [BOM_ORDER] has no space and a letter on both sides of every comma, so a
    match is one comma and every comma is a match. *)
Definition ref_identifiers : list string := split_commas EmptyString BOM_ORDER.

(** [l.remove(x)]: [None] is the [ValueError] of an absent [x]. *)
Fixpoint list_remove (x : nat) (l : list nat) : option (list nat) :=
  match l with
  | [] => None
  | y :: l' =>
      if Nat.eqb y x then Some l'
      else match list_remove x l' with
           | Some r => Some (y :: r)
           | None => None
           end
  end.

(** [try: for item in items: l.remove(item)  except ValueError: pass] *)
Fixpoint remove_items (items : list nat) (l : list nat) : list nat :=
  match items with
  | [] => l
  | item :: items' =>
      match list_remove item l with
      | Some l' => remove_items items' l'
      | None => l
      end
  end.

(** [grp.fields.get(k)] *)
Definition group_field (grp : IdenticalComponents) (k : string) : result value :=
  match fields grp with
  | Some f => Ok (get_field f k)
  | None => Raise AttributeError
  end.

(** [v.lower()] *)
Definition value_lower (v : value) : result string :=
  match v with
  | Some s => Ok (lower s)
  | None => Raise AttributeError
  end.

Definition is_none (v : value) : bool :=
  match v with
  | None => true
  | Some _ => false
  end.

(** The order of the keys [(manf is None, refs)]. *)
Definition sort_key_ltb (a b : bool * list string) : bool :=
  match fst a, fst b with
  | false, true => true
  | true, false => false
  | _, _ => refs_ltb (snd a) (snd b)
  end.

(** [[i for i in range(0, len(refs)) if ref_identifier == refs[i].lower()]] *)
Fixpoint ref_match (ref_identifier : string) (i : nat) (group_refs : list value)
    : result (list nat) :=
  match group_refs with
  | [] => Ok []
  | v :: rest =>
      r <- value_lower v ;;
      m <- ref_match ref_identifier (S i) rest ;;
      Ok (if String.eqb ref_identifier r then i :: m else m)
  end.

(** The body of [for ref_identifier in ref_identifiers]; the state is
    [(component_groups_order_old, component_groups_order_new)]. *)
Definition sort_step (groups : list IdenticalComponents) (group_refs : list value)
    (st : list nat * list nat) (ref_identifier : string) : result (list nat * list nat) :=
  let '(order_old, order_new) := st in
  ref_match <- ref_match ref_identifier 0 group_refs ;;
  if Nat.ltb 0 (List.length ref_match) then
    if Nat.ltb 1 (List.length ref_match) then
      let order_old := remove_items ref_match order_old in
      group_manf_list <-
        mapM (fun h => match nth_error groups h with
                       | Some g => group_field g "manf#"
                       | None => Raise IndexError
                       end) ref_match ;;
      group_refs_list <-
        mapM (fun h => match nth_error groups h with
                       | Some g => Ok (refs g)
                       | None => Raise IndexError
                       end) ref_match ;;
      let key k := (is_none (nth k group_manf_list None), nth k group_refs_list []) in
      let sorted_groups :=
        sorted_by (fun a b => sort_key_ltb (key a) (key b))
                  (seq 0 (List.length group_refs_list)) in
      ref_match <-
        mapM (fun i => match nth_error ref_match i with
                       | Some h => Ok h
                       | None => Raise IndexError
                       end) sorted_groups ;;
      Ok (order_old, (order_new ++ ref_match)%list)
    else
      let order_old := remove_items (firstn 1 ref_match) order_old in
      Ok (order_old, (order_new ++ ref_match)%list)
  else Ok st.

Definition groups_sort_by (identifiers : list string)
    (new_component_groups : list IdenticalComponents)
    : result (list IdenticalComponents) :=
  let order_old := seq 0 (List.length new_component_groups) in
  group_refs <- mapM (fun g => group_field g "reference") new_component_groups ;;
  st <- foldM (sort_step new_component_groups group_refs) identifiers (order_old, []) ;;
  let order_new := (snd st ++ fst st)%list in
  mapM (fun i => match nth_error new_component_groups i with
                 | Some g => Ok g
                 | None => Raise IndexError
                 end) order_new.

Definition groups_sort (new_component_groups : list IdenticalComponents)
    : result (list IdenticalComponents) :=
  groups_sort_by ref_identifiers new_component_groups.

(* ================================================================== *)
(** * Field names, [subpart_split] and [group_parts] *)

Definition SUB_SEPRTR : string := "#".
Definition REPLICATE_MANF : string := "~".
Definition SGROUP_SEPRTR : string := String (ascii_of_nat 10) EmptyString.

Section Config.

(** The keys of [distributor_dict] (of [kicost.kicost]) in the order of
    iteration, and [SEPRTR] (of [kicost.globals]). *)
Variable distributor_dict : list string.
Variable SEPRTR : string.

(** The built-in [hash], on the tuple of the sorted items of a [dict]. *)
Variable hash : list (string * value) -> Z.

(** The order in which a [for] loop goes through a [set] of field values. *)
Variable set_iter : list value -> list value.

(** ** [field_name_translations] *)

Definition manf_translations : list (string * string) :=
  [ ("mpn", "manf#"); ("pn", "manf#"); ("manf_num", "manf#"); ("manf-num", "manf#");
    ("mfg_num", "manf#"); ("mfg-num", "manf#"); ("mfg#", "manf#");
    ("man_num", "manf#"); ("man-num", "manf#"); ("man#", "manf#");
    ("mnf_num", "manf#"); ("mnf-num", "manf#"); ("mnf#", "manf#");
    ("mfr_num", "manf#"); ("mfr-num", "manf#"); ("mfr#", "manf#");
    ("part-num", "manf#"); ("part_num", "manf#"); ("p#", "manf#"); ("part#", "manf#");
    ("manf", "manf"); ("manufacturer", "manf"); ("mnf", "manf"); ("man", "manf");
    ("mfg", "manf"); ("mfr", "manf") ].

Definition distributor_stubs : list string :=
  ["part#"; "#"; "p#"; "pn"; "vendor#"; "vp#"; "vpn"; "num"].

Definition distributor_translations : list (string * string) :=
  flat_map (fun stub =>
    flat_map (fun dist =>
      [ (dist ++ stub, dist ++ "#");
        (dist ++ "_" ++ stub, dist ++ "#");
        (dist ++ "-" ++ stub, dist ++ "#") ]) distributor_dict) distributor_stubs.

Definition other_translations : list (string * string) :=
  [ ("variant", "variant"); ("version", "variant"); ("dnp", "dnp"); ("nopop", "dnp");
    ("description", "desc") ].

Definition field_name_translations : dict string :=
  dict_update
    (dict_update (dict_of_list manf_translations) distributor_translations)
    other_translations.

(** [field_name_translations.get(f.lower(), f.lower())] *)
Definition translate (f : string) : string :=
  match dict_get field_name_translations (lower f) with
  | Some t => t
  | None => lower f
  end.

(** ** [subpart_split] *)

(** [dist], the fields of codes. *)
Definition dist : list string :=
  (map (fun d => (d ++ "#")%string) distributor_dict ++ ["manf#"])%list.

(** [subpart_list(v)]; [None] has no [strip]. *)
Definition subpart_list_of (v : value) : result (list string) :=
  match v with
  | Some s => Ok (subpart_list s)
  | None => Raise AttributeError
  end.

(** The first loop over [dist]: [subparts_qty], and [founded_fields] with
    the list that [subparts_manf_code] holds for each of them. *)
Definition find_codes (part : record) : result (nat * list (string * list string)) :=
  foldM (fun (st : nat * list (string * list string)) field_code =>
           let '(subparts_qty, founded) := st in
           match dict_get part field_code with
           | Some v =>
               codes <- subpart_list_of v ;;
               Ok (Nat.max subparts_qty (List.length codes),
                   (founded ++ [(field_code, codes)])%list)
           | None => Ok st
           end) dist (0, []).

(** The names of the manufacturers, one for each sub-part. *)
Definition split_manf (part : record) (subparts_qty : nat) : result (list string) :=
  match dict_get part "manf" with
  | None => Ok (repeat EmptyString subparts_qty)
  | Some v =>
      subparts_manf <- subpart_list_of v ;;
      if Nat.eqb (List.length subparts_manf) subparts_qty then Ok subparts_manf
      else if Nat.eqb (List.length subparts_manf) 1
      then Ok (repeat (hd EmptyString subparts_manf) subparts_qty)
      else Ok (subparts_manf
               ++ repeat EmptyString (subparts_qty - List.length subparts_manf))%list
  end.

(** ['{v}'.format(v=x)] *)
Definition format_value (v : value) : string :=
  match v with
  | Some s => s
  | None => "None"
  end.

(** The loop over [founded_fields] for the sub-part of index
    [subparts_index]; a field without a code at this index is passed by the
    handler of [IndexError]. *)
Definition set_subpart_codes (part_actual_value : value) (subparts_qty subparts_index : nat)
    (founded : list (string * list string)) (subpart_actual : record) : record :=
  fold_left (fun (subpart_actual : record) (fc : string * list string) =>
               let '(field_manf_dist_code, codes) := fc in
               match nth_error codes subparts_index with
               | Some p_manf_code =>
                   let subpart_actual :=
                     dict_set subpart_actual "value"
                       (Some (format_value part_actual_value ++ " - p"
                              ++ str_nat (subparts_index + 1) ++ "/"
                              ++ str_nat subparts_qty)) in
                   let '(subpart_qty, subpart_part) := manf_code_qtypart p_manf_code in
                   let subpart_actual :=
                     dict_set subpart_actual field_manf_dist_code (Some subpart_part) in
                   dict_set subpart_actual (field_manf_dist_code ++ "_qty") (Some subpart_qty)
               | None => subpart_actual
               end) founded subpart_actual.

(** The body of [for subparts_index in range(subparts_qty)]; the state is
    [splitted_components] and the local [p_manf], which is unbound until its
    first assignment. *)
Definition add_subpart (part_ref : string) (part : record) (part_actual_value : value)
    (subparts_qty : nat) (founded : list (string * list string))
    (subparts_manf : list string)
    (st : dict record * option string) (subparts_index : nat)
    : result (dict record * option string) :=
  let '(splitted_components, p_manf) := st in
  let subpart_actual :=
    set_subpart_codes part_actual_value subparts_qty subparts_index founded part in
  match nth_error subparts_manf subparts_index with
  | None => Raise IndexError
  | Some m =>
      let p_manf := if String.eqb m REPLICATE_MANF then p_manf else Some m in
      match p_manf with
      | None => Raise UnboundLocalError
      | Some name =>
          let subpart_actual := dict_set subpart_actual "manf" (Some name) in
          let ref := part_ref ++ SUB_SEPRTR ++ str_nat (subparts_index + 1) in
          Ok (dict_set splitted_components ref subpart_actual, p_manf)
      end
  end.

(** The branch of a single sub-part: the codes of index 0. The part is
    stored when a field has a code. *)
Definition set_single_codes (founded : list (string * list string)) (part : record)
    : record * bool :=
  fold_left (fun (st : record * bool) (fc : string * list string) =>
               let '(part_actual, stored) := st in
               let '(field_manf_dist_code, codes) := fc in
               match nth_error codes 0 with
               | Some p_manf_code =>
                   let '(part_qty, part_part) := manf_code_qtypart p_manf_code in
                   let part_actual :=
                     dict_set part_actual field_manf_dist_code (Some part_part) in
                   (dict_set part_actual (field_manf_dist_code ++ "_qty") (Some part_qty),
                    true)
               | None => st
               end) founded (part, false).

(** The body of the [try] of the loop over the parts. *)
Definition split_part (st : dict record * option string) (part_ref : string)
    (part : record) : result (dict record * option string) :=
  let '(splitted_components, p_manf) := st in
  found <- find_codes part ;;
  let '(subparts_qty, founded) := found in
  match founded with
  | [] => Ok (dict_set splitted_components part_ref part, p_manf)
  | _ :: _ =>
      subparts_manf <- split_manf part subparts_qty ;;
      if Nat.ltb 1 subparts_qty then
        match dict_get part "value" with
        | None => Raise (KeyError "value")
        | Some part_actual_value =>
            foldM (add_subpart part_ref part part_actual_value subparts_qty
                               founded subparts_manf)
                  (seq 0 subparts_qty) st
        end
      else
        let '(part_actual, stored) := set_single_codes founded part in
        Ok (if stored then dict_set splitted_components part_ref part_actual
            else splitted_components, p_manf)
  end.

(** [try: ... except KeyError: continue] *)
Definition split_part_try (st : dict record * option string)
    (item : string * record) : result (dict record * option string) :=
  match split_part st (fst item) (snd item) with
  | Raise (KeyError _) => Ok st
  | r => r
  end.

Definition subpart_split (components : dict record) : result (dict record) :=
  st <- foldM split_part_try components ([], None) ;;
  Ok (fst st).

(** ** [group_parts] *)

Definition FIELDS_MANF : list string :=
  (["manf#"; "manf#_qty"; "manf"]
   ++ map (fun d => (d ++ "#")%string) distributor_dict
   ++ map (fun d => (d ++ "#_qty")%string) distributor_dict)%list.

(** The loop [for c in FIELDS_MANF: if c in fields_merge: exit(...)]. *)
Definition check_fields_merge (fields_merge : list string) : result unit :=
  match find (fun c => mem_string c fields_merge) FIELDS_MANF with
  | Some c => Raise (SystemExit (MergeFieldNotAllowed c))
  | None => Ok tt
  end.

Definition hash_fields (fields_merge : list string) (fields : record) : record :=
  filter (fun kv : string * value =>
            negb (mem_string (fst kv) (FIELDS_MANF ++ fields_merge)%list)
            && negb (contains SEPRTR (fst kv))) fields.

(** [hash(tuple(sorted(hash_fields.items())))]: the keys of a [dict] differ,
    so the items are ordered by their keys. *)
Definition hash_of (fields_merge : list string) (fields : record) : Z :=
  hash (sorted_by (fun a b : string * value => String.ltb (fst a) (fst b))
                  (hash_fields fields_merge fields)).

(** [component_groups], a [dict] from hashes to groups: the [try] appends
    to the group of [h], the handler of [KeyError] makes a new group. *)
Fixpoint add_component (h : Z) (ref : string) (manf_num : value)
    (component_groups : list (Z * IdenticalComponents))
    : list (Z * IdenticalComponents) :=
  match component_groups with
  | [] => [(h, {| refs := [ref]; manf_nums := [manf_num]; fields := None |})]
  | (h', grp) :: rest =>
      if (h' =? h)%Z
      then (h', {| refs := (refs grp ++ [ref])%list;
                   manf_nums := set_add manf_num (manf_nums grp);
                   fields := fields grp |}) :: rest
      else (h', grp) :: add_component h ref manf_num rest
  end.

Definition group_by_hash (fields_merge : list string) (components : dict record)
    : list IdenticalComponents :=
  map snd
    (fold_left (fun component_groups (item : string * record) =>
                  add_component (hash_of fields_merge (snd item)) (fst item)
                                (get_field (snd item) "manf#") component_groups)
               components []).

(** [components[ref]], for a [ref] of a group: it is a key of [components]. *)
Definition component (components : dict record) (ref : string) : record :=
  match dict_get components ref with
  | Some fields => fields
  | None => []
  end.

(** The body of [for g, grp in list(component_groups.items())]: the groups
    that it appends to [new_component_groups]. *)
Definition refine_group (components : dict record) (grp : IdenticalComponents)
    : list IdenticalComponents :=
  let num_manf_nums := List.length (manf_nums grp) in
  if Nat.eqb num_manf_nums 1 then [grp]
  else if Nat.eqb num_manf_nums 2 && mem_value None (manf_nums grp) then [grp]
  else
    map (fun manf_num =>
           {| refs := filter (fun ref =>
                                value_eqb (get_field (component components ref) "manf#")
                                          manf_num) (refs grp);
              manf_nums := [manf_num];
              fields := None |})
        (set_iter (manf_nums grp)).

(** The keys of a [dict] comprehension or of a [Counter] over [l]. *)
Definition distinct (l : list string) : list string :=
  fold_left (fun acc x => if mem_string x acc then acc else (acc ++ [x])%list) l [].

(** [v or ''] *)
Definition or_empty (v : value) : string :=
  match v with
  | Some s => s
  | None => EmptyString
  end.

(** [components[r][f] = v] *)
Definition set_component_field (components : dict record) (r f : string) (v : value)
    : dict record :=
  dict_set components r (dict_set (component components r) f v).

(** The body of [for f in fields_merge] for the group of references
    [grp_refs]; the state is [components], whose parts the loop changes. *)
Definition merge_field (grp_refs : list string) (components : dict record) (f : string)
    : result (dict record) :=
  let values_field :=
    map (fun r => or_empty (get_field (component components r) f)) (distinct grp_refs) in
  let ocurrences :=
    map (fun v_g =>
           (v_g, filter (fun r => value_eqb (get_field (component components r) f)
                                            (Some v_g)) grp_refs))
        (distinct values_field) in
  if Nat.ltb 1 (List.length ocurrences) then
    lines <- mapM (fun tr : string * list string =>
                     c <- collapse_refs (snd tr) ;;
                     Ok (c ++ SEPRTR ++ " " ++ fst tr)) ocurrences ;;
    let value := join SGROUP_SEPRTR lines in
    Ok (fold_left (fun components r => set_component_field components r f (Some value))
                  grp_refs components)
  else Ok components.

Definition merge_fields (fields_merge : list string)
    (new_component_groups : list IdenticalComponents) (components : dict record)
    : result (dict record) :=
  match fields_merge with
  | [] => Ok components
  | _ :: _ =>
      let fields_merge := map translate fields_merge in
      foldM (fun components grp => foldM (merge_field (refs grp)) fields_merge components)
            new_component_groups components
  end.

(** The body of [for key, val in list(components[ref].items())]. *)
Definition propagate_field (ref : string) (grp_fields : record) (kv : string * value)
    : result record :=
  let '(key, val) := kv in
  match val with
  | None => Ok grp_fields
  | Some val =>
      match get_field grp_fields key with
      | Some (String _ _ as group_val) =>
          if negb (String.eqb group_val val)
          then Raise (SystemExit (FieldValueMismatch ref key val group_val))
          else Ok grp_fields
      | _ => Ok (dict_set grp_fields key (Some val))
      end
  end.

(** The body of the last loop: the group with its [fields]. *)
Definition propagate (components : dict record) (grp : IdenticalComponents)
    : result IdenticalComponents :=
  grp_fields <-
    foldM (fun grp_fields ref =>
             foldM (propagate_field ref) (component components ref) grp_fields)
          (refs grp) [] ;;
  Ok {| refs := refs grp; manf_nums := manf_nums grp; fields := Some grp_fields |}.

(** The groups after the split by [manf#]. *)
Definition refine_groups (fields_merge : list string) (components : dict record)
    : list IdenticalComponents :=
  flat_map (refine_group components) (group_by_hash fields_merge components).

(** What [group_parts] does once the fields to merge are accepted. *)
Definition group_accepted (components : dict record) (fields_merge : list string)
    : result (list IdenticalComponents) :=
  let new_component_groups := refine_groups fields_merge components in
  components <- merge_fields fields_merge new_component_groups components ;;
  mapM (propagate components) new_component_groups.

Definition group_parts (components : dict record) (fields_merge : list string)
    : result (list IdenticalComponents) :=
  let fields_merge := map translate fields_merge in
  _ <- check_fields_merge fields_merge ;;
  group_accepted components fields_merge.

(** [organize_parts] *)
Definition organize_parts (components : dict record) (fields_merge : list string)
    : result (list IdenticalComponents) :=
  components <- subpart_split components ;;
  group_parts components fields_merge.

End Config.

(* ================================================================== *)
(** * [split_refs] *)

(** [\w] of a [str] pattern on the code points below 256: the letters, the
    digits and the underscore of ASCII, and the letters and numbers of
    Latin-1. *)
Definition is_word (c : ascii) : bool :=
  in_range 48 57 c || in_range 65 90 c || (code c =? 95)%N || in_range 97 122 c
  || (code c =? 170)%N || in_range 178 179 c || (code c =? 181)%N
  || in_range 185 186 c || in_range 188 190 c || in_range 192 214 c
  || in_range 216 246 c || in_range 248 255 c.

(** [[,;]], [PART_REF_REGEX_NOT_ALLOWED] ([[\+\(\)\*]]), [-], [[/\\\]] and
    [[\-\/\\\]] *)
Definition is_list_sep (c : ascii) : bool := Ascii.eqb c "," || Ascii.eqb c ";".
Definition is_not_allowed (c : ascii) : bool :=
  Ascii.eqb c "+" || Ascii.eqb c "(" || Ascii.eqb c ")" || Ascii.eqb c "*".
Definition is_dash (c : ascii) : bool := Ascii.eqb c "-".
Definition is_slash (c : ascii) : bool := Ascii.eqb c "/" || Ascii.eqb c backslash.
Definition is_dash_slash (c : ascii) : bool := is_dash c || is_slash c.

(** [re.split] on a class of characters: every character of the class is
    a match; [cur] is the segment since the last match. *)
Fixpoint split_chars (p : ascii -> bool) (cur : string) (s : string) : list string :=
  match s with
  | EmptyString => [cur]
  | String c s' =>
      if p c then cur :: split_chars p EmptyString s'
      else split_chars p (cur ++ String c EmptyString) s'
  end.

(** [re.search] of a class of characters, as a truth value. *)
Definition has_char (p : ascii -> bool) (s : string) : bool :=
  negb (all_chars (fun c => negb (p c)) s).

(** [re.search('^\w+\d', ref)] as a truth value: the run of word characters
    at the head has a digit after its first character. *)
Definition word_digit_head (ref : string) : bool :=
  match take_while is_word ref with
  | String _ w => has_char is_digit w
  | EmptyString => false
  end.

(** [re.findall('^\D+', ref)[0]]: without a match the list is empty. *)
Definition designator (ref : string) : result string :=
  match take_while (fun c => negb (is_digit c)) ref with
  | EmptyString => Raise IndexError
  | d => Ok d
  end.

(** [''.join(re.findall('^d*\W', s))]: the letters [d] at the head and the
    character after them, when it is not a word character. *)
Definition d_run_nonword (s : string) : string :=
  let ds := take_while (Ascii.eqb "d") s in
  match drop (String.length ds) s with
  | String c _ => if is_word c then EmptyString else ds ++ String c EmptyString
  | EmptyString => EmptyString
  end.

(** [re.sub(name, '', s)] for a [name] that the pattern takes literally: its
    occurrences from the left, without overlap; [skip] characters of an
    occurrence are still to be passed over. In [split_refs] the name is
    made of word characters that are not digits (the head of a reference
    that matches [^\w+\d]), and is not empty. *)
Fixpoint remove_all (name : string) (skip : nat) (s : string) : string :=
  match s with
  | EmptyString => EmptyString
  | String c s' =>
      match skip with
      | S k => remove_all name k s'
      | O =>
          if prefix name s then remove_all name (String.length name - 1) s'
          else String c (remove_all name 0 s')
      end
  end.

(** [re.sub('^' + name, '', s)] *)
Definition remove_prefix (name s : string) : string :=
  if prefix name s then drop (String.length name) s else s.

(** [''.join(re.findall('^\d+\D', s))]: the digits at the head and the
    character after them. *)
Definition digits_nondigit (s : string) : string :=
  match take_while is_digit s with
  | EmptyString => EmptyString
  | ds =>
      match drop (String.length ds) s with
      | String c _ => ds ++ String c EmptyString
      | EmptyString => EmptyString
      end
  end.

(** The longest end of [s] whose characters are all in [p]. *)
Fixpoint take_end (p : ascii -> bool) (s : string) : string :=
  match s with
  | EmptyString => EmptyString
  | String _ s' => if all_chars p s then s else take_end p s'
  end.

(** [s] without its last character, when this is a newline. *)
Fixpoint chop_newline (s : string) : option string :=
  match s with
  | EmptyString => None
  | String c EmptyString =>
      if Ascii.eqb c (ascii_of_nat 10) then Some EmptyString else None
  | String c s' =>
      match chop_newline s' with
      | Some r => Some (String c r)
      | None => None
      end
  end.

(** [''.join(re.findall('\D*(\d+)$', n))]: the digits at the end of [n];
    [$] is also before a last newline. *)
Definition trailing_digits (n : string) : string :=
  match take_end is_digit n with
  | EmptyString =>
      match chop_newline n with
      | Some n' => take_end is_digit n'
      | None => EmptyString
      end
  | d => d
  end.

(** [list(range(a, b + 1))] *)
Definition int_range (a b : Z) : list Z :=
  map (fun k => (a + Z.of_nat k)%Z) (seq 0 (Z.to_nat (b + 1 - a))).

(** What [split_refs] gives: the references, an exception of the functions
    above, or the [ValueError] of [int('')]. *)
Inductive split_result : Type :=
| Refs (refs : list string)
| SplitRaise (e : exn)
| ValueError.

(** [int(n)] for the digits that [trailing_digits] gives. *)
Definition int_of (n : string) : option Z :=
  match n with
  | EmptyString => None
  | _ => Some (int_of_digits 0 n)
  end.

(** The body of [for ref in partial_ref]: what it adds to [refs]. *)
Definition split_ref (ref : string) : split_result :=
  let ref := remove_chars is_not_allowed ref in
  if word_digit_head ref then
    if has_char is_dash ref then
      match designator ref with
      | Raise e => SplitRaise e
      | Ok designator_name =>
          let splitted_nums := split_chars is_dash EmptyString ref in
          let designator_name :=
            designator_name ++ d_run_nonword (hd EmptyString splitted_nums) in
          let splitted_nums := map (remove_all designator_name 0) splitted_nums in
          let base_splitted_nums := digits_nondigit (hd EmptyString splitted_nums) in
          let splitted_nums := map trailing_digits splitted_nums in
          match nth_error splitted_nums 0 with
          | None => SplitRaise IndexError
          | Some n0 =>
              match int_of n0 with
              | None => ValueError
              | Some first =>
                  match nth_error splitted_nums 1 with
                  | None => SplitRaise IndexError
                  | Some n1 =>
                      match int_of n1 with
                      | None => ValueError
                      | Some last =>
                          Refs (map (fun k => designator_name ++ base_splitted_nums
                                              ++ str_int k)
                                    (int_range first last))
                      end
                  end
              end
          end
      end
    else if has_char is_slash ref then
      match designator ref with
      | Raise e => SplitRaise e
      | Ok designator_name =>
          let splitted_nums :=
            map (remove_prefix designator_name)
                (split_chars is_slash EmptyString ref) in
          Refs (map (fun i => designator_name ++ i) splitted_nums)
      end
    else Refs [ref]
  else
    let ref := remove_chars is_dash_slash ref in
    match part_ref_search ref with
    | None => SplitRaise AttributeError
    | Some (_, num) =>
        Refs [if String.eqb num EmptyString then ref ++ "0" else ref]
    end.

(** The loop over [partial_ref]; [refs] is the list so far. *)
Fixpoint split_loop (partial_ref : list string) (refs : list string) : split_result :=
  match partial_ref with
  | [] => Refs refs
  | ref :: rest =>
      match split_ref ref with
      | Refs l => split_loop rest (refs ++ l)
      | r => r
      end
  end.

Definition split_refs (text : string) : split_result :=
  split_loop (split_chars is_list_sep EmptyString text) [].

(* ================================================================== *)
(** * A configuration to run the functions with *)

Definition hash_string (h : Z) (s : string) : Z :=
  fold_left (fun h c => ((31 * h + Z.of_N (code c)) mod 2305843009213693951)%Z)
            (list_ascii_of_string s) h.

(** A hash of the items of a [dict], and the iteration of a [set] in the
    order of insertion. *)
Definition example_hash (items : list (string * value)) : Z :=
  fold_left (fun h (kv : string * value) =>
               hash_string (hash_string h (fst kv)) (format_value (snd kv)))
            items 7%Z.

Definition insertion_order (s : list value) : list value := s.

(* ================================================================== *)
(** * Predicates of the statements *)

(** The field ['manf#'] of the component [ref]. *)
Definition manf_of (components : dict record) (ref : string) : value :=
  get_field (component components ref) "manf#".

(** [manf_nums] is the duplicate-free collection of the ['manf#'] of the
    members of the group. *)
Definition manf_nums_of_members (components : dict record) (grp : IdenticalComponents)
    : Prop :=
  NoDup (manf_nums grp)
  /\ forall m, In m (manf_nums grp)
               <-> exists ref, In ref (refs grp) /\ manf_of components ref = m.

(** The groups that the split by ['manf#'] leaves whole. *)
Definition kept_whole (grp : IdenticalComponents) : Prop :=
  List.length (manf_nums grp) = 1
  \/ (List.length (manf_nums grp) = 2 /\ In None (manf_nums grp)).

(** ** Predicates of the further properties *)

(** The hash of the component [ref]. *)
Definition component_hash (dd : list string) (SEPRTR : string)
    (hash : list (string * value) -> Z) (fields_merge : list string)
    (components : dict record) (ref : string) : Z :=
  hash_of dd SEPRTR hash fields_merge (component components ref).

(** Every separator of [s] is right after a backslash; [prev] is the
    character before [s]. *)
Fixpoint all_escaped (is_sep : ascii -> bool) (prev : option ascii) (s : string) : bool :=
  match s with
  | EmptyString => true
  | String c s' =>
      (negb (is_sep c) || negb (not_after_backslash prev))
      && all_escaped is_sep (Some c) s'
  end.

(** The numbers that an element of [num_ranges] stands for. *)
Definition range_numbers (r : num_range) : list refnum :=
  match r with
  | Single n => [n]
  | Range first last =>
      map (fun k => RInt (first + Z.of_nat k)) (seq 0 (Z.to_nat (last - first) + 1))
  end.

(** A list of integers in ascending order, without a duplicate. *)
Fixpoint ascending (l : list Z) : Prop :=
  match l with
  | [] => True
  | a :: l' => match l' with
               | [] => True
               | b :: _ => (a < b)%Z
               end /\ ascending l'
  end.

(** A range holds three numbers or more. *)
Definition wide_range (r : num_range) : Prop :=
  match r with
  | Single _ => True
  | Range first last => (2 <= last - first)%Z
  end.


(** [grp.fields.get(k)] of a group that has its [fields]. *)
Definition group_get (grp : IdenticalComponents) (k : string) : value :=
  match fields grp with
  | Some f => get_field f k
  | None => None
  end.

(** The reference of a group in lower case, which the sorter compares
    with the identifiers of [BOM_ORDER]. *)
Definition group_reference (grp : IdenticalComponents) : string :=
  lower (or_empty (group_get grp "reference")).

(** The key [(manf is None, refs)] of a group. *)
Definition group_key (grp : IdenticalComponents) : bool * list string :=
  (is_none (group_get grp "manf#"), refs grp).

(** The groups of the reference [id], in the order of their keys. *)
Definition ordered_class (id : string) (groups : list IdenticalComponents)
    : list IdenticalComponents :=
  sorted_by (fun a b => sort_key_ltb (group_key a) (group_key b))
            (filter (fun g => String.eqb id (group_reference g)) groups).

(** The reference of the group is none of the identifiers [ids]. *)
Definition unmatched (ids : list string) (grp : IdenticalComponents) : bool :=
  negb (existsb (fun id => String.eqb id (group_reference grp)) ids).

(** The name of the manufacturer that the sub-part of index [i] gets: the
    name of this index, and for the mark [~] the name that the sub-part
    before it got. *)
Fixpoint manf_name (subparts_manf : list string) (i : nat) : option string :=
  match nth_error subparts_manf i with
  | None => None
  | Some m =>
      if String.eqb m REPLICATE_MANF then
        match i with
        | O => None
        | S j => manf_name subparts_manf j
        end
      else Some m
  end.

(* ================================================================== *)
(** * Properties *)

(** ** The monad of results and the loops *)

Lemma bind_Ok {A B} (r : result A) (k : A -> result B) (b : B) :
  bind r k = Ok b -> exists a, r = Ok a /\ k a = Ok b.
Proof.
  destruct r as [a|e]; simpl; intros H.
  - exists a. split; [reflexivity | exact H].
  - discriminate H.
Qed.

Lemma foldM_app {A S} (body : S -> A -> result S) (l1 l2 : list A) (st : S) :
  foldM body (l1 ++ l2)%list st = (st' <- foldM body l1 st ;; foldM body l2 st').
Proof.
  revert st. induction l1 as [|x l1 IH]; intros st; simpl.
  - reflexivity.
  - destruct (body st x) as [st'|e]; simpl; [apply IH | reflexivity].
Qed.

Lemma foldM_inv {A S} (P : S -> Prop) (body : S -> A -> result S) :
  (forall s a s', P s -> body s a = Ok s' -> P s') ->
  forall l st st', P st -> foldM body l st = Ok st' -> P st'.
Proof.
  intros Hstep l. induction l as [|x l IH]; intros st st' Hst H; simpl in H.
  - inversion H; subst; exact Hst.
  - apply bind_Ok in H. destruct H as (s1 & H1 & H2).
    eapply IH; [eapply Hstep; eassumption | exact H2].
Qed.

Lemma mapM_Ok_length {A B} (f : A -> result B) (l : list A) (l' : list B) :
  mapM f l = Ok l' -> List.length l' = List.length l.
Proof.
  revert l'. induction l as [|x l IH]; intros l' H; simpl in H.
  - inversion H; reflexivity.
  - apply bind_Ok in H. destruct H as (y & _ & H).
    apply bind_Ok in H. destruct H as (ys & Hys & H).
    inversion H; subst; simpl. f_equal. apply IH. exact Hys.
Qed.

(** ** Patterns of starred and optional classes *)

Lemma take_drop_while (p : ascii -> bool) (s : string) :
  s = take_while p s ++ drop_while p s.
Proof.
  induction s as [|c s IH]; simpl.
  - reflexivity.
  - destruct (p c); simpl; [f_equal; exact IH | reflexivity].
Qed.

Lemma all_chars_take_while (p : ascii -> bool) (s : string) :
  all_chars p (take_while p s) = true.
Proof.
  induction s as [|c s IH]; simpl.
  - reflexivity.
  - destruct (p c) eqn:Hc; simpl; [rewrite Hc; exact IH | reflexivity].
Qed.

Lemma drop_while_app (p : ascii -> bool) (w t : string) :
  all_chars p w = true -> drop_while p (w ++ t) = drop_while p t.
Proof.
  induction w as [|c w IH]; simpl; intros H.
  - reflexivity.
  - apply andb_prop in H. destruct H as [Hc Hw]. rewrite Hc. apply IH. exact Hw.
Qed.

(** The strings of a pattern stay in it without their first character. *)
Lemma in_items_tail (items : list item) :
  forall c s, in_items items (String c s) -> in_items items s.
Proof.
  induction items as [|[p|p] items IH]; intros c s H; simpl in *.
  - discriminate H.
  - destruct H as (w & t & Heq & Hw & Ht). destruct w as [|c' w]; simpl in Heq.
    + subst t. exists EmptyString, s. repeat split. apply (IH c). exact Ht.
    + inversion Heq; subst. simpl in Hw. apply andb_prop in Hw.
      exists w, t. repeat split; [apply Hw | exact Ht].
  - left. destruct H as [H|(c' & t & Heq & _ & Ht)].
    + apply (IH c). exact H.
    + inversion Heq; subst. exact Ht.
Qed.

Lemma in_items_drop_while (items : list item) (p : ascii -> bool) (s : string) :
  in_items items s -> in_items items (drop_while p s).
Proof.
  induction s as [|c s IH]; simpl; intros H.
  - exact H.
  - destruct (p c); [|exact H]. apply IH. apply (in_items_tail items c). exact H.
Qed.

(** Taking for each item what it can take finds the match when there is one. *)
Lemma match_items_spec (items : list item) :
  forall s, match_items items s = true <-> in_items items s.
Proof.
  induction items as [|[p|p] items IH]; intros s; simpl.
  - apply String.eqb_eq.
  - rewrite IH. split.
    + intros H. exists (take_while p s), (drop_while p s).
      split; [apply take_drop_while|]. split; [apply all_chars_take_while | exact H].
    + intros (w & t & -> & Hw & Ht). rewrite (drop_while_app p w t Hw).
      apply in_items_drop_while. exact Ht.
  - rewrite IH. destruct s as [|c s].
    + split; [intros H; left; exact H|].
      intros [H|(c & t & Heq & _)]; [exact H | discriminate Heq].
    + destruct (p c) eqn:Hc.
      * split.
        -- intros H. right. exists c, s. auto.
        -- intros [H|(c' & t & Heq & _ & Ht)].
           ++ apply (in_items_tail items c). exact H.
           ++ inversion Heq; subst. exact Ht.
      * split; [intros H; left; exact H|].
        intros [H|(c' & t & Heq & Hc' & _)]; [exact H|].
        inversion Heq; subst. congruence.
Qed.

(** [num_format] holds of the strings of its pattern. *)
Lemma num_format_spec (s : string) :
  num_format s = true <-> in_items num_format_items s.
Proof. apply match_items_spec. Qed.

(** ** The decoder of quantities and codes *)

(** C6: [manf_code_qtypart] gives the quantity and the code of the four
    literal cases: a quantity before the code, no quantity (it is ["1"]),
    a quantity after the code and spaces, a decimal quantity with spaces. *)
Theorem manf_code_qtypart_literals :
  manf_code_qtypart "7:ADUM3150BRSZ-RL7" = ("7", "ADUM3150BRSZ-RL7")
  /\ manf_code_qtypart "ADUM3150BRSZ-RL7" = ("1", "ADUM3150BRSZ-RL7")
  /\ manf_code_qtypart "ADUM3150BRSZ-RL7 :   7" = ("7", "ADUM3150BRSZ-RL7")
  /\ manf_code_qtypart " 4.5 : ADUM3150BRSZ-RL7" = ("4.5", "ADUM3150BRSZ-RL7").
Proof. repeat split; vm_compute; reflexivity. Qed.

(** The other cases of the docstring of [manf_code_qtypart]. *)
Example manf_code_qtypart_docstring :
  manf_code_qtypart "4/5  : ADUM3150BRSZ-RL7" = ("4/5", "ADUM3150BRSZ-RL7")
  /\ manf_code_qtypart "ADUM3150BRSZ-RL7:" = ("1", "ADUM3150BRSZ-RL7").
Proof. split; vm_compute; reflexivity. Qed.

(** C7, as stated, fails: [":123"] splits into the two numeric segments
    [""] and ["123"], the first is strictly shorter, and the quantity
    returned is ["1"], not that segment. And [" 7:1234"] splits into [" 7"]
    and ["1234"]: the quantity returned is the shorter segment without its
    space. *)
Lemma shorter_segment_counterexample :
  (re_split is_qty_sep (esc_sub 0 ":123") = [""; "123"]
   /\ num_format "" = true /\ num_format "123" = true
   /\ len_no_marks "" < len_no_marks "123"
   /\ manf_code_qtypart ":123" = ("1", "123")
   /\ fst (manf_code_qtypart ":123") <> "")
  /\ (re_split is_qty_sep (esc_sub 0 " 7:1234") = [" 7"; "1234"]
      /\ num_format " 7" = true /\ num_format "1234" = true
      /\ len_no_marks " 7" < len_no_marks "1234"
      /\ manf_code_qtypart " 7:1234" = ("7", "1234")
      /\ fst (manf_code_qtypart " 7:1234") <> " 7").
Proof.
  repeat split; try (vm_compute; reflexivity); try (vm_compute; lia);
    vm_compute; discriminate.
Qed.

(** C7, amended: when the string splits into two segments that both match
    the pattern of numbers, the quantity is the strictly shorter segment
    (not counting ['.'] and ['/']), stripped, or ["1"] when that is empty,
    and the code is the other segment, stripped. *)
Theorem manf_code_qtypart_both_numeric (subpart s0 s1 : string) :
  re_split is_qty_sep (esc_sub 0 subpart) = [s0; s1] ->
  num_format s0 = true ->
  num_format s1 = true ->
  (len_no_marks s0 < len_no_marks s1 ->
   manf_code_qtypart subpart
   = (if String.eqb (strip s0) "" then "1" else strip s0, strip s1))
  /\ (len_no_marks s1 < len_no_marks s0 ->
      manf_code_qtypart subpart
      = (if String.eqb (strip s1) "" then "1" else strip s1, strip s0)).
Proof.
  intros Hsplit H0 H1. unfold manf_code_qtypart. rewrite Hsplit, H0, H1. simpl.
  split; intros Hlt.
  - apply Nat.ltb_lt in Hlt. rewrite Hlt. reflexivity.
  - assert (Hge : Nat.ltb (len_no_marks s0) (len_no_marks s1) = false)
      by (apply Nat.ltb_ge; lia).
    rewrite Hge. reflexivity.
Qed.

Lemma manf_code_qtypart_both_numeric_witness :
  manf_code_qtypart "2 : 12345" = ("2", "12345")
  /\ manf_code_qtypart " 0603:12" = ("12", "0603").
Proof.
  split.
  - apply (proj1 (manf_code_qtypart_both_numeric "2 : 12345" "2" "12345"
                    eq_refl eq_refl eq_refl)).
    vm_compute. lia.
  - apply (proj2 (manf_code_qtypart_both_numeric " 0603:12" " 0603" "12"
                    eq_refl eq_refl eq_refl)).
    vm_compute. lia.
Defined.

(** ** The collapser of references *)

(** C8: [collapse_refs] on R3, R4, R7 to R11, R13, R14: the five numbers in
    sequence become the range [R7-R11], the pairs stay two references. *)
Theorem collapse_refs_literal :
  collapse_refs ["R3"; "R4"; "R7"; "R8"; "R9"; "R10"; "R11"; "R13"; "R14"]
  = Ok "R3,R4,R7-R11,R13,R14".
Proof. vm_compute. reflexivity. Qed.

(** ** The splitter of sub-parts *)

Section SplitFacts.

Variable dd : list string.  (* [distributor_dict] *)


(** A part without a field of codes has no sub-part. *)
Lemma find_codes_none_founded (part : record) (n : nat) :
  find_codes dd part = Ok (n, []) -> n = 0.
Proof.
  unfold find_codes. intros H.
  apply (foldM_inv (fun st : nat * list (string * list string) =>
                      snd st = [] -> fst st = 0)) in H; simpl in *; auto.
  intros [q f] field_code [q' f'] Hinv Hbody; simpl in *.
  destruct (dict_get part field_code) as [v|].
  - apply bind_Ok in Hbody. destruct Hbody as (codes & _ & Hbody).
    inversion Hbody; subst. intros Hnil. destruct f; discriminate Hnil.
  - inversion Hbody; subst. exact Hinv.
Qed.

Lemma split_manf_Ok (part : record) (n : nat) :
  dict_get part "manf" <> Some None ->
  exists subparts_manf, split_manf part n = Ok subparts_manf.
Proof.
  intros Hmanf. unfold split_manf.
  destruct (dict_get part "manf") as [[m|]|]; simpl.
  - destruct (Nat.eqb (List.length (subpart_list m)) n); [eauto|].
    destruct (Nat.eqb (List.length (subpart_list m)) 1); eauto.
  - contradiction Hmanf; reflexivity.
  - eauto.
Qed.

(** The part of several sub-parts and without ['value']: the body of the
    [try] raises [KeyError] before it stores anything. *)
Lemma split_part_no_value (st : dict record * option string) (part_ref : string)
    (part : record) (n : nat) (founded : list (string * list string)) :
  find_codes dd part = Ok (n, founded) ->
  1 < n ->
  dict_get part "manf" <> Some None ->
  dict_get part "value" = None ->
  split_part dd st part_ref part = Raise (KeyError "value").
Proof.
  intros Hfind Hn Hmanf Hvalue. unfold split_part.
  destruct st as [splitted p_manf]. rewrite Hfind. simpl.
  destruct founded as [|fc founded].
  - apply find_codes_none_founded in Hfind. lia.
  - destruct (split_manf_Ok part n Hmanf) as (sm & Hsm). rewrite Hsm. simpl.
    apply Nat.ltb_lt in Hn. rewrite Hn. rewrite Hvalue. reflexivity.
Qed.

(** C10: a part whose fields of codes list more than one sub-part, whose
    ['manf'], where it has one, is not [None], and which has no ['value']
    field is dropped: reading ['value'] raises [KeyError], the handler of the
    loop goes on to the next part with nothing stored, and the output is the
    output for the other parts. *)
Theorem subpart_split_drops_part_without_value
    (before after : dict record) (part_ref : string) (part : record)
    (n : nat) (founded : list (string * list string)) :
  find_codes dd part = Ok (n, founded) ->
  1 < n ->
  dict_get part "manf" <> Some None ->
  dict_get part "value" = None ->
  (forall st, split_part dd st part_ref part = Raise (KeyError "value")
              /\ split_part_try dd st (part_ref, part) = Ok st)
  /\ subpart_split dd (before ++ (part_ref, part) :: after)%list
     = subpart_split dd (before ++ after)%list
  /\ subpart_split dd [(part_ref, part)] = Ok [].
Proof.
  intros Hfind Hn Hmanf Hvalue.
  assert (Hstep : forall st, split_part dd st part_ref part = Raise (KeyError "value")
                             /\ split_part_try dd st (part_ref, part) = Ok st).
  { intros st.
    pose proof (split_part_no_value st part_ref part n founded Hfind Hn Hmanf Hvalue) as H.
    split; [exact H|]. unfold split_part_try. simpl. rewrite H. reflexivity. }
  split; [exact Hstep|]. split.
  - unfold subpart_split. rewrite !foldM_app.
    destruct (foldM (split_part_try dd) before ([], None)) as [st|e]; simpl; [|reflexivity].
    rewrite (proj2 (Hstep st)). reflexivity.
  - unfold subpart_split. simpl. rewrite (proj2 (Hstep _)). reflexivity.
Qed.

End SplitFacts.

Lemma subpart_split_drops_part_without_value_witness :
  subpart_split ["mouser"]
    [ ("R1", [("value", Some "10k")]);
      ("U1", [("manf#", Some "PARTG1;PARTG2"); ("footprint", Some "SOIC8")]);
      ("R2", [("value", Some "1k"); ("manf#", Some "RC0603")]) ]
  = subpart_split ["mouser"]
    [ ("R1", [("value", Some "10k")]);
      ("R2", [("value", Some "1k"); ("manf#", Some "RC0603")]) ].
Proof.
  apply (proj1 (proj2 (subpart_split_drops_part_without_value ["mouser"]
           [("R1", [("value", Some "10k")])]
           [("R2", [("value", Some "1k"); ("manf#", Some "RC0603")])]
           "U1" [("manf#", Some "PARTG1;PARTG2"); ("footprint", Some "SOIC8")]
           2 [("manf#", ["PARTG1"; "PARTG2"])]
           eq_refl (le_n 2) ltac:(discriminate) eq_refl))).
Defined.

(** C10, as stated, fails for a part whose ['manf'] is [None]: its codes
    list two sub-parts and it has no ['value'], but [None] has no [strip],
    and [subpart_split] raises [AttributeError] before it reads ['value'].
    The handler only passes [KeyError]: the part is not dropped, the function
    returns nothing, and the parts before it are lost with it. *)
Lemma manf_none_counterexample :
  find_codes ["mouser"] [("manf#", Some "PARTG1;PARTG2"); ("manf", None)]
  = Ok (2, [("manf#", ["PARTG1"; "PARTG2"])])
  /\ dict_get [("manf#", Some "PARTG1;PARTG2"); ("manf", @None string)] "value" = None
  /\ subpart_split ["mouser"]
       [("U1", [("manf#", Some "PARTG1;PARTG2"); ("manf", None)])]
     = Raise AttributeError
  /\ subpart_split ["mouser"]
       [ ("R1", [("value", Some "10k")]);
         ("U1", [("manf#", Some "PARTG1;PARTG2"); ("manf", None)]) ]
     = Raise AttributeError
  /\ subpart_split ["mouser"] [("R1", [("value", Some "10k")])]
     = Ok [("R1", [("value", Some "10k")])].
Proof. repeat split; vm_compute; reflexivity. Qed.

(** C2: the part of the comment in [subpart_split], with a ['value']. The
    three sub-parts are there with the codes of their index, but the third
    keeps the field ['mouser#'] of the part, with the whole list. *)
Theorem subpart_split_keeps_unsplit_code :
  let part : record :=
    [ ("value", Some "10k");
      ("manf#", Some "PARTG1;PARTG2;PARTG3");
      ("mouser#", Some "PARTM1;PARTM2") ] in
  exists p1 p2 p3,
    subpart_split ["mouser"] [("U1", part)]
    = Ok [("U1#1", p1); ("U1#2", p2); ("U1#3", p3)]
    /\ get_field p1 "manf#" = Some "PARTG1" /\ get_field p1 "mouser#" = Some "PARTM1"
    /\ get_field p2 "manf#" = Some "PARTG2" /\ get_field p2 "mouser#" = Some "PARTM2"
    /\ get_field p3 "manf#" = Some "PARTG3"
    /\ dict_get p3 "mouser#" = Some (Some "PARTM1;PARTM2").
Proof.
  intros part.
  eexists _, _, _. split; [vm_compute; reflexivity|].
  repeat split.
Qed.

(** ** Dictionaries *)

Lemma dict_get_set {V} (d : dict V) (k k' : string) (v : V) :
  dict_get (dict_set d k v) k' = if String.eqb k k' then Some v else dict_get d k'.
Proof.
  induction d as [|[k0 v0] d IH]; simpl.
  - reflexivity.
  - destruct (String.eqb_spec k0 k) as [->|Hk0]; simpl.
    + destruct (String.eqb k k'); reflexivity.
    + rewrite IH. destruct (String.eqb_spec k0 k') as [->|Hk0'].
      * destruct (String.eqb_spec k k') as [->|_]; [contradiction Hk0; reflexivity | reflexivity].
      * reflexivity.
Qed.

Lemma dict_get_update {V} (l : list (string * V)) (d : dict V) (k : string) (v : V) :
  dict_get (dict_update d l) k = Some v -> dict_get d k = Some v \/ In (k, v) l.
Proof.
  unfold dict_update. revert d.
  induction l as [|[k0 v0] l IH]; intros d H; simpl in *.
  - left. exact H.
  - apply IH in H. destruct H as [H|H]; [|right; right; exact H].
    rewrite dict_get_set in H.
    destruct (String.eqb_spec k0 k) as [->|_].
    + inversion H; subst. right. left. reflexivity.
    + left. exact H.
Qed.

Lemma dict_get_update_bound {V} (l : list (string * V)) (d : dict V) (k : string) :
  dict_get d k <> None -> dict_get (dict_update d l) k <> None.
Proof.
  unfold dict_update. revert d.
  induction l as [|[k0 v0] l IH]; intros d H; simpl.
  - exact H.
  - apply IH. rewrite dict_get_set. simpl.
    destruct (String.eqb k0 k); [discriminate | exact H].
Qed.

Lemma mem_string_In (x : string) (l : list string) :
  mem_string x l = true <-> In x l.
Proof.
  unfold mem_string. rewrite existsb_exists. split.
  - intros (y & Hy & Heq). apply String.eqb_eq in Heq. subst. exact Hy.
  - intros H. exists x. split; [exact H | apply String.eqb_refl].
Qed.

(** ** The fields that cannot be merged *)

Section MergeFacts.

Variable dd : list string.               (* [distributor_dict] *)
Variable SEPRTR : string.
Variable hash : list (string * value) -> Z.
Variable set_iter : list value -> list value.

Lemma check_fields_merge_rejects (fields_merge : list string) (c : string) :
  In c (FIELDS_MANF dd) -> In c fields_merge ->
  exists c', In c' (FIELDS_MANF dd) /\ In c' fields_merge
             /\ check_fields_merge dd fields_merge
                = Raise (SystemExit (MergeFieldNotAllowed c')).
Proof.
  intros Hc Hin. unfold check_fields_merge.
  destruct (find (fun c0 => mem_string c0 fields_merge) (FIELDS_MANF dd)) as [c'|] eqn:Hfind.
  - apply find_some in Hfind. destruct Hfind as [H1 H2].
    apply mem_string_In in H2. exists c'. auto.
  - apply (find_none _ _ Hfind) in Hc. apply mem_string_In in Hin. congruence.
Qed.

(** Whatever the distributors, ['mpn'] names a code of the manufacturer or
    of a distributor. *)
Lemma translate_mpn (f : string) :
  lower f = "mpn" -> In (translate dd f) (FIELDS_MANF dd).
Proof.
  intros Hf. unfold translate. rewrite Hf.
  destruct (dict_get (field_name_translations dd) "mpn") as [t|] eqn:Hget.
  - unfold field_name_translations in Hget.
    apply dict_get_update in Hget. destruct Hget as [Hget|Hother].
    + apply dict_get_update in Hget. destruct Hget as [Hget|Hdist].
      * vm_compute in Hget. inversion Hget; subst. left. reflexivity.
      * unfold distributor_translations in Hdist.
        apply in_flat_map in Hdist. destruct Hdist as (stub & _ & Hdist).
        apply in_flat_map in Hdist. destruct Hdist as (d & Hd & Hin).
        assert (Ht : t = d ++ "#")
          by (simpl in Hin; destruct Hin as [H|[H|[H|[]]]]; inversion H; reflexivity).
        subst t. unfold FIELDS_MANF. simpl. right. right. right.
        apply in_or_app. left. apply in_map_iff. exists d. split; [reflexivity | exact Hd].
    + simpl in Hother.
      destruct Hother as [H|[H|[H|[H|[H|[]]]]]]; discriminate H.
  - exfalso. revert Hget. unfold field_name_translations.
    apply dict_get_update_bound, dict_get_update_bound. vm_compute. discriminate.
Qed.

(** C5: when the translated list of the fields to merge has a field of
    [FIELDS_MANF] (['manf#'], ['manf#_qty'], ['manf'], the code of a
    distributor or its quantity), [group_parts] exits with the message of
    the fields that cannot be ignored, whatever the components: nothing of
    the grouping is done before. It is so when the field is given as ['mpn']. *)
Theorem group_parts_rejects_manf_fields (fields_merge : list string) :
  (forall c, In c (FIELDS_MANF dd) -> In c (map (translate dd) fields_merge) ->
     exists c', In c' (FIELDS_MANF dd) /\ In c' (map (translate dd) fields_merge)
       /\ forall components,
            group_parts dd SEPRTR hash set_iter components fields_merge
            = Raise (SystemExit (MergeFieldNotAllowed c')))
  /\ (forall f, In f fields_merge -> lower f = "mpn" ->
        exists c', In c' (FIELDS_MANF dd)
          /\ forall components,
               group_parts dd SEPRTR hash set_iter components fields_merge
               = Raise (SystemExit (MergeFieldNotAllowed c'))).
Proof.
  assert (Hmain : forall c, In c (FIELDS_MANF dd) ->
            In c (map (translate dd) fields_merge) ->
            exists c', In c' (FIELDS_MANF dd) /\ In c' (map (translate dd) fields_merge)
              /\ forall components,
                   group_parts dd SEPRTR hash set_iter components fields_merge
                   = Raise (SystemExit (MergeFieldNotAllowed c'))).
  { intros c Hc Hin.
    destruct (check_fields_merge_rejects _ _ Hc Hin) as (c' & H1 & H2 & H3).
    exists c'. repeat split; auto.
    intros components. unfold group_parts. rewrite H3. reflexivity. }
  split; [exact Hmain|].
  intros f Hf Hlower.
  destruct (Hmain (translate dd f) (translate_mpn f Hlower) (in_map _ _ _ Hf))
    as (c' & H1 & _ & H3).
  exists c'. auto.
Qed.

End MergeFacts.

Lemma group_parts_rejects_manf_fields_witness :
  (exists c', forall components,
      group_parts ["digikey"; "mouser"] ":" example_hash insertion_order
                  components ["desc"; "Mouser_PN"]
      = Raise (SystemExit (MergeFieldNotAllowed c')))
  /\ (exists c', forall components,
        group_parts ["digikey"; "mouser"] ":" example_hash insertion_order
                    components ["MPN"]
        = Raise (SystemExit (MergeFieldNotAllowed c'))).
Proof.
  split.
  - destruct (proj1 (group_parts_rejects_manf_fields ["digikey"; "mouser"] ":"
                       example_hash insertion_order ["desc"; "Mouser_PN"])
                    "mouser#") as (c' & _ & _ & H).
    + vm_compute. tauto.
    + vm_compute. tauto.
    + exists c'. exact H.
  - destruct (proj2 (group_parts_rejects_manf_fields ["digikey"; "mouser"] ":"
                       example_hash insertion_order ["MPN"])
                    "MPN") as (c' & _ & H).
    + simpl. tauto.
    + vm_compute. reflexivity.
    + exists c'. exact H.
Defined.

(** ** Sets of field values *)

Lemma value_eqb_eq (a b : value) : value_eqb a b = true <-> a = b.
Proof.
  destruct a as [x|], b as [y|]; simpl; split; intros H;
    try reflexivity; try discriminate H.
  - apply String.eqb_eq in H. subst. reflexivity.
  - inversion H. apply String.eqb_refl.
Qed.

Lemma mem_value_In (x : value) (l : list value) : mem_value x l = true <-> In x l.
Proof.
  unfold mem_value. rewrite existsb_exists. split.
  - intros (y & Hy & Heq). apply value_eqb_eq in Heq. subst. exact Hy.
  - intros H. exists x. split; [exact H | apply value_eqb_eq; reflexivity].
Qed.

Lemma set_add_In (x y : value) (s : list value) :
  In y (set_add x s) <-> y = x \/ In y s.
Proof.
  unfold set_add. destruct (mem_value x s) eqn:Hmem.
  - apply mem_value_In in Hmem. split; [auto | intros [->|H]; assumption].
  - rewrite in_app_iff. simpl. intuition.
Qed.

Lemma set_add_NoDup (x : value) (s : list value) : NoDup s -> NoDup (set_add x s).
Proof.
  intros Hs. unfold set_add. destruct (mem_value x s) eqn:Hmem; [exact Hs|].
  assert (Hx : ~ In x s).
  { intros Hin. apply mem_value_In in Hin. congruence. }
  apply NoDup_app; [exact Hs | repeat constructor; simpl; tauto |].
  intros a Ha [<-|[]]. exact (Hx Ha).
Qed.

(** ** Lists of lists *)

Lemma Permutation_concat_map {A B} (f g : A -> list B) (l : list A) :
  (forall x, In x l -> Permutation (f x) (g x)) ->
  Permutation (List.concat (map f l)) (List.concat (map g l)).
Proof.
  induction l as [|x l IH]; intros H; simpl.
  - constructor.
  - apply Permutation_app.
    + apply H. left. reflexivity.
    + apply IH. intros y Hy. apply H. right. exact Hy.
Qed.

Lemma concat_map_flat_map {A B C} (f : A -> list B) (g : B -> list C) (l : list A) :
  List.concat (map g (flat_map f l)) = List.concat (map (fun x => List.concat (map g (f x))) l).
Proof.
  induction l as [|x l IH]; simpl.
  - reflexivity.
  - rewrite map_app, concat_app, IH. reflexivity.
Qed.

(** The classes of a list [l] under a key [key], one for each key of the
    duplicate-free list [ks], hold every element of [l] whose key is in [ks]
    once. *)
Section Classes.

Variables (A K : Type) (key : A -> K) (eqb : K -> K -> bool).
Hypothesis eqb_eq : forall a b, eqb a b = true <-> a = b.

Lemma filter_head (f : A -> bool) (x : A) (l : list A) :
  filter f (x :: l) = if f x then x :: filter f l else filter f l.
Proof. reflexivity. Qed.

Lemma classes_skip (x : A) (l : list A) (ks : list K) :
  ~ In (key x) ks ->
  List.concat (map (fun k => filter (fun y => eqb (key y) k) (x :: l)) ks)
  = List.concat (map (fun k => filter (fun y => eqb (key y) k) l) ks).
Proof.
  induction ks as [|k ks IH]; intros Hk.
  - reflexivity.
  - cbn [map List.concat]. rewrite filter_head.
    destruct (eqb (key x) k) eqn:Heq.
    + apply eqb_eq in Heq. contradiction Hk. left. symmetry. exact Heq.
    + f_equal. apply IH. intros Hin. apply Hk. right. exact Hin.
Qed.

Lemma classes_cons (x : A) (l : list A) (ks : list K) :
  NoDup ks -> In (key x) ks ->
  Permutation
    (List.concat (map (fun k => filter (fun y => eqb (key y) k) (x :: l)) ks))
    (x :: List.concat (map (fun k => filter (fun y => eqb (key y) k) l) ks)).
Proof.
  induction ks as [|k ks IH]; intros Hnd Hin.
  - destruct Hin.
  - inversion Hnd as [|k' ks' Hk Hnd']; subst.
    cbn [map List.concat]. rewrite filter_head.
    destruct (eqb (key x) k) eqn:Heq.
    + apply eqb_eq in Heq. subst k.
      rewrite classes_skip by exact Hk. reflexivity.
    + assert (Hin' : In (key x) ks).
      { destruct Hin as [Heq'|Hin']; [|exact Hin'].
        subst k. assert (eqb (key x) (key x) = true) by (apply eqb_eq; reflexivity).
        congruence. }
      etransitivity.
      * apply Permutation_app_head. apply IH; assumption.
      * symmetry. apply Permutation_middle.
Qed.

Lemma classes_partition (l : list A) (ks : list K) :
  NoDup ks -> (forall x, In x l -> In (key x) ks) ->
  Permutation (List.concat (map (fun k => filter (fun y => eqb (key y) k) l) ks)) l.
Proof.
  intros Hnd. induction l as [|x l IH]; intros Hl.
  - clear Hl Hnd. induction ks as [|k ks IHk]; simpl; [constructor | exact IHk].
  - etransitivity.
    + apply classes_cons; [exact Hnd | apply Hl; left; reflexivity].
    + constructor. apply IH. intros y Hy. apply Hl. right. exact Hy.
Qed.

End Classes.

(** ** The grouping engine *)

Lemma dict_get_In {V} (d : dict V) (k : string) (v : V) :
  NoDup (keys d) -> In (k, v) d -> dict_get d k = Some v.
Proof.
  induction d as [|[k0 v0] d IH]; intros Hnd Hin; simpl in *.
  - destruct Hin.
  - inversion Hnd as [|k' ks Hk Hnd']; subst.
    destruct Hin as [Heq|Hin].
    + inversion Heq; subst. rewrite String.eqb_refl. reflexivity.
    + destruct (String.eqb_spec k0 k) as [->|_].
      * contradiction Hk. apply in_map_iff. exists (k, v). split; [reflexivity | exact Hin].
      * apply IH; assumption.
Qed.

Section GroupFacts.

Variable dd : list string.               (* [distributor_dict] *)
Variable SEPRTR : string.
Variable hash : list (string * value) -> Z.
Variable set_iter : list value -> list value.

(** The loop over a [set] goes through every element once. *)
Hypothesis set_iter_perm : forall s, Permutation (set_iter s) s.

Variable components : dict record.

Lemma add_component_members (h : Z) (ref : string)
    (groups : list (Z * IdenticalComponents)) :
  Forall (manf_nums_of_members components) (map snd groups) ->
  Forall (manf_nums_of_members components)
         (map snd (add_component h ref (manf_of components ref) groups)).
Proof.
  induction groups as [|[h' grp] groups IH]; intros Hall; simpl.
  - constructor; [|constructor]. split; simpl.
    + repeat constructor. simpl. tauto.
    + intros m. split.
      * intros [<-|[]]. exists ref. split; [left; reflexivity | reflexivity].
      * intros (r & [<-|[]] & Hr). left. exact Hr.
  - inversion Hall as [|g gs [Hnd Hmem] Hrest]; subst.
    destruct (h' =? h)%Z; simpl.
    + constructor; [|exact Hrest]. split; simpl.
      * apply set_add_NoDup. exact Hnd.
      * intros m. rewrite set_add_In, Hmem. split.
        -- intros [->|(r & Hr & Hm)].
           ++ exists ref. split; [apply in_or_app; right; left; reflexivity | reflexivity].
           ++ exists r. split; [apply in_or_app; left; exact Hr | exact Hm].
        -- intros (r & Hr & Hm). apply in_app_or in Hr. destruct Hr as [Hr|[<-|[]]].
           ++ right. exists r. split; assumption.
           ++ left. symmetry. exact Hm.
    + constructor; [split; assumption | apply IH; exact Hrest].
Qed.

Lemma add_component_refs (h : Z) (ref : string) (m : value)
    (groups : list (Z * IdenticalComponents)) :
  Permutation (List.concat (map refs (map snd (add_component h ref m groups))))
              (List.concat (map refs (map snd groups)) ++ [ref]).
Proof.
  induction groups as [|[h' grp] groups IH]; simpl.
  - reflexivity.
  - destruct (h' =? h)%Z; simpl.
    + rewrite <- !app_assoc. apply Permutation_app_head. apply Permutation_app_comm.
    + rewrite <- app_assoc. apply Permutation_app_head. exact IH.
Qed.

Lemma group_fold_spec (fields_merge : list string) (items : dict record) :
  forall groups : list (Z * IdenticalComponents),
  (forall item, In item items ->
     get_field (snd item) "manf#" = manf_of components (fst item)) ->
  Forall (manf_nums_of_members components) (map snd groups) ->
  let groups' :=
    fold_left (fun component_groups (item : string * record) =>
                 add_component (hash_of dd SEPRTR hash fields_merge (snd item)) (fst item)
                               (get_field (snd item) "manf#") component_groups)
              items groups in
  Forall (manf_nums_of_members components) (map snd groups')
  /\ Permutation (List.concat (map refs (map snd groups')))
                 (List.concat (map refs (map snd groups)) ++ keys items).
Proof.
  induction items as [|[ref fields] items IH]; intros groups Hmanf Hall; simpl.
  - split; [exact Hall | rewrite app_nil_r; reflexivity].
  - assert (Hm : get_field fields "manf#" = manf_of components ref)
      by (apply (Hmanf (ref, fields)); left; reflexivity).
    destruct (IH (add_component (hash_of dd SEPRTR hash fields_merge fields) ref
                                (get_field fields "manf#") groups)) as [H1 H2].
    + intros item Hitem. apply Hmanf. right. exact Hitem.
    + rewrite Hm. apply add_component_members. exact Hall.
    + split; [exact H1|].
      etransitivity; [exact H2|].
      etransitivity; [apply Permutation_app_tail, add_component_refs|].
      rewrite <- app_assoc. reflexivity.
Qed.

(** The groups by hash: every reference is in one group, and the set of a
    group has the ['manf#'] of its members. *)
Lemma group_by_hash_spec (fields_merge : list string) :
  NoDup (keys components) ->
  Forall (manf_nums_of_members components)
         (group_by_hash dd SEPRTR hash fields_merge components)
  /\ Permutation
       (List.concat (map refs (group_by_hash dd SEPRTR hash fields_merge components)))
       (keys components).
Proof.
  intros Hnd. unfold group_by_hash.
  apply (group_fold_spec fields_merge components []).
  - intros [ref fields] Hin. unfold manf_of, component. simpl.
    rewrite (dict_get_In components ref fields Hnd Hin). reflexivity.
  - constructor.
Qed.

Lemma refine_group_kept (grp : IdenticalComponents) :
  kept_whole grp -> refine_group set_iter components grp = [grp].
Proof.
  unfold kept_whole, refine_group. intros [H1|[H2 Hnone]].
  - rewrite H1. reflexivity.
  - rewrite H2. simpl. apply mem_value_In in Hnone. rewrite Hnone. reflexivity.
Qed.

Lemma refine_group_split (grp : IdenticalComponents) :
  ~ kept_whole grp ->
  refine_group set_iter components grp
  = map (fun manf_num =>
           {| refs := filter (fun ref => value_eqb (manf_of components ref) manf_num)
                             (refs grp);
              manf_nums := [manf_num];
              fields := None |})
        (set_iter (manf_nums grp)).
Proof.
  unfold kept_whole, refine_group. intros Hnot.
  destruct (Nat.eqb_spec (List.length (manf_nums grp)) 1) as [H1|H1].
  - contradiction Hnot. left. exact H1.
  - destruct (Nat.eqb_spec (List.length (manf_nums grp)) 2) as [H2|H2]; simpl.
    + destruct (mem_value None (manf_nums grp)) eqn:Hmem; [|reflexivity].
      contradiction Hnot. right. split; [exact H2 | apply mem_value_In; exact Hmem].
    + reflexivity.
Qed.

Lemma kept_whole_dec (grp : IdenticalComponents) : kept_whole grp \/ ~ kept_whole grp.
Proof.
  unfold kept_whole.
  destruct (Nat.eq_dec (List.length (manf_nums grp)) 1) as [H1|H1]; [left; left; exact H1|].
  destruct (Nat.eq_dec (List.length (manf_nums grp)) 2) as [H2|H2].
  - destruct (mem_value None (manf_nums grp)) eqn:Hmem.
    + left. right. split; [exact H2 | apply mem_value_In; exact Hmem].
    + right. intros [H|[_ H]]; [contradiction|].
      apply mem_value_In in H. congruence.
  - right. intros [H|[H _]]; contradiction.
Qed.

(** The split of a group keeps each of its references once. *)
Lemma refine_group_refs (grp : IdenticalComponents) :
  manf_nums_of_members components grp ->
  Permutation (List.concat (map refs (refine_group set_iter components grp))) (refs grp).
Proof.
  intros [Hnd Hmem]. destruct (kept_whole_dec grp) as [Hk|Hk].
  - rewrite refine_group_kept by exact Hk. simpl. rewrite app_nil_r. reflexivity.
  - rewrite refine_group_split by exact Hk. rewrite map_map. simpl.
    apply (classes_partition string value (manf_of components) value_eqb value_eqb_eq).
    + apply (Permutation_NoDup (Permutation_sym (set_iter_perm (manf_nums grp)))). exact Hnd.
    + intros ref Href.
      apply (Permutation_in _ (Permutation_sym (set_iter_perm (manf_nums grp)))).
      apply Hmem. exists ref. split; [exact Href | reflexivity].
Qed.

Lemma refine_groups_refs (fields_merge : list string) :
  NoDup (keys components) ->
  Permutation
    (List.concat (map refs (refine_groups dd SEPRTR hash set_iter fields_merge components)))
    (keys components).
Proof.
  intros Hnd. destruct (group_by_hash_spec fields_merge Hnd) as [Hall Hperm].
  unfold refine_groups. rewrite concat_map_flat_map.
  etransitivity; [|exact Hperm].
  apply Permutation_concat_map. intros grp Hgrp.
  apply refine_group_refs. rewrite Forall_forall in Hall. apply Hall. exact Hgrp.
Qed.

End GroupFacts.

Lemma propagate_refs (components : dict record) (grp grp' : IdenticalComponents) :
  propagate components grp = Ok grp' -> refs grp' = refs grp.
Proof.
  unfold propagate. intros H. apply bind_Ok in H.
  destruct H as (grp_fields & _ & H). inversion H; subst. reflexivity.
Qed.

Lemma mapM_propagate_refs (components : dict record)
    (groups groups' : list IdenticalComponents) :
  mapM (propagate components) groups = Ok groups' -> map refs groups' = map refs groups.
Proof.
  revert groups'. induction groups as [|grp groups IH]; intros groups' H; simpl in H.
  - inversion H; reflexivity.
  - apply bind_Ok in H. destruct H as (grp' & Hgrp & H).
    apply bind_Ok in H. destruct H as (rest & Hrest & H).
    inversion H; subst; simpl.
    rewrite (propagate_refs _ _ _ Hgrp), (IH _ Hrest). reflexivity.
Qed.

Lemma propagate_manf_nums (components : dict record) (grp grp' : IdenticalComponents) :
  propagate components grp = Ok grp' -> manf_nums grp' = manf_nums grp.
Proof.
  unfold propagate. intros H. apply bind_Ok in H.
  destruct H as (grp_fields & _ & H). inversion H; subst. reflexivity.
Qed.

Lemma mapM_propagate_groups (components : dict record)
    (groups groups' : list IdenticalComponents) :
  mapM (propagate components) groups = Ok groups' ->
  Forall2 (fun g new => refs g = refs new /\ manf_nums g = manf_nums new) groups' groups.
Proof.
  revert groups'. induction groups as [|grp groups IH]; intros groups' H; simpl in H.
  - inversion H. constructor.
  - apply bind_Ok in H. destruct H as (grp' & Hgrp & H).
    apply bind_Ok in H. destruct H as (rest & Hrest & H).
    inversion H; subst. constructor; [|apply IH; exact Hrest].
    split; [apply (propagate_refs _ _ _ Hgrp) | apply (propagate_manf_nums _ _ _ Hgrp)].
Qed.

Lemma Forall2_map_r {A B} (P : A -> B -> Prop) (f : A -> B) (l : list A) :
  (forall x, In x l -> P x (f x)) -> Forall2 P l (map f l).
Proof.
  induction l as [|x l IH]; intros H; simpl; constructor.
  - apply H. left. reflexivity.
  - apply IH. intros y Hy. apply H. right. exact Hy.
Qed.

Section GroupTheorems.

Variable dd : list string.               (* [distributor_dict] *)
Variable SEPRTR : string.
Variable hash : list (string * value) -> Z.
Variable set_iter : list value -> list value.
Hypothesis set_iter_perm : forall s, Permutation (set_iter s) s.

(** C3: in [group_parts], the groups after the split by ['manf#'] are, in
    order, what the loop makes of each group by hash. A group by hash holds
    the distinct ['manf#'] of its members; with one of them, or with two of
    which one is [None], it stays one group; every other group gives one
    group for each distinct ['manf#'] ([None] too), whose references are the
    members of the group with this ['manf#']. The groups that [group_parts]
    returns are these groups, with their references and their ['manf#'],
    one for one and in the same order. *)
Theorem group_parts_split_by_manf_nums (components : dict record)
    (fields_merge : list string) :
  NoDup (keys components) ->
  let component_groups :=
    group_by_hash dd SEPRTR hash (map (translate dd) fields_merge) components in
  let new_component_groups :=
    refine_groups dd SEPRTR hash set_iter (map (translate dd) fields_merge) components in
  (exists parts,
     new_component_groups = List.concat parts
     /\ Forall2
          (fun grp part =>
             manf_nums_of_members components grp
             /\ (kept_whole grp -> part = [grp])
             /\ (~ kept_whole grp ->
                 Permutation (map manf_nums part) (map (fun m => [m]) (manf_nums grp))
                 /\ forall sub, In sub part ->
                      exists m, In m (manf_nums grp) /\ manf_nums sub = [m]
                        /\ forall ref, In ref (refs sub)
                                       <-> In ref (refs grp)
                                           /\ manf_of components ref = m))
          component_groups parts)
  /\ forall groups,
       group_parts dd SEPRTR hash set_iter components fields_merge = Ok groups ->
       Forall2 (fun g new => refs g = refs new /\ manf_nums g = manf_nums new)
               groups new_component_groups.
Proof.
  intros Hnd component_groups new_component_groups. split.
  - exists (map (refine_group set_iter components) component_groups). split.
    + unfold new_component_groups, refine_groups. apply flat_map_concat_map.
    + apply Forall2_map_r. intros grp Hgrp.
      destruct (group_by_hash_spec dd SEPRTR hash components
                  (map (translate dd) fields_merge) Hnd) as [Hall _].
      rewrite Forall_forall in Hall. specialize (Hall grp Hgrp).
      split; [exact Hall|]. split; [apply refine_group_kept|].
      intros Hk. rewrite refine_group_split by exact Hk. split.
      * rewrite map_map. simpl. apply Permutation_map. apply set_iter_perm.
      * intros sub Hsub. apply in_map_iff in Hsub. destruct Hsub as (m & <- & Hm).
        exists m. split; [apply (Permutation_in _ (set_iter_perm _)); exact Hm|].
        split; [reflexivity|]. intros ref. simpl. rewrite filter_In, value_eqb_eq. tauto.
  - intros groups H. unfold group_parts in H.
    apply bind_Ok in H. destruct H as (_ & _ & H). unfold group_accepted in H.
    apply bind_Ok in H. destruct H as (components' & _ & H).
    apply (mapM_propagate_groups components' _ _ H).
Qed.

(** C1: the groups that [group_parts] has after the split by ['manf#'] hold
    every designator of the components once, and the loops that follow do
    not change the references. So when [group_parts] returns, the references
    of the groups are the designators of the components, each of them in one
    group and at one place. *)
Theorem group_parts_partition (components : dict record) (fields_merge : list string) :
  NoDup (keys components) ->
  let new_component_groups :=
    refine_groups dd SEPRTR hash set_iter (map (translate dd) fields_merge) components in
  Permutation (List.concat (map refs new_component_groups)) (keys components)
  /\ forall groups,
       group_parts dd SEPRTR hash set_iter components fields_merge = Ok groups ->
       map refs groups = map refs new_component_groups
       /\ Permutation (List.concat (map refs groups)) (keys components)
       /\ NoDup (List.concat (map refs groups))
       /\ forall ref, In ref (keys components) ->
            count_occ string_dec (List.concat (map refs groups)) ref = 1.
Proof.
  intros Hnd new_component_groups.
  assert (Hnew : Permutation (List.concat (map refs new_component_groups))
                             (keys components))
    by (apply refine_groups_refs; assumption).
  split; [exact Hnew|].
  intros groups H. unfold group_parts in H.
  apply bind_Ok in H. destruct H as (_ & _ & H).
  unfold group_accepted in H.
  apply bind_Ok in H. destruct H as (components' & _ & H).
  apply mapM_propagate_refs in H. fold new_component_groups in H.
  assert (Hperm : Permutation (List.concat (map refs groups)) (keys components))
    by (rewrite H; exact Hnew).
  assert (Hnd' : NoDup (List.concat (map refs groups))).
  { apply (Permutation_NoDup (Permutation_sym Hperm)). exact Hnd. }
  split; [exact H|]. split; [exact Hperm|]. split; [exact Hnd'|].
  intros ref Href.
  apply NoDup_count_occ'; [exact Hnd'|].
  apply (Permutation_in _ (Permutation_sym Hperm)). exact Href.
Qed.

End GroupTheorems.

Lemma group_parts_split_by_manf_nums_witness :
  let components : dict record :=
    [ ("R1", [("value", Some "10k"); ("manf#", Some "A")]);
      ("C1", [("value", Some "100n")]);
      ("R2", [("value", Some "10k"); ("manf#", Some "B")]);
      ("R3", [("value", Some "10k")]);
      ("C2", [("value", Some "100n"); ("manf#", Some "GRM188")]);
      ("R4", [("value", Some "10k"); ("manf#", Some "A")]) ] in
  let new_component_groups :=
    refine_groups ["digikey"; "mouser"] ":" example_hash insertion_order [] components in
  exists groups,
    group_parts ["digikey"; "mouser"] ":" example_hash insertion_order components []
    = Ok groups
    /\ map refs new_component_groups = [["R1"; "R4"]; ["R2"]; ["R3"]; ["C1"; "C2"]]
    /\ map manf_nums new_component_groups
       = [[Some "A"]; [Some "B"]; [None]; [None; Some "GRM188"]]
    /\ Forall2 (fun g new => refs g = refs new /\ manf_nums g = manf_nums new)
               groups new_component_groups.
Proof.
  intros components new_component_groups. eexists.
  split; [vm_compute; reflexivity|].
  split; [vm_compute; reflexivity|].
  split; [vm_compute; reflexivity|].
  refine (proj2 (group_parts_split_by_manf_nums ["digikey"; "mouser"] ":" example_hash
                   insertion_order (fun s => Permutation_refl s) components [] _) _ _).
  - repeat constructor; simpl; intuition discriminate.
  - vm_compute. reflexivity.
Defined.

Lemma group_parts_partition_witness :
  let components : dict record :=
    [ ("R1", [("value", Some "10k"); ("manf#", Some "A")]);
      ("C1", [("value", Some "100n")]);
      ("R2", [("value", Some "10k"); ("manf#", Some "B")]);
      ("R3", [("value", Some "10k")]);
      ("C2", [("value", Some "100n"); ("manf#", Some "GRM188")]);
      ("R4", [("value", Some "10k"); ("manf#", Some "A")]) ] in
  exists groups,
    group_parts ["digikey"; "mouser"] ":" example_hash insertion_order components []
    = Ok groups
    /\ map refs groups = [["R1"; "R4"]; ["R2"]; ["R3"]; ["C1"; "C2"]]
    /\ Permutation (List.concat (map refs groups)) (keys components).
Proof.
  intros components. eexists. split; [vm_compute; reflexivity|].
  split; [reflexivity|].
  refine (proj1 (proj2 (proj2 (group_parts_partition ["digikey"; "mouser"] ":"
                   example_hash insertion_order (fun s => Permutation_refl s)
                   components [] _) _ eq_refl))).
  repeat constructor; simpl; intuition discriminate.
Defined.

(** ** The propagation of the fields *)


Lemma get_field_set (d : record) (k k' : string) (v : value) :
  get_field (dict_set d k v) k' = if String.eqb k k' then v else get_field d k'.
Proof.
  unfold get_field. rewrite dict_get_set. destruct (String.eqb k k'); reflexivity.
Qed.

(** The values that are not empty are kept by the fields of the group:
    a later value of the same key that differs stops the loop. *)
Lemma propagate_field_kept (ref : string) (seen : list (string * value))
    (grp_fields grp_fields' : record) (kv : string * value) :
  (forall key val, In (key, Some val) seen -> val <> "" ->
     get_field grp_fields key = Some val) ->
  propagate_field ref grp_fields kv = Ok grp_fields' ->
  forall key val, In (key, Some val) (kv :: seen) -> val <> "" ->
    get_field grp_fields' key = Some val.
Proof.
  intros Hseen Hstep key val Hin Hval.
  destruct kv as [k [v|]]; simpl in Hstep.
  - destruct (get_field grp_fields k) as [[|c old]|] eqn:Hget.
    + inversion Hstep; subst. rewrite get_field_set.
      destruct (String.eqb_spec k key) as [->|Hk].
      * destruct Hin as [Heq|Hin]; [inversion Heq; reflexivity|].
        pose proof (Hseen key val Hin Hval) as H. rewrite Hget in H.
        inversion H; subst. contradiction Hval; reflexivity.
      * destruct Hin as [Heq|Hin]; [inversion Heq; subst; contradiction Hk; reflexivity|].
        apply Hseen; assumption.
    + destruct (String.eqb_spec (String c old) v) as [Heq|Hneq]; simpl in Hstep;
        [|discriminate Hstep].
      inversion Hstep; subst.
      destruct Hin as [Heq|Hin]; [inversion Heq; subst; exact Hget|].
      apply Hseen; assumption.
    + inversion Hstep; subst. rewrite get_field_set.
      destruct (String.eqb_spec k key) as [->|Hk].
      * destruct Hin as [Heq|Hin]; [inversion Heq; reflexivity|].
        pose proof (Hseen key val Hin Hval) as H. rewrite Hget in H. discriminate H.
      * destruct Hin as [Heq|Hin]; [inversion Heq; subst; contradiction Hk; reflexivity|].
        apply Hseen; assumption.
  - inversion Hstep; subst.
    destruct Hin as [Heq|Hin]; [discriminate Heq|]. apply Hseen; assumption.
Qed.

Lemma propagate_fields_kept (ref : string) (items : record) :
  forall (seen : list (string * value)) (grp_fields grp_fields' : record),
  (forall key val, In (key, Some val) seen -> val <> "" ->
     get_field grp_fields key = Some val) ->
  foldM (propagate_field ref) items grp_fields = Ok grp_fields' ->
  forall key val, In (key, Some val) (items ++ seen)%list -> val <> "" ->
    get_field grp_fields' key = Some val.
Proof.
  induction items as [|kv items IH]; intros seen grp_fields grp_fields' Hseen H; simpl in H.
  - inversion H; subst. exact Hseen.
  - apply bind_Ok in H. destruct H as (f1 & H1 & H2).
    intros key val Hin Hval.
    apply (IH (kv :: seen) f1 grp_fields'
              (propagate_field_kept ref seen grp_fields f1 kv Hseen H1) H2 key val);
      [|exact Hval].
    simpl in Hin. destruct Hin as [Heq|Hin].
    + apply in_or_app. right. left. exact Heq.
    + apply in_app_or in Hin. apply in_or_app.
      destruct Hin as [Hin|Hin]; [left; exact Hin | right; right; exact Hin].
Qed.

(** When the loop over a group ends, the fields of the group have every
    value of a member that is a string and not empty: two members have the
    same value for a key, or one of the values is [None] or empty. *)
Lemma propagate_agree (components : dict record) (grp grp' : IdenticalComponents) :
  propagate components grp = Ok grp' ->
  exists grp_fields,
    fields grp' = Some grp_fields
    /\ forall ref key val,
         In ref (refs grp) -> In (key, Some val) (component components ref) ->
         val <> "" -> get_field grp_fields key = Some val.
Proof.
  unfold propagate. intros H. apply bind_Ok in H. destruct H as (grp_fields & Hloop & H).
  inversion H; subst; simpl. exists grp_fields. split; [reflexivity|].
  assert (Hgen : forall refs0 (seen : list (string * value)) (f0 f1 : record),
            (forall key val, In (key, Some val) seen -> val <> "" ->
               get_field f0 key = Some val) ->
            foldM (fun grp_fields ref =>
                     foldM (propagate_field ref) (component components ref) grp_fields)
                  refs0 f0 = Ok f1 ->
            (forall key val, In (key, Some val) seen -> val <> "" ->
               get_field f1 key = Some val)
            /\ forall ref key val,
                 In ref refs0 -> In (key, Some val) (component components ref) ->
                 val <> "" -> get_field f1 key = Some val).
  { induction refs0 as [|r refs0 IH]; intros seen f0 f1 Hseen Hfold; simpl in Hfold.
    - inversion Hfold; subst. split; [exact Hseen | intros ref key val []].
    - apply bind_Ok in Hfold. destruct Hfold as (f' & Hr & Hrest).
      pose proof (propagate_fields_kept r _ seen f0 f' Hseen Hr) as Hseen'.
      destruct (IH _ f' f1 Hseen' Hrest) as [Hold Hnew]. split.
      + intros key val Hin Hval. apply Hold; [|exact Hval].
        apply in_or_app. right. exact Hin.
      + intros ref key val [<-|Href] Hin Hval.
        * apply Hold; [|exact Hval]. apply in_or_app. left. exact Hin.
        * apply (Hnew ref); assumption. }
  destruct (Hgen (refs grp) [] [] grp_fields) as [_ Hall]; [intros key val [] | exact Hloop|].
  exact Hall.
Qed.

Lemma dict_set_In_other {V} (d : dict V) (k k' : string) (v v' : V) :
  k <> k' -> In (k', v') d -> In (k', v') (dict_set d k v).
Proof.
  intros Hk. induction d as [|[k0 v0] d IH]; simpl; intros Hin.
  - destruct Hin.
  - destruct (String.eqb_spec k0 k) as [->|Hk0]; simpl.
    + destruct Hin as [Heq|Hin]; [inversion Heq; subst; contradiction Hk; reflexivity|].
      right. exact Hin.
    + destruct Hin as [Heq|Hin]; [left; exact Heq | right; apply IH; exact Hin].
Qed.

(** Setting the field [f] of a component keeps the other fields of every
    component. *)
Lemma set_component_field_other (components : dict record) (r f : string) (v0 : value)
    (ref key : string) (v : value) :
  f <> key ->
  In (key, v) (component components ref) ->
  In (key, v) (component (set_component_field components r f v0) ref).
Proof.
  intros Hf Hin. unfold set_component_field, component at 1.
  rewrite dict_get_set. destruct (String.eqb_spec r ref) as [->|Hr].
  - apply dict_set_In_other; assumption.
  - exact Hin.
Qed.

Lemma mapM_In {A B} (f : A -> result B) (l : list A) (l' : list B) :
  mapM f l = Ok l' -> forall y, In y l' -> exists x, In x l /\ f x = Ok y.
Proof.
  revert l'. induction l as [|x l IH]; intros l' H y Hy; simpl in H.
  - inversion H; subst. destruct Hy.
  - apply bind_Ok in H. destruct H as (y0 & Hy0 & H).
    apply bind_Ok in H. destruct H as (ys & Hys & H).
    inversion H; subst. destruct Hy as [<-|Hy].
    + exists x. split; [left; reflexivity | exact Hy0].
    + destruct (IH ys Hys y Hy) as (x' & Hx' & Hfx').
      exists x'. split; [right; exact Hx' | exact Hfx'].
Qed.

Section PropagationChecks.

Variable dd : list string.               (* [distributor_dict] *)
Variable SEPRTR : string.
Variable hash : list (string * value) -> Z.
Variable set_iter : list value -> list value.

Lemma merge_field_other (grp_refs : list string) (components components' : dict record)
    (f : string) :
  merge_field SEPRTR grp_refs components f = Ok components' ->
  forall ref key v, f <> key ->
    In (key, v) (component components ref) -> In (key, v) (component components' ref).
Proof.
  unfold merge_field. intros H ref key v Hf.
  match type of H with (if ?c then _ else _) = _ => destruct c end.
  - apply bind_Ok in H. destruct H as (lines & _ & H). inversion H; subst. clear H.
    generalize components. induction grp_refs as [|r grp_refs IH]; intros comps Hin; simpl.
    + exact Hin.
    + apply IH. apply set_component_field_other; assumption.
  - inversion H; subst. auto.
Qed.

Lemma merge_field_list_other (grp_refs fs : list string) :
  forall components components' : dict record,
  foldM (merge_field SEPRTR grp_refs) fs components = Ok components' ->
  forall ref key v, ~ In key fs ->
    In (key, v) (component components ref) -> In (key, v) (component components' ref).
Proof.
  induction fs as [|f fs IH]; intros comps comps' H ref key v Hkey Hin; simpl in H.
  - inversion H; subst. exact Hin.
  - apply bind_Ok in H. destruct H as (comps1 & Hf & Hfs).
    apply (IH comps1 comps' Hfs); [intros Hk; apply Hkey; right; exact Hk|].
    apply (merge_field_other _ _ _ _ Hf); [|exact Hin].
    intros Heq. apply Hkey. left. exact Heq.
Qed.

Lemma merge_fields_other (fields_merge : list string)
    (groups : list IdenticalComponents) (components components' : dict record) :
  merge_fields dd SEPRTR fields_merge groups components = Ok components' ->
  forall ref key v, ~ In key (map (translate dd) fields_merge) ->
    In (key, v) (component components ref) -> In (key, v) (component components' ref).
Proof.
  unfold merge_fields. intros H ref key v Hkey.
  destruct fields_merge as [|f0 fields_merge]; [inversion H; subst; auto|].
  revert H Hkey. generalize (map (translate dd) (f0 :: fields_merge)) as fs.
  intros fs H Hkey. revert components H.
  induction groups as [|grp groups IH]; intros comps H Hin; simpl in H.
  - inversion H; subst. exact Hin.
  - apply bind_Ok in H. destruct H as (comps1 & Hgrp & Hrest).
    apply (IH comps1 Hrest).
    apply (merge_field_list_other _ _ _ _ Hgrp); assumption.
Qed.

(** X22: When [group_parts] returns, the fields of a group have every value of
    its members that is a string and not empty, for the keys that are not
    merged: the members agree on these values. *)
Lemma group_parts_agree (components : dict record) (fields_merge : list string)
    (groups : list IdenticalComponents) :
  group_parts dd SEPRTR hash set_iter components fields_merge = Ok groups ->
  forall grp, In grp groups ->
    exists grp_fields,
      fields grp = Some grp_fields
      /\ forall ref key val,
           In ref (refs grp) ->
           ~ In key (map (translate dd) (map (translate dd) fields_merge)) ->
           In (key, Some val) (component components ref) ->
           val <> "" -> get_field grp_fields key = Some val.
Proof.
  intros H grp Hgrp. unfold group_parts in H.
  apply bind_Ok in H. destruct H as (_ & _ & H). unfold group_accepted in H.
  apply bind_Ok in H. destruct H as (components' & Hmerge & H).
  destruct (mapM_In _ _ _ H grp Hgrp) as (grp0 & _ & Hprop).
  destruct (propagate_agree components' grp0 grp Hprop) as (grp_fields & Hf & Hall).
  exists grp_fields. split; [exact Hf|].
  intros ref key val Href Hkey Hin Hval.
  apply (Hall ref key val); [| |exact Hval].
  - rewrite (propagate_refs _ _ _ Hprop) in Href. exact Href.
  - apply (merge_fields_other _ _ _ _ Hmerge); assumption.
Qed.

End PropagationChecks.


Section PropagationFacts.

Variable hash : list (string * value) -> Z.
Variable set_iter : list value -> list value.

(** C4: the propagation does not stop at every pair of different values.
    Two parts of one group have the names [''] and ['Foo'] of the
    manufacturer, whatever the hash: with [''] first the group gets ['Foo']
    and [group_parts] returns; with ['Foo'] first it exits with the mismatch
    of the reference, the field and the two values. *)
Theorem group_parts_mismatch_after_empty :
  let r1 : record := [("value", Some "10k"); ("manf#", Some "X"); ("manf", Some "")] in
  let r2 : record := [("value", Some "10k"); ("manf#", Some "X"); ("manf", Some "Foo")] in
  group_parts ["digikey"; "mouser"] ":" hash set_iter [("R1", r1); ("R2", r2)] []
  = Ok [ {| refs := ["R1"; "R2"];
            manf_nums := [Some "X"];
            fields := Some [("value", Some "10k"); ("manf#", Some "X");
                            ("manf", Some "Foo")] |} ]
  /\ group_parts ["digikey"; "mouser"] ":" hash set_iter [("R2", r2); ("R1", r1)] []
     = Raise (SystemExit (FieldValueMismatch "R1" "manf" "" "Foo")).
Proof.
  intros r1 r2. subst r1 r2.
  unfold group_parts, group_accepted, refine_groups, group_by_hash.
  split; cbn -[Z.eqb]; rewrite Z.eqb_refl; reflexivity.
Qed.

End PropagationFacts.

(** The same through [organize_parts]: [subpart_split] gives the name ['']
    to the sub-parts of a part without ['manf']. *)
Example organize_parts_mismatch_after_empty :
  let u1 : record := [("value", Some "4x10k"); ("manf#", Some "A;B")] in
  let u2 : record := [("value", Some "4x10k"); ("manf#", Some "A;B"); ("manf", Some "Foo")] in
  (exists groups,
     organize_parts ["digikey"; "mouser"] ":" example_hash insertion_order
                    [("U1", u1); ("U2", u2)] []
     = Ok groups
     /\ map refs groups = [["U1#1"; "U2#1"]; ["U1#2"; "U2#2"]]
     /\ map (fun g => group_field g "manf") groups = [Ok (Some "Foo"); Ok (Some "Foo")])
  /\ organize_parts ["digikey"; "mouser"] ":" example_hash insertion_order
                    [("U2", u2); ("U1", u1)] []
     = Raise (SystemExit (FieldValueMismatch "U1#1" "manf" "" "Foo")).
Proof.
  split.
  - eexists. split; [vm_compute; reflexivity|]. split; reflexivity.
  - vm_compute. reflexivity.
Qed.

(** ** The sorter of groups *)

Lemma insert_by_perm {A} (lt : A -> A -> bool) (x : A) (l : list A) :
  Permutation (insert_by lt x l) (x :: l).
Proof.
  induction l as [|y l IH]; simpl.
  - reflexivity.
  - destruct (lt x y); [reflexivity|].
    etransitivity; [apply perm_skip, IH | apply perm_swap].
Qed.

Lemma sorted_by_perm {A} (lt : A -> A -> bool) (l : list A) :
  Permutation (sorted_by lt l) l.
Proof.
  unfold sorted_by.
  assert (H : forall acc,
             Permutation (fold_left (fun acc x => insert_by lt x acc) l acc) (acc ++ l)).
  { induction l as [|x l IH]; intros acc; simpl.
    - rewrite app_nil_r. reflexivity.
    - etransitivity; [apply IH|].
      etransitivity; [apply Permutation_app_tail, insert_by_perm|].
      simpl. apply Permutation_middle. }
  apply (H []).
Qed.

Lemma list_remove_perm (x : nat) (l : list nat) :
  In x l -> exists l', list_remove x l = Some l' /\ Permutation (x :: l') l.
Proof.
  induction l as [|y l IH]; intros Hin; simpl.
  - destruct Hin.
  - destruct (Nat.eqb_spec y x) as [->|Hneq].
    + exists l. split; reflexivity.
    + destruct Hin as [Heq|Hin]; [contradiction|].
      destruct (IH Hin) as (l' & Hl' & Hperm). rewrite Hl'.
      exists (y :: l'). split; [reflexivity|].
      etransitivity; [apply perm_swap | apply perm_skip, Hperm].
Qed.

Lemma remove_items_perm (items l : list nat) :
  NoDup items -> incl items l -> Permutation (items ++ remove_items items l) l.
Proof.
  revert l. induction items as [|x items IH]; intros l Hnd Hincl; simpl.
  - reflexivity.
  - inversion Hnd as [|x' items' Hx Hnd']; subst.
    destruct (list_remove_perm x l) as (l' & Hl' & Hperm).
    { apply Hincl. left. reflexivity. }
    rewrite Hl'. etransitivity; [|exact Hperm].
    apply perm_skip. apply IH; [exact Hnd'|].
    intros y Hy.
    assert (Hyl : In y (x :: l')).
    { apply (Permutation_in _ (Permutation_sym Hperm)). apply Hincl. right. exact Hy. }
    destruct Hyl as [<-|Hyl]; [contradiction | exact Hyl].
Qed.

(** [[l[i] for i in indices]] *)
Lemma mapM_exists {A B} (f : A -> result B) (l : list A) :
  (forall x, In x l -> exists y, f x = Ok y) -> exists l', mapM f l = Ok l'.
Proof.
  induction l as [|x l IH]; intros H; simpl.
  - eauto.
  - destruct (H x (or_introl eq_refl)) as (y & Hy). rewrite Hy. simpl.
    destruct IH as (l' & Hl'); [intros z Hz; apply H; right; exact Hz|].
    rewrite Hl'. simpl. eauto.
Qed.

Lemma mapM_nth_Forall2 {A} (L : list A) (indices : list nat) (out : list A) :
  mapM (fun i => match nth_error L i with
                 | Some g => Ok g
                 | None => Raise IndexError
                 end) indices = Ok out ->
  Forall2 (fun i x => nth_error L i = Some x) indices out.
Proof.
  revert out. induction indices as [|i indices IH]; intros out H; simpl in H.
  - inversion H. constructor.
  - apply bind_Ok in H. destruct H as (x & Hx & H).
    apply bind_Ok in H. destruct H as (xs & Hxs & H).
    inversion H; subst. constructor; [|apply IH; exact Hxs].
    destruct (nth_error L i); [inversion Hx; reflexivity | discriminate Hx].
Qed.

Lemma skipn_nth_error {A} (L : list A) (s : nat) (x : A) :
  nth_error L s = Some x -> skipn s L = x :: skipn (S s) L.
Proof.
  revert L. induction s as [|s IH]; intros [|y L] H; simpl in H; try discriminate H.
  - inversion H. reflexivity.
  - apply IH in H. exact H.
Qed.

Lemma Forall2_nth_seq {A} (L : list A) (len s : nat) (out : list A) :
  Forall2 (fun i x => nth_error L i = Some x) (seq s len) out ->
  out = firstn len (skipn s L).
Proof.
  revert s out. induction len as [|len IH]; intros s out H; simpl in H.
  - inversion H. reflexivity.
  - inversion H as [|i x idxs xs Hx Hrest]; subst.
    rewrite (skipn_nth_error L s x Hx). cbn [firstn]. f_equal. apply IH. exact Hrest.
Qed.

Lemma mapM_nth_perm {A} (L : list A) (indices : list nat) (out : list A) :
  Permutation indices (seq 0 (List.length L)) ->
  mapM (fun i => match nth_error L i with
                 | Some g => Ok g
                 | None => Raise IndexError
                 end) indices = Ok out ->
  Permutation out L.
Proof.
  intros Hperm H. apply mapM_nth_Forall2 in H.
  destruct (Permutation_Forall2 Hperm H) as (out' & Hout & Hall).
  apply Forall2_nth_seq in Hall. simpl in Hall. rewrite firstn_all in Hall.
  subst out'. exact Hout.
Qed.

Lemma mapM_nth_total {A} (L : list A) (indices : list nat) :
  (forall i, In i indices -> i < List.length L) ->
  exists out, mapM (fun i => match nth_error L i with
                             | Some g => Ok g
                             | None => Raise IndexError
                             end) indices = Ok out.
Proof.
  intros H. apply mapM_exists. intros i Hi.
  destruct (nth_error L i) as [g|] eqn:Hg; [eauto|].
  apply nth_error_None in Hg. apply H in Hi. lia.
Qed.

Lemma ref_match_some (ref_identifier : string) (rs : list string) :
  forall i, exists m,
    ref_match ref_identifier i (map Some rs) = Ok m
    /\ NoDup m
    /\ forall j, In j m ->
         i <= j < i + List.length rs
         /\ exists s, nth_error rs (j - i) = Some s /\ lower s = ref_identifier.
Proof.
  induction rs as [|r rs IH]; intros i; simpl.
  - exists []. split; [reflexivity|]. split; [constructor | intros j []].
  - destruct (IH (S i)) as (m & Hm & Hnd & Hspec). rewrite Hm. simpl.
    assert (Htail : forall j, In j m ->
              i <= j < i + S (List.length rs)
              /\ exists s, nth_error (r :: rs) (j - i) = Some s /\ lower s = ref_identifier).
    { intros j Hj. destruct (Hspec j Hj) as (Hb & s & Hs & Hl).
      split; [lia|]. exists s. split; [|exact Hl].
      replace (j - i) with (S (j - S i)) by lia. exact Hs. }
    destruct (String.eqb_spec ref_identifier (lower r)) as [Heq|Hneq].
    + exists (i :: m). split; [reflexivity|]. split.
      * constructor; [|exact Hnd]. intros Hin. apply Hspec in Hin. lia.
      * intros j [<-|Hj]; [|apply Htail; exact Hj].
        split; [lia|]. exists r. rewrite Nat.sub_diag. split; [reflexivity | congruence].
    + exists m. split; [reflexivity|]. split; [exact Hnd | exact Htail].
Qed.

Section SortFacts.

Variable groups : list IdenticalComponents.
Variable rs : list string.
Hypothesis rs_length : List.length rs = List.length groups.
Hypothesis groups_fields : forall g, In g groups -> fields g <> None.

(** A step of the loop over the identifiers: the two orders together stay
    a permutation of the indices, and an index of the new order is of a group
    whose reference is an identifier that the loop has seen. *)
Lemma sort_step_inv (seen : list string) (order_old order_new : list nat)
    (ref_identifier : string) :
  Permutation (order_new ++ order_old) (seq 0 (List.length groups)) ->
  (forall j, In j order_new -> exists s, nth_error rs j = Some s /\ In (lower s) seen) ->
  ~ In ref_identifier seen ->
  exists order_old' order_new',
    sort_step groups (map Some rs) (order_old, order_new) ref_identifier
    = Ok (order_old', order_new')
    /\ Permutation (order_new' ++ order_old') (seq 0 (List.length groups))
    /\ forall j, In j order_new' ->
         exists s, nth_error rs j = Some s /\ In (lower s) (ref_identifier :: seen).
Proof.
  intros Hperm Hnew Hseen. unfold sort_step.
  destruct (ref_match_some ref_identifier rs 0) as (m & Hm & Hnd & Hspec).
  rewrite Hm. cbn [bind].
  assert (Hlabel : forall j, In j m ->
            j < List.length groups
            /\ exists s, nth_error rs j = Some s /\ lower s = ref_identifier).
  { intros j Hj. destruct (Hspec j Hj) as (Hb & s & Hs & Hl).
    rewrite Nat.sub_0_r in Hs. split; [lia | eauto]. }
  assert (Hincl : incl m order_old).
  { intros j Hj. destruct (Hlabel j Hj) as (Hb & s & Hs & Hl).
    assert (Hin : In j (order_new ++ order_old)).
    { apply (Permutation_in _ (Permutation_sym Hperm)). apply in_seq. lia. }
    apply in_app_or in Hin. destruct Hin as [Hin|Hin]; [|exact Hin].
    destruct (Hnew j Hin) as (s' & Hs' & Hl').
    rewrite Hs in Hs'. inversion Hs'; subst s'. rewrite Hl in Hl'. contradiction. }
  assert (Hstep : forall m', Permutation m' m ->
            Permutation ((order_new ++ m') ++ remove_items m order_old)
                        (seq 0 (List.length groups))
            /\ forall j, In j (order_new ++ m') ->
                 exists s, nth_error rs j = Some s /\ In (lower s) (ref_identifier :: seen)).
  { intros m' Hm'. split.
    - etransitivity; [|exact Hperm]. rewrite <- app_assoc.
      apply Permutation_app_head.
      etransitivity; [apply Permutation_app_tail, Hm'|].
      apply remove_items_perm; assumption.
    - intros j Hj. apply in_app_or in Hj. destruct Hj as [Hj|Hj].
      + destruct (Hnew j Hj) as (s & Hs & Hl). exists s. split; [exact Hs | right; exact Hl].
      + apply (Permutation_in _ Hm') in Hj.
        destruct (Hlabel j Hj) as (_ & s & Hs & Hl).
        exists s. split; [exact Hs | left; symmetry; exact Hl]. }
  destruct (Nat.ltb 0 (List.length m)) eqn:H0.
  - destruct (Nat.ltb 1 (List.length m)) eqn:H1.
    + match goal with |- context [bind (mapM ?f m) _] =>
        destruct (mapM_exists f m) as (group_manf_list & Hmanf) end.
      { intros h Hh. destruct (Hlabel h Hh) as (Hb & _).
        destruct (nth_error groups h) as [g|] eqn:Hg.
        - unfold group_field. pose proof (groups_fields g (nth_error_In _ _ Hg)) as Hf.
          destruct (fields g); [eauto | contradiction].
        - apply nth_error_None in Hg. lia. }
      rewrite Hmanf. cbn [bind].
      match goal with |- context [bind (mapM ?f m) _] =>
        destruct (mapM_exists f m) as (group_refs_list & Hrefs) end.
      { intros h Hh. destruct (Hlabel h Hh) as (Hb & _).
        destruct (nth_error groups h) as [g|] eqn:Hg; [eauto|].
        apply nth_error_None in Hg. lia. }
      rewrite Hrefs. cbn [bind].
      apply mapM_Ok_length in Hrefs.
      match goal with |- context [bind (mapM _ ?l) _] =>
        assert (Hsorted : Permutation l (seq 0 (List.length m)))
          by (rewrite <- Hrefs; apply sorted_by_perm);
        destruct (mapM_nth_total m l) as (m' & Hm') end.
      { intros i Hi. apply (Permutation_in _ Hsorted) in Hi. apply in_seq in Hi. lia. }
      rewrite Hm'. cbn [bind].
      exists (remove_items m order_old), (order_new ++ m')%list.
      split; [reflexivity|]. apply Hstep.
      apply (mapM_nth_perm m _ m' Hsorted Hm').
    + destruct m as [|h [|h' m]]; simpl in H0, H1; try discriminate.
      exists (remove_items [h] order_old), (order_new ++ [h])%list.
      split; [reflexivity|]. apply Hstep. reflexivity.
  - destruct m as [|h m]; simpl in H0; [|discriminate].
    exists order_old, order_new. split; [reflexivity|]. split; [exact Hperm|].
    intros j Hj. destruct (Hnew j Hj) as (s & Hs & Hl). exists s. split; [exact Hs | right; exact Hl].
Qed.

Lemma sort_loop_inv (identifiers : list string) :
  forall (seen : list string) (order_old order_new : list nat),
  NoDup identifiers ->
  (forall id, In id identifiers -> ~ In id seen) ->
  Permutation (order_new ++ order_old) (seq 0 (List.length groups)) ->
  (forall j, In j order_new -> exists s, nth_error rs j = Some s /\ In (lower s) seen) ->
  exists order_old' order_new',
    foldM (sort_step groups (map Some rs)) identifiers (order_old, order_new)
    = Ok (order_old', order_new')
    /\ Permutation (order_new' ++ order_old') (seq 0 (List.length groups)).
Proof.
  induction identifiers as [|id identifiers IH];
    intros seen order_old order_new Hnd Hseen Hperm Hnew; cbn [foldM].
  - exists order_old, order_new. split; [reflexivity | exact Hperm].
  - inversion Hnd as [|id' ids Hid Hnd']; subst.
    destruct (sort_step_inv seen order_old order_new id Hperm Hnew)
      as (old' & new' & Hstep & Hperm' & Hnew').
    { apply Hseen. left. reflexivity. }
    rewrite Hstep. cbn [bind].
    apply (IH (id :: seen)); try assumption.
    intros x Hx [<-|Hin]; [contradiction|].
    revert Hin. apply Hseen. right. exact Hx.
Qed.

End SortFacts.

Lemma group_refs_some (groups : list IdenticalComponents) :
  (forall g, In g groups ->
     exists f r, fields g = Some f /\ get_field f "reference" = Some r) ->
  exists rs, mapM (fun g => group_field g "reference") groups = Ok (map Some rs).
Proof.
  induction groups as [|g groups IH]; intros H; simpl.
  - exists []. reflexivity.
  - destruct (H g (or_introl eq_refl)) as (f & r & Hf & Hr).
    destruct IH as (rs & Hrs); [intros g' Hg'; apply H; right; exact Hg'|].
    exists (r :: rs). unfold group_field at 1. rewrite Hf, Hr. simpl.
    rewrite Hrs. reflexivity.
Qed.

(** C9: for groups whose [fields] have a ['reference'] that is not [None],
    [groups_sort] returns, and returns a permutation of the groups: the same
    groups, each as many times as in the input. *)
Theorem groups_sort_permutation (groups : list IdenticalComponents) :
  (forall g, In g groups ->
     exists f r, fields g = Some f /\ get_field f "reference" = Some r) ->
  exists sorted,
    groups_sort groups = Ok sorted
    /\ Permutation groups sorted
    /\ List.length sorted = List.length groups.
Proof.
  intros Hgroups. unfold groups_sort, groups_sort_by.
  destruct (group_refs_some groups Hgroups) as (rs & Hrs). rewrite Hrs. cbn [bind].
  assert (Hlen : List.length rs = List.length groups).
  { apply mapM_Ok_length in Hrs. rewrite length_map in Hrs. exact Hrs. }
  destruct (sort_loop_inv groups rs Hlen) with
    (identifiers := ref_identifiers) (seen := @nil string)
    (order_old := seq 0 (List.length groups)) (order_new := @nil nat)
    as (order_old & order_new & Hloop & Hperm).
  - intros g Hg. destruct (Hgroups g Hg) as (f & _ & Hf & _). congruence.
  - vm_compute. repeat constructor; simpl; intuition discriminate.
  - intros id _ [].
  - reflexivity.
  - intros j [].
  - rewrite Hloop. cbn [bind snd fst].
    destruct (mapM_nth_total groups (order_new ++ order_old)) as (sorted & Hsorted).
    { intros i Hi. apply (Permutation_in _ Hperm) in Hi. apply in_seq in Hi. lia. }
    exists sorted. split; [exact Hsorted|].
    pose proof (mapM_nth_perm groups _ sorted Hperm Hsorted) as Hp.
    split; [symmetry; exact Hp | apply Permutation_length; exact Hp].
Qed.

Lemma groups_sort_permutation_witness :
  let grp r reference :=
    {| refs := r; manf_nums := []; fields := Some [("reference", Some reference)] |} in
  exists sorted,
    groups_sort [grp ["R1"; "R2"] "R"; grp ["X1"] "X"; grp ["U1"] "U"; grp ["R3"] "r"]
    = Ok sorted
    /\ Permutation [grp ["R1"; "R2"] "R"; grp ["X1"] "X"; grp ["U1"] "U"; grp ["R3"] "r"]
                   sorted
    /\ List.length sorted = 4.
Proof.
  intros grp.
  apply (groups_sort_permutation
           [grp ["R1"; "R2"] "R"; grp ["X1"] "X"; grp ["U1"] "U"; grp ["R3"] "r"]).
  intros g [<-|[<-|[<-|[<-|[]]]]]; eexists _, _; split; reflexivity.
Defined.

Example groups_sort_example :
  let grp r reference manf :=
    {| refs := r; manf_nums := [];
       fields := Some [("reference", Some reference); ("manf#", manf)] |} in
  groups_sort [grp ["R1"] "R" None; grp ["X1"] "ZZ" None; grp ["U2"] "U" None;
               grp ["R3"] "r" (Some "a"); grp ["R2"] "r" (Some "a");
               grp ["R10"] "r" (Some "a"); grp ["J1"] "con" None]
  = Ok [grp ["U2"] "U" None; grp ["R10"] "r" (Some "a"); grp ["R2"] "r" (Some "a");
        grp ["R3"] "r" (Some "a"); grp ["R1"] "R" None; grp ["J1"] "con" None;
        grp ["X1"] "ZZ" None].
Proof. vm_compute. reflexivity. Qed.

(* ================================================================== *)
(** * Further properties *)

(** ** More on the grouping engine *)

Lemma dict_set_keys_In {V} (d : dict V) (k : string) (v : V) (x : string) :
  In x (keys (dict_set d k v)) -> x = k \/ In x (keys d).
Proof.
  unfold keys. induction d as [|[k0 v0] d IH]; simpl; intros Hx.
  - destruct Hx as [<-|[]]. left. reflexivity.
  - destruct (String.eqb k0 k); simpl in Hx.
    + right. exact Hx.
    + destruct Hx as [Hx|Hx]; [right; left; exact Hx|].
      destruct (IH Hx) as [H|H]; [left; exact H | right; right; exact H].
Qed.

(** An assignment keeps the keys of a [dict] distinct. *)
Lemma dict_set_keys_NoDup {V} (d : dict V) (k : string) (v : V) :
  NoDup (keys d) -> NoDup (keys (dict_set d k v)).
Proof.
  induction d as [|[k0 v0] d IH]; intros Hnd; simpl.
  - repeat constructor. simpl. tauto.
  - unfold keys in *. simpl in Hnd. inversion Hnd as [|k' ks Hk Hnd']; subst.
    destruct (String.eqb_spec k0 k) as [->|Hneq]; simpl.
    + constructor; assumption.
    + constructor; [|apply IH; exact Hnd'].
      intros Hx. apply dict_set_keys_In in Hx. destruct Hx as [Hx|Hx]; contradiction.
Qed.

Section SplitKeys.

Variable dd : list string.               (* [distributor_dict] *)

Lemma add_subpart_keys (part_ref : string) (part : record) (part_actual_value : value)
    (n : nat) (founded : list (string * list string)) (subparts_manf : list string)
    (st st' : dict record * option string) (i : nat) :
  NoDup (keys (fst st)) ->
  add_subpart part_ref part part_actual_value n founded subparts_manf st i = Ok st' ->
  NoDup (keys (fst st')).
Proof.
  unfold add_subpart. destruct st as [splitted p_manf]. simpl. intros Hnd H.
  destruct (nth_error subparts_manf i) as [m|]; [|discriminate H].
  destruct (if String.eqb m REPLICATE_MANF then p_manf else Some m) as [name|];
    [|discriminate H].
  inversion H; subst; simpl. apply dict_set_keys_NoDup. exact Hnd.
Qed.

Lemma split_part_try_keys (st st' : dict record * option string)
    (item : string * record) :
  NoDup (keys (fst st)) ->
  split_part_try dd st item = Ok st' ->
  NoDup (keys (fst st')).
Proof.
  unfold split_part_try. intros Hnd H.
  destruct (split_part dd st (fst item) (snd item)) as [st1|e] eqn:Hsp.
  - inversion H; subst st1. clear H. unfold split_part in Hsp.
    destruct st as [splitted p_manf]. simpl in Hnd.
    apply bind_Ok in Hsp. destruct Hsp as ([n founded] & _ & Hsp).
    destruct founded as [|fc founded].
    + inversion Hsp; subst; simpl. apply dict_set_keys_NoDup. exact Hnd.
    + apply bind_Ok in Hsp. destruct Hsp as (sm & _ & Hsp).
      destruct (Nat.ltb 1 n).
      * destruct (dict_get (snd item) "value") as [v|]; [|discriminate Hsp].
        revert Hsp.
        apply (foldM_inv (fun st : dict record * option string => NoDup (keys (fst st))));
          [|exact Hnd].
        intros s a s' Hs Hstep. eapply add_subpart_keys; eassumption.
      * destruct (set_single_codes (fc :: founded) (snd item)) as [pa stored].
        inversion Hsp; subst; simpl.
        destruct stored; [apply dict_set_keys_NoDup|]; exact Hnd.
  - destruct e; try discriminate H. inversion H; subst. exact Hnd.
Qed.

(** The designators that [subpart_split] returns are distinct. *)
Lemma subpart_split_keys_NoDup (components splitted : dict record) :
  subpart_split dd components = Ok splitted -> NoDup (keys splitted).
Proof.
  unfold subpart_split. intros H. apply bind_Ok in H. destruct H as (st & Hfold & H).
  inversion H; subst. revert Hfold.
  apply (foldM_inv (fun st : dict record * option string => NoDup (keys (fst st)))).
  - intros s a s'. apply split_part_try_keys.
  - constructor.
Qed.

End SplitKeys.

Section OrganizeFacts.

Variable dd : list string.               (* [distributor_dict] *)
Variable SEPRTR : string.
Variable hash : list (string * value) -> Z.
Variable set_iter : list value -> list value.
Hypothesis set_iter_perm : forall s, Permutation (set_iter s) s.

(** X1: When [organize_parts] returns, the references of its groups are the
    designators that [subpart_split] made of the components, each of them
    once. *)
Theorem organize_parts_partition (components : dict record) (fields_merge : list string)
    (groups : list IdenticalComponents) :
  organize_parts dd SEPRTR hash set_iter components fields_merge = Ok groups ->
  exists splitted,
    subpart_split dd components = Ok splitted
    /\ Permutation (List.concat (map refs groups)) (keys splitted)
    /\ NoDup (List.concat (map refs groups)).
Proof.
  unfold organize_parts. intros H. apply bind_Ok in H. destruct H as (splitted & Hs & Hg).
  exists splitted. split; [exact Hs|].
  pose proof (subpart_split_keys_NoDup dd _ _ Hs) as Hnd.
  unfold group_parts in Hg. apply bind_Ok in Hg. destruct Hg as (_ & _ & Hg).
  unfold group_accepted in Hg. apply bind_Ok in Hg. destruct Hg as (merged & _ & Hg).
  apply mapM_propagate_refs in Hg.
  assert (Hperm : Permutation (List.concat (map refs groups)) (keys splitted)).
  { rewrite Hg. apply refine_groups_refs; assumption. }
  split; [exact Hperm|].
  apply (Permutation_NoDup (Permutation_sym Hperm)). exact Hnd.
Qed.

End OrganizeFacts.

Lemma organize_parts_partition_witness :
  let components : dict record :=
    [ ("U1", [("value", Some "4x10k"); ("manf#", Some "A;B")]);
      ("R1", [("value", Some "10k"); ("manf#", Some "C")]) ] in
  exists groups,
    organize_parts ["digikey"; "mouser"] ":" example_hash insertion_order components []
    = Ok groups
    /\ exists splitted,
         subpart_split ["digikey"; "mouser"] components = Ok splitted
         /\ Permutation (List.concat (map refs groups)) (keys splitted)
         /\ NoDup (List.concat (map refs groups)).
Proof.
  intros components. eexists. split; [vm_compute; reflexivity|].
  apply (organize_parts_partition ["digikey"; "mouser"] ":" example_hash insertion_order
           (fun s => Permutation_refl s) components []).
  vm_compute. reflexivity.
Defined.

(** ** The groups by hash *)

Section HashGroups.

Variable dd : list string.               (* [distributor_dict] *)
Variable SEPRTR : string.
Variable hash : list (string * value) -> Z.
Variable fields_merge : list string.
Variable components : dict record.

Lemma add_component_hashes (h : Z) (ref : string) (m : value)
    (groups : list (Z * IdenticalComponents)) :
  NoDup (map fst groups) ->
  (forall h' g, In (h', g) groups ->
     forall r, In r (refs g) ->
       component_hash dd SEPRTR hash fields_merge components r = h') ->
  component_hash dd SEPRTR hash fields_merge components ref = h ->
  NoDup (map fst (add_component h ref m groups))
  /\ (forall x, In x (map fst (add_component h ref m groups)) ->
        x = h \/ In x (map fst groups))
  /\ (forall h' g, In (h', g) (add_component h ref m groups) ->
        forall r, In r (refs g) ->
          component_hash dd SEPRTR hash fields_merge components r = h').
Proof.
  intros Hnd Hall Href. induction groups as [|[h0 g0] groups IH]; simpl.
  - split; [repeat constructor; simpl; tauto|]. split.
    + intros x [<-|[]]. left. reflexivity.
    + intros h' g [Heq|[]] r Hr. inversion Heq; subst h' g. simpl in Hr.
      destruct Hr as [<-|[]]. exact Href.
  - simpl in Hnd. inversion Hnd as [|h1 hs Hh0 Hnd']; subst h1 hs.
    destruct (Z.eqb_spec h0 h) as [Heq0|Hneq]; simpl.
    + subst h0. split; [exact Hnd|]. split; [intros x Hx; right; exact Hx|].
      intros h' g [Heq|Hin] r Hr.
      * inversion Heq; subst h' g. simpl in Hr. apply in_app_or in Hr.
        destruct Hr as [Hr|[<-|[]]]; [|exact Href].
        apply (Hall h g0); [left; reflexivity | exact Hr].
      * apply (Hall h' g); [right; exact Hin | exact Hr].
    + destruct IH as (IH1 & IH2 & IH3); [exact Hnd'| |].
      { intros h' g Hin. apply (Hall h' g). right. exact Hin. }
      split; [|split].
      * constructor; [|exact IH1]. intros Hin. apply IH2 in Hin.
        destruct Hin as [Hin|Hin]; [contradiction | contradiction].
      * intros x [<-|Hx]; [right; left; reflexivity|].
        apply IH2 in Hx. destruct Hx as [Hx|Hx]; [left; exact Hx | right; right; exact Hx].
      * intros h' g [Heq|Hin] r Hr.
        -- inversion Heq; subst h' g. apply (Hall h0 g0); [left; reflexivity | exact Hr].
        -- apply (IH3 h' g Hin r Hr).
Qed.

Lemma group_fold_hashes (items : dict record) :
  forall groups : list (Z * IdenticalComponents),
  (forall item, In item items -> component components (fst item) = snd item) ->
  NoDup (map fst groups) ->
  (forall h' g, In (h', g) groups ->
     forall r, In r (refs g) ->
       component_hash dd SEPRTR hash fields_merge components r = h') ->
  let groups' :=
    fold_left (fun component_groups (item : string * record) =>
                 add_component (hash_of dd SEPRTR hash fields_merge (snd item)) (fst item)
                               (get_field (snd item) "manf#") component_groups)
              items groups in
  NoDup (map fst groups')
  /\ (forall h' g, In (h', g) groups' ->
        forall r, In r (refs g) ->
          component_hash dd SEPRTR hash fields_merge components r = h').
Proof.
  induction items as [|[ref fields] items IH]; intros groups Hitems Hnd Hall; simpl.
  - split; assumption.
  - destruct (add_component_hashes (hash_of dd SEPRTR hash fields_merge fields) ref
                (get_field fields "manf#") groups Hnd Hall) as (H1 & _ & H3).
    { unfold component_hash.
      pose proof (Hitems (ref, fields) (or_introl eq_refl)) as E. simpl in E.
      rewrite E. reflexivity. }
    apply IH; [|exact H1 | exact H3].
    intros item Hitem. apply Hitems. right. exact Hitem.
Qed.

(** X2: Two components are in one group by hash exactly when their hashes are
    the same. *)
Theorem group_by_hash_same_hash (r1 r2 : string) :
  NoDup (keys components) ->
  In r1 (keys components) -> In r2 (keys components) ->
  (exists grp, In grp (group_by_hash dd SEPRTR hash fields_merge components)
               /\ In r1 (refs grp) /\ In r2 (refs grp))
  <-> hash_of dd SEPRTR hash fields_merge (component components r1)
      = hash_of dd SEPRTR hash fields_merge (component components r2).
Proof.
  intros Hnd Hr1 Hr2.
  destruct (group_fold_hashes components []) as (Hkeys & Hall).
  { intros [ref fields] Hin. unfold component. simpl.
    rewrite (dict_get_In components ref fields Hnd Hin). reflexivity. }
  { constructor. }
  { intros h' g []. }
  pose proof (group_fold_spec dd SEPRTR hash components fields_merge components []) as Hspec.
  destruct Hspec as (_ & Hperm); [| constructor |].
  { intros [ref fields] Hin. unfold manf_of, component. simpl.
    rewrite (dict_get_In components ref fields Hnd Hin). reflexivity. }
  simpl in Hperm. unfold group_by_hash.
  set (groups := fold_left _ components []) in *.
  assert (Hfind : forall r, In r (keys components) ->
            exists g,
              In (component_hash dd SEPRTR hash fields_merge components r, g) groups
              /\ In r (refs g)).
  { intros r Hr. apply (Permutation_in _ (Permutation_sym Hperm)) in Hr.
    apply in_concat in Hr. destruct Hr as (l & Hl & Hrl).
    apply in_map_iff in Hl. destruct Hl as (g & <- & Hg).
    apply in_map_iff in Hg. destruct Hg as ([h g'] & Heq & Hg). simpl in Heq. subst g'.
    exists g. split; [|exact Hrl].
    rewrite (Hall h g Hg r Hrl). exact Hg. }
  split.
  - intros (grp & Hgrp & H1 & H2).
    apply in_map_iff in Hgrp. destruct Hgrp as ([h g] & Heq & Hg). simpl in Heq. subst g.
    change (component_hash dd SEPRTR hash fields_merge components r1
            = component_hash dd SEPRTR hash fields_merge components r2).
    rewrite (Hall h grp Hg r1 H1), (Hall h grp Hg r2 H2). reflexivity.
  - intros Heq.
    change (component_hash dd SEPRTR hash fields_merge components r1
            = component_hash dd SEPRTR hash fields_merge components r2) in Heq.
    destruct (Hfind r1 Hr1) as (g1 & Hg1 & H1).
    destruct (Hfind r2 Hr2) as (g2 & Hg2 & H2).
    rewrite <- Heq in Hg2.
    assert (Hsame : g1 = g2).
    { clear - Hkeys Hg1 Hg2. induction groups as [|[h g] groups IH]; simpl in *.
      - destruct Hg1.
      - inversion Hkeys as [|h' hs Hh Hnd]; subst.
        destruct Hg1 as [E1|Hg1], Hg2 as [E2|Hg2].
        + congruence.
        + inversion E1; subst. contradiction Hh.
          apply in_map_iff.
          exists (component_hash dd SEPRTR hash fields_merge components r1, g2).
          split; [reflexivity | exact Hg2].
        + inversion E2; subst. contradiction Hh.
          apply in_map_iff.
          exists (component_hash dd SEPRTR hash fields_merge components r1, g1).
          split; [reflexivity | exact Hg1].
        + apply IH; assumption. }
    subst g2. exists g1. split; [|split; assumption].
    apply in_map_iff.
    exists (component_hash dd SEPRTR hash fields_merge components r1, g1).
    split; [reflexivity | exact Hg1].
Qed.

End HashGroups.

Lemma group_by_hash_same_hash_witness :
  let components : dict record :=
    [ ("R1", [("value", Some "10k")]);
      ("C1", [("value", Some "100n")]);
      ("R2", [("value", Some "10k")]) ] in
  exists grp,
    In grp (group_by_hash ["digikey"; "mouser"] ":" example_hash [] components)
    /\ In "R1" (refs grp) /\ In "R2" (refs grp).
Proof.
  intros components.
  apply (proj2 (group_by_hash_same_hash ["digikey"; "mouser"] ":" example_hash []
                  components "R1" "R2" ltac:(repeat constructor; simpl; intuition discriminate)
                  ltac:(simpl; auto) ltac:(simpl; auto))).
  vm_compute. reflexivity.
Defined.

(** ** The final groups and the fields of the hash *)

Lemma filter_dict_set_out {V} (p : string -> bool) (d : dict V) (k : string) (v : V) :
  p k = false ->
  filter (fun kv : string * V => p (fst kv)) (dict_set d k v)
  = filter (fun kv : string * V => p (fst kv)) d.
Proof.
  intros Hk. induction d as [|[k0 v0] d IH]; simpl.
  - rewrite Hk. reflexivity.
  - destruct (String.eqb_spec k0 k) as [->|Hneq]; simpl.
    + rewrite Hk. reflexivity.
    + rewrite IH. reflexivity.
Qed.

Section FinalGroups.

Variable dd : list string.               (* [distributor_dict] *)
Variable SEPRTR : string.
Variable hash : list (string * value) -> Z.
Variable set_iter : list value -> list value.

Lemma refine_groups_one_manf_num (components : dict record) (fields_merge : list string)
    (grp : IdenticalComponents) :
  NoDup (keys components) ->
  In grp (refine_groups dd SEPRTR hash set_iter fields_merge components) ->
  forall r1 r2 a b,
    In r1 (refs grp) -> In r2 (refs grp) ->
    manf_of components r1 = Some a -> manf_of components r2 = Some b -> a = b.
Proof.
  intros Hnd Hgrp r1 r2 a b H1 H2 Ha Hb. unfold refine_groups in Hgrp.
  apply in_flat_map in Hgrp. destruct Hgrp as (g0 & Hg0 & Hgrp).
  destruct (group_by_hash_spec dd SEPRTR hash components fields_merge Hnd) as [Hall _].
  rewrite Forall_forall in Hall. destruct (Hall g0 Hg0) as [Hnd0 Hmem].
  destruct (kept_whole_dec g0) as [Hk|Hk].
  - rewrite (refine_group_kept set_iter components g0 Hk) in Hgrp.
    destruct Hgrp as [<-|[]].
    assert (Ia : In (Some a) (manf_nums g0)) by (apply Hmem; eauto).
    assert (Ib : In (Some b) (manf_nums g0)) by (apply Hmem; eauto).
    destruct Hk as [Hlen|[Hlen Hnone]].
    + destruct (manf_nums g0) as [|x [|y l]]; simpl in Hlen; try discriminate.
      destruct Ia as [Ea|[]], Ib as [Eb|[]]. congruence.
    + destruct (manf_nums g0) as [|x [|y [|z l]]]; simpl in Hlen; try discriminate.
      inversion Hnd0 as [|x' l' Hx _]; subst. simpl in *.
      destruct Hnone as [En|[En|[]]], Ia as [Ea|[Ea|[]]], Ib as [Eb|[Eb|[]]];
        try congruence.
  - rewrite (refine_group_split set_iter components g0 Hk) in Hgrp.
    apply in_map_iff in Hgrp. destruct Hgrp as (m & <- & _). simpl in H1, H2.
    apply filter_In in H1. apply filter_In in H2.
    destruct H1 as [_ E1], H2 as [_ E2].
    apply value_eqb_eq in E1. apply value_eqb_eq in E2. congruence.
Qed.

(** X3: The groups that [group_parts] returns do not mix two [manf#]: the
    members of a group that have a ['manf#'] have the same one. *)
Theorem group_parts_one_manf_num (components : dict record) (fields_merge : list string)
    (groups : list IdenticalComponents) :
  NoDup (keys components) ->
  group_parts dd SEPRTR hash set_iter components fields_merge = Ok groups ->
  forall grp r1 r2 a b,
    In grp groups -> In r1 (refs grp) -> In r2 (refs grp) ->
    manf_of components r1 = Some a -> manf_of components r2 = Some b -> a = b.
Proof.
  intros Hnd H grp r1 r2 a b Hgrp H1 H2. unfold group_parts in H.
  apply bind_Ok in H. destruct H as (_ & _ & H). unfold group_accepted in H.
  apply bind_Ok in H. destruct H as (components' & _ & H).
  destruct (mapM_In _ _ _ H grp Hgrp) as (grp0 & Hgrp0 & Hprop).
  rewrite (propagate_refs _ _ _ Hprop) in H1, H2.
  apply (refine_groups_one_manf_num components _ grp0 Hnd Hgrp0); assumption.
Qed.

(** X4: A field of the manufacturer or of a distributor, a merged field and a
    field with [SEPRTR] in its name do not count in the hash of a part. *)
Theorem hash_of_ignores_field (fields_merge : list string) (fields : record)
    (k : string) (v : value) :
  In k (FIELDS_MANF dd ++ fields_merge)%list \/ contains SEPRTR k = true ->
  hash_of dd SEPRTR hash fields_merge (dict_set fields k v)
  = hash_of dd SEPRTR hash fields_merge fields.
Proof.
  intros Hk. unfold hash_of. f_equal. f_equal. unfold hash_fields.
  apply (filter_dict_set_out
           (fun k => negb (mem_string k (FIELDS_MANF dd ++ fields_merge)%list)
                     && negb (contains SEPRTR k))).
  destruct Hk as [Hk|Hk].
  - apply mem_string_In in Hk. rewrite Hk. reflexivity.
  - rewrite Hk. apply andb_false_r.
Qed.

End FinalGroups.

Lemma group_parts_one_manf_num_witness :
  let components : dict record :=
    [ ("R1", [("value", Some "10k"); ("manf#", Some "A")]);
      ("R2", [("value", Some "10k"); ("manf#", Some "B")]);
      ("R3", [("value", Some "10k")]);
      ("R4", [("value", Some "10k"); ("manf#", Some "A")]) ] in
  exists groups,
    group_parts ["digikey"; "mouser"] ":" example_hash insertion_order components []
    = Ok groups
    /\ forall grp r1 r2 a b,
         In grp groups -> In r1 (refs grp) -> In r2 (refs grp) ->
         manf_of components r1 = Some a -> manf_of components r2 = Some b -> a = b.
Proof.
  intros components. eexists. split; [vm_compute; reflexivity|].
  apply (group_parts_one_manf_num ["digikey"; "mouser"] ":" example_hash insertion_order
           components []).
  - repeat constructor; simpl; intuition discriminate.
  - vm_compute. reflexivity.
Defined.

Lemma hash_of_ignores_field_witness :
  hash_of ["digikey"; "mouser"] ":" example_hash ["desc"]
          (dict_set [("value", Some "10k")] "mouser#" (Some "71-CRCW0603"))
  = hash_of ["digikey"; "mouser"] ":" example_hash ["desc"] [("value", Some "10k")].
Proof.
  apply (hash_of_ignores_field ["digikey"; "mouser"] ":" example_hash).
  left. simpl. intuition.
Defined.

(** ** More on the separators and the decoder *)

Lemma sep_match_space (is_sep : ascii -> bool) (c : ascii) (s : string) :
  is_space c = true ->
  sep_match is_sep (String c s)
  = match sep_match is_sep s with
    | Some (d, n) => Some (d, S n)
    | None => None
    end.
Proof.
  intros Hc. unfold sep_match. simpl. rewrite Hc. simpl.
  destruct (drop (String.length (take_while is_space s)) s) as [|d r]; [reflexivity|].
  destruct (is_sep d); reflexivity.
Qed.

Lemma sep_match_escaped (is_sep : ascii -> bool) (s : string) :
  forall prev, not_after_backslash prev = true ->
  all_escaped is_sep prev s = true -> sep_match is_sep s = None.
Proof.
  induction s as [|c s IH]; intros prev Hprev Hesc.
  - reflexivity.
  - simpl in Hesc. apply andb_prop in Hesc. destruct Hesc as [Hc Hs].
    rewrite Hprev in Hc. simpl in Hc. rewrite orb_false_r in Hc.
    destruct (is_space c) eqn:Hsp.
    + rewrite sep_match_space by exact Hsp.
      rewrite (IH (Some c)); [reflexivity | | exact Hs].
      simpl. destruct (Ascii.eqb_spec c backslash) as [->|_]; [discriminate Hsp | reflexivity].
    + unfold sep_match. simpl. rewrite Hsp. simpl.
      apply negb_true_iff in Hc. rewrite Hc. reflexivity.
Qed.

Lemma append_snoc (cur : string) (c : ascii) (s : string) :
  (cur ++ String c EmptyString) ++ s = cur ++ String c s.
Proof.
  induction cur as [|c0 cur IH]; simpl; [reflexivity | rewrite IH; reflexivity].
Qed.

Lemma split_scan_escaped (is_sep : ascii -> bool) (s : string) :
  forall prev cur,
  all_escaped is_sep prev s = true ->
  split_scan is_sep 0 prev cur s = [cur ++ s].
Proof.
  induction s as [|c s IH]; intros prev cur Hesc; simpl.
  - f_equal. induction cur as [|c0 cur IHc]; simpl; [reflexivity | f_equal; exact IHc].
  - assert (Hnone : (if not_after_backslash prev then sep_match is_sep (String c s)
                     else None) = None).
    { destruct (not_after_backslash prev) eqn:Hprev; [|reflexivity].
      apply (sep_match_escaped is_sep (String c s) prev Hprev Hesc). }
    rewrite Hnone. simpl in Hesc. apply andb_prop in Hesc. destruct Hesc as [_ Hs].
    rewrite (IH (Some c) _ Hs). rewrite append_snoc. reflexivity.
Qed.

Lemma re_split_escaped (is_sep : ascii -> bool) (s : string) :
  all_escaped is_sep None s = true -> re_split is_sep s = [s].
Proof.
  intros H. unfold re_split. rewrite split_scan_escaped by exact H. reflexivity.
Qed.

(** X5: A string of codes whose [';'] and [','] are all right after a backslash
    is one sub-part: [subpart_list] returns it stripped, with its
    backslashes. *)
Theorem subpart_list_escaped (part : string) :
  all_escaped is_part_sep None (strip part) = true ->
  subpart_list part = [strip part].
Proof.
  intros H. unfold subpart_list. apply re_split_escaped. exact H.
Qed.

Lemma no_sep_all_escaped (is_sep : ascii -> bool) (s : string) :
  forall prev, all_chars (fun c => negb (is_sep c)) s = true ->
  all_escaped is_sep prev s = true.
Proof.
  induction s as [|c s IH]; intros prev H; simpl in *.
  - reflexivity.
  - apply andb_prop in H. destruct H as [Hc Hs]. rewrite Hc. simpl. apply IH. exact Hs.
Qed.

Lemma esc_sub_no_sep (s : string) :
  all_chars (fun c => negb (is_any_sep c)) s = true -> esc_sub 0 s = s.
Proof.
  induction s as [|c s IH]; intros H; simpl in *.
  - reflexivity.
  - apply andb_prop in H. destruct H as [Hc Hs].
    assert (Hnone : (if Ascii.eqb c backslash then sep_match is_any_sep s else None)
                    = None).
    { destruct (Ascii.eqb c backslash); [|reflexivity].
      apply (sep_match_escaped is_any_sep s None eq_refl).
      apply no_sep_all_escaped. exact Hs. }
    rewrite Hnone. rewrite (IH Hs). reflexivity.
Qed.

(** X6: A code without [';'], [','] and [':'] is returned as it is, spaces
    included, with the quantity ["1"]. *)
Theorem manf_code_qtypart_plain (subpart : string) :
  all_chars (fun c => negb (is_any_sep c)) subpart = true ->
  manf_code_qtypart subpart = ("1", subpart).
Proof.
  intros H. unfold manf_code_qtypart. rewrite (esc_sub_no_sep subpart H).
  rewrite re_split_escaped.
  - reflexivity.
  - apply no_sep_all_escaped.
    clear - H. induction subpart as [|c s IH]; simpl in *; [reflexivity|].
    apply andb_prop in H. destruct H as [Hc Hs]. rewrite (IH Hs), andb_true_r.
    unfold is_any_sep in Hc. apply negb_true_iff in Hc. apply orb_false_iff in Hc.
    destruct Hc as [_ Hc]. rewrite Hc. reflexivity.
Qed.

Lemma subpart_list_escaped_witness :
  subpart_list " PART\;A  " = ["PART\;A"].
Proof.
  apply (subpart_list_escaped " PART\;A  "). reflexivity.
Defined.

Lemma manf_code_qtypart_plain_witness :
  manf_code_qtypart "ADUM3150BRSZ-RL7 " = ("1", "ADUM3150BRSZ-RL7 ").
Proof.
  apply (manf_code_qtypart_plain "ADUM3150BRSZ-RL7 "). reflexivity.
Defined.

(** ** The quantity of the decoder *)

Lemma append_nil_r (s : string) : s ++ "" = s.
Proof. induction s as [|c s IH]; simpl; [reflexivity | rewrite IH; reflexivity]. Qed.

Lemma all_chars_app (p : ascii -> bool) (w u : string) :
  all_chars p (w ++ u) = all_chars p w && all_chars p u.
Proof.
  induction w as [|c w IH]; simpl; [reflexivity|].
  rewrite IH. apply andb_assoc.
Qed.

(** [w ++ u] ends with [c]: so does [u], unless it is empty. *)
Lemma append_eq_snoc (w u t : string) (c : ascii) :
  w ++ u = t ++ String c "" ->
  (u = "" /\ w = t ++ String c "")
  \/ exists u', u = u' ++ String c "" /\ t = w ++ u'.
Proof.
  revert t. induction w as [|c0 w IH]; intros t H; simpl in H.
  - destruct u as [|c1 u].
    + left. split; [reflexivity|]. exact H.
    + right. exists t. split; [exact H | reflexivity].
  - destruct t as [|c1 t]; simpl in H.
    + inversion H as [[Hc Hw]]. destruct w; simpl in Hw; [|discriminate Hw].
      left. subst. split; reflexivity.
    + inversion H as [[Hc Hw]]. subst c1. destruct (IH t Hw) as [[Hu Hw']|(u' & Hu & Ht)].
      * left. split; [exact Hu|]. simpl. rewrite Hw'. reflexivity.
      * right. exists u'. split; [exact Hu|]. simpl. rewrite Ht. reflexivity.
Qed.

(** The strings of a pattern stay in it without their last character. *)
Lemma in_items_init (items : list item) :
  forall t c, in_items items (t ++ String c "") -> in_items items t.
Proof.
  induction items as [|[p|p] items IH]; intros t c H; simpl in *.
  - destruct t; discriminate H.
  - destruct H as (w & u & Heq & Hw & Hu). symmetry in Heq.
    destruct (append_eq_snoc w u t c Heq) as [[Hu' Hw']|(u' & Hu' & Ht)].
    + subst u w. rewrite all_chars_app in Hw. apply andb_prop in Hw.
      exists t, "". split; [symmetry; apply append_nil_r|]. split; [apply Hw | exact Hu].
    + subst u t. exists w, u'. split; [reflexivity|]. split; [exact Hw|].
      apply (IH u' c). exact Hu.
  - destruct H as [H|(c0 & u & Heq & Hc0 & Hu)].
    + left. apply (IH t c). exact H.
    + destruct t as [|c1 t]; simpl in Heq.
      * inversion Heq; subst. left. exact Hu.
      * inversion Heq; subst. right. exists c0, t. split; [reflexivity|].
        split; [exact Hc0 | apply (IH t c); exact Hu].
Qed.

Lemma in_items_rstrip (items : list item) (s : string) :
  forall pre, in_items items (pre ++ s) -> in_items items (pre ++ rstrip s).
Proof.
  induction s as [|c s IH]; intros pre H; simpl.
  - exact H.
  - rewrite <- append_snoc in H. apply IH in H.
    destruct (rstrip s) as [|c' r].
    + rewrite append_nil_r in H. destruct (is_space c).
      * rewrite append_nil_r. apply (in_items_init items pre c). exact H.
      * exact H.
    + rewrite append_snoc in H. exact H.
Qed.

Lemma lstrip_drop_while (s : string) : lstrip s = drop_while is_space s.
Proof. induction s as [|c s IH]; simpl; [reflexivity | rewrite IH; reflexivity]. Qed.

(** A string of the pattern of numbers is still one without the spaces
    around it. *)
Lemma num_format_strip (s : string) :
  num_format s = true -> num_format (strip s) = true.
Proof.
  unfold num_format. rewrite !match_items_spec. intros H. unfold strip.
  apply (in_items_rstrip num_format_items (lstrip s) "").
  change (in_items num_format_items (lstrip s)). rewrite lstrip_drop_while.
  apply in_items_drop_while. exact H.
Qed.

(** X7: The quantity that [manf_code_qtypart] returns is never empty and always
    matches the pattern of numbers of the function. *)
Theorem manf_code_qtypart_quantity (subpart : string) :
  fst (manf_code_qtypart subpart) <> ""
  /\ num_format (fst (manf_code_qtypart subpart)) = true.
Proof.
  unfold manf_code_qtypart.
  assert (Hone : "1" <> "" /\ num_format "1" = true)
    by (split; [discriminate | vm_compute; reflexivity]).
  assert (Hdefault : forall q, num_format q = true ->
            (if String.eqb q "" then "1" else q) <> ""
            /\ num_format (if String.eqb q "" then "1" else q) = true).
  { intros q Hq. destruct (String.eqb_spec q "") as [->|Hne]; [exact Hone|].
    split; assumption. }
  destruct (re_split is_qty_sep (esc_sub 0 subpart)) as [|s0 [|s1 [|s2 l]]];
    try exact Hone.
  destruct (num_format s0) eqn:H0, (num_format s1) eqn:H1; simpl.
  - destruct (Nat.ltb (len_no_marks s0) (len_no_marks s1)); simpl;
      apply Hdefault, num_format_strip; assumption.
  - apply Hdefault, num_format_strip; assumption.
  - apply Hdefault, num_format_strip; assumption.
  - exact Hone.
Qed.

(** ** More on the collapser of references *)

Lemma ranges_loop_skip (nums : list refnum) :
  forall k, ranges_loop k nums = ranges_loop 0 (skipn k nums).
Proof.
  induction nums as [|x nums IH]; intros [|k]; try reflexivity.
  simpl. apply IH.
Qed.

Lemma extend_range_ints (a : Z) (cands : list Z) :
  forall k acc, exists m,
    m <= List.length cands
    /\ (forall j, j < m -> nth j cands 0%Z = (a + Z.of_nat (k + j))%Z)
    /\ extend_range a (map RInt cands) k acc
       = if Nat.eqb m 0 then acc
         else (Range a (a + Z.of_nat (k + m - 1)), k + m).
Proof.
  induction cands as [|b cands IH]; intros k acc; simpl.
  - exists 0. split; [lia|]. split; [intros j Hj; lia | reflexivity].
  - destruct (Z.eqb_spec (Z.of_nat k) (b - a)) as [Heq|Hneq].
    + destruct (IH (S k) (Range a b, S k)) as (m & Hlen & Hnth & Hres).
      exists (S m). split; [lia|]. split.
      * intros [|j] Hj; simpl; [lia|]. rewrite Hnth by lia. f_equal. lia.
      * rewrite Hres. simpl. destruct (Nat.eqb_spec m 0) as [->|Hm].
        -- f_equal; [|lia]. f_equal. lia.
        -- f_equal; [|lia]. f_equal. f_equal. lia.
    + exists 0. split; [lia|]. split; [intros j Hj; lia | reflexivity].
Qed.

Lemma firstn_nth_map (f : nat -> Z) (m : nat) :
  forall (l : list Z) (s : nat),
  m <= List.length l ->
  (forall j, j < m -> nth j l 0%Z = f (s + j)) ->
  firstn m l = map f (seq s m).
Proof.
  induction m as [|m IH]; intros l s Hlen Hnth.
  - reflexivity.
  - destruct l as [|x l]; simpl in Hlen; [lia|]. simpl. f_equal.
    + rewrite <- (Nat.add_0_r s). apply (Hnth 0). lia.
    + apply IH; [lia|]. intros j Hj.
      replace (S s + j) with (s + S j) by lia. apply (Hnth (S j)). lia.
Qed.

Lemma ascending_skipn (l : list Z) : forall k, ascending l -> ascending (skipn k l).
Proof.
  induction l as [|a l IH]; intros [|k] H; simpl; try exact H; try exact I.
  apply IH. apply H.
Qed.

(** X8: The ranges of an ascending list of integers stand for the integers of
    the list, in the same order: no number is lost and none is added. *)
Theorem ranges_loop_numbers (l : list Z) :
  ascending l ->
  flat_map range_numbers (ranges_loop 0 (map RInt l)) = map RInt l.
Proof.
  remember (List.length l) as n eqn:Hn. revert l Hn.
  induction n as [n IH] using lt_wf_ind. intros l Hn Hasc.
  destruct l as [|a rest]; [reflexivity|].
  cbn [map ranges_loop].
  replace (tl (map RInt rest)) with (map RInt (tl rest)) by (destruct rest; reflexivity).
  destruct (extend_range_ints a (tl rest) 2 (Single (RInt a), 1)) as (m & Hlen & Hnth & Hres).
  rewrite Hres. destruct (Nat.eqb_spec m 0) as [->|Hm].
  - cbn [flat_map range_numbers app Nat.sub]. f_equal.
    apply (IH (List.length rest)); [simpl in Hn; lia | reflexivity | apply Hasc].
  - cbn [flat_map]. rewrite ranges_loop_skip, skipn_map.
    rewrite (IH (List.length (skipn (2 + m - 1) rest)));
      [| rewrite length_skipn; simpl in Hn; lia | reflexivity
       | apply ascending_skipn; apply Hasc].
    destruct rest as [|r0 cands]; [simpl in Hlen; lia|]. cbn [tl] in Hlen, Hnth.
    assert (Hr0 : r0 = (a + 1)%Z).
    { destruct cands as [|c0 cands]; [simpl in Hlen; lia|].
      pose proof (Hnth 0 ltac:(lia)) as H0. cbn [nth] in H0.
      simpl in Hasc. lia. }
    replace (2 + m - 1) with (S m) by lia. cbn [skipn range_numbers].
    replace (Z.to_nat (a + Z.of_nat (S m) - a) + 1) with (S (S m)) by lia.
    cbn [seq map app]. rewrite Z.add_0_r. f_equal.
    rewrite <- (firstn_skipn m cands) at 2. rewrite map_app.
    subst r0. f_equal. f_equal.
    rewrite (firstn_nth_map (fun k => (a + Z.of_nat k)%Z) m cands 2 Hlen Hnth).
    rewrite map_map. reflexivity.
Qed.

Lemma ranges_loop_numbers_witness :
  flat_map range_numbers (ranges_loop 0 (map RInt [3; 4; 7; 8; 9; 10; 11; 13; 14]%Z))
  = map RInt [3; 4; 7; 8; 9; 10; 11; 13; 14]%Z.
Proof.
  apply (ranges_loop_numbers [3; 4; 7; 8; 9; 10; 11; 13; 14]%Z).
  simpl. lia.
Defined.

(** ** The width of the ranges and the exit of [collapse_refs] *)

Lemma extend_range_wide (first : Z) (cands : list refnum) :
  forall k acc, 2 <= k -> wide_range (fst acc) ->
  wide_range (fst (extend_range first cands k acc)).
Proof.
  induction cands as [|[n|s] cands IH]; intros k acc Hk Hacc; simpl; try exact Hacc.
  destruct (Z.eqb_spec (Z.of_nat k) (n - first)) as [Heq|_]; [|exact Hacc].
  apply IH; [lia|]. simpl. lia.
Qed.

(** X9: Whatever the numbers, a range of [convert_to_ranges] holds three numbers
    or more: a pair of numbers in sequence stays two numbers. *)
Theorem ranges_loop_wide (nums : list refnum) :
  forall skip, Forall wide_range (ranges_loop skip nums).
Proof.
  induction nums as [|x nums IH]; intros skip; simpl.
  - constructor.
  - destruct skip as [|k]; [|apply IH].
    destruct x as [n|s].
    + pose proof (extend_range_wide n (tl nums) 2 (Single (RInt n), 1) (le_n 2) I) as Hw.
      destruct (extend_range n (tl nums) 2 (Single (RInt n), 1)) as [num_range next].
      constructor; [exact Hw | apply IH].
    + constructor; [exact I | apply IH].
Qed.

Lemma match_prefix_end (s : string) (c : ascii) :
  is_prefix_end c = true -> match_prefix (String c s) <> None.
Proof.
  intros Hc. simpl. unfold is_prefix_char. rewrite Hc. simpl.
  destruct (match_prefix s) as [[p rest]|]; discriminate.
Qed.

(** [PART_REF_REGEX] is found nowhere in a reference exactly when the
    reference has no letter and none of the special characters. *)
Lemma part_ref_search_None (ref : string) :
  part_ref_search ref = None
  <-> all_chars (fun c => negb (is_prefix_end c)) ref = true.
Proof.
  induction ref as [|c ref IH].
  - simpl. split; reflexivity.
  - cbn [part_ref_search all_chars]. split.
    + intros H. destruct (match_prefix (String c ref)) as [[p rest]|] eqn:Hm;
        [discriminate H|].
      apply andb_true_intro. split; [|apply IH; exact H].
      destruct (is_prefix_end c) eqn:Hc; [|reflexivity].
      exfalso. apply (match_prefix_end ref c Hc). exact Hm.
    + intros H. apply andb_prop in H. destruct H as [Hc Hrest].
      apply negb_true_iff in Hc.
      assert (Hm : match_prefix (String c ref) = None).
      { simpl. destruct (is_prefix_char c); [|reflexivity].
        rewrite Hc.
        assert (Hsub : forall s, all_chars (fun c => negb (is_prefix_end c)) s = true ->
                  match_prefix s = None).
        { clear. induction s as [|c0 s IHs]; simpl; intros H; [reflexivity|].
          apply andb_prop in H. destruct H as [Hc0 Hs]. apply negb_true_iff in Hc0.
          destruct (is_prefix_char c0); [|reflexivity].
          rewrite (IHs Hs), Hc0. reflexivity. }
        rewrite (Hsub ref Hrest). reflexivity. }
      rewrite Hm. apply IH. exact Hrest.
Qed.

(** X10: [collapse_refs] exits at the first reference without a letter or a
    special character, with the message of the unrecognized characters,
    whatever the references after it. *)
Theorem collapse_refs_not_recognized (good : list string) (bad : string)
    (rest : list string) :
  (forall ref, In ref good ->
     all_chars (fun c => negb (is_prefix_end c)) ref = false) ->
  all_chars (fun c => negb (is_prefix_end c)) bad = true ->
  collapse_refs (good ++ bad :: rest)%list
  = Raise (SystemExit (NotRecognizedCharacters bad)).
Proof.
  intros Hgood Hbad. unfold collapse_refs. rewrite foldM_app.
  assert (Hfold : forall d, exists d',
            foldM (fun d ref =>
                     match part_ref_search ref with
                     | Some (prefix, num) => Ok (setdefault_append d prefix num)
                     | None => Raise (SystemExit (NotRecognizedCharacters ref))
                     end) good d = Ok d').
  { induction good as [|g good IH]; intros d; simpl; [eauto|].
    destruct (part_ref_search g) as [[p n]|] eqn:Hg.
    - simpl. apply IH. intros ref Href. apply Hgood. right. exact Href.
    - apply part_ref_search_None in Hg.
      rewrite (Hgood g (or_introl eq_refl)) in Hg. discriminate Hg. }
  destruct (Hfold []) as (d' & Hd'). rewrite Hd'. simpl.
  apply part_ref_search_None in Hbad. rewrite Hbad. reflexivity.
Qed.

Lemma collapse_refs_not_recognized_witness :
  collapse_refs ["R1"; "R2"; "123"; "R#"]
  = Raise (SystemExit (NotRecognizedCharacters "123")).
Proof.
  apply (collapse_refs_not_recognized ["R1"; "R2"] "123" ["R#"]).
  - intros ref [<-|[<-|[]]]; reflexivity.
  - reflexivity.
Defined.

(** ** References without a number *)

Lemma mapM_raise {A B} (e : exn) (f : A -> result B) (l : list A) :
  (forall x, In x l -> (exists y, f x = Ok y) \/ f x = Raise e) ->
  (exists x, In x l /\ f x = Raise e) ->
  mapM f l = Raise e.
Proof.
  induction l as [|x l IH]; intros Hall (x0 & Hin & Hx0).
  - destruct Hin.
  - simpl. destruct (Hall x (or_introl eq_refl)) as [(y & Hy)|Hr].
    + rewrite Hy. simpl. rewrite IH; [reflexivity| |].
      * intros z Hz. apply Hall. right. exact Hz.
      * destruct Hin as [<-|Hin]; [congruence|]. exists x0. split; assumption.
    + rewrite Hr. reflexivity.
Qed.

Lemma mapM_Ok_or_raise {A B} (e : exn) (f : A -> result B) (l : list A) :
  (forall x, In x l -> (exists y, f x = Ok y) \/ f x = Raise e) ->
  (exists l', mapM f l = Ok l') \/ mapM f l = Raise e.
Proof.
  induction l as [|x l IH]; intros Hall; simpl.
  - left. eauto.
  - destruct (Hall x (or_introl eq_refl)) as [(y & Hy)|Hr].
    + rewrite Hy. simpl.
      destruct IH as [(l' & Hl')|Hr]; [intros z Hz; apply Hall; right; exact Hz | |].
      * rewrite Hl'. left. simpl. eauto.
      * rewrite Hr. right. reflexivity.
    + rewrite Hr. right. reflexivity.
Qed.

Lemma dict_get_Some_In {V} (d : dict V) (k : string) (v : V) :
  dict_get d k = Some v -> In (k, v) d.
Proof.
  induction d as [|[k0 v0] d IH]; simpl; intros H; [discriminate H|].
  destruct (String.eqb_spec k0 k) as [->|_].
  - inversion H; subst. left. reflexivity.
  - right. apply IH. exact H.
Qed.

(** [convert_to_ranges] returns or raises [AttributeError]; it raises when
    a text has no digit at its head. *)
Lemma convert_to_ranges_cases (nums : list string) :
  (exists r, convert_to_ranges nums = Ok r) \/ convert_to_ranges nums = Raise AttributeError.
Proof.
  unfold convert_to_ranges.
  destruct (mapM_Ok_or_raise AttributeError
              (fun n => k <- get_refnum n ;; Ok (k, n)) nums) as [(l & Hl)|Hr].
  - intros n _. unfold get_refnum. destruct (match_digits n) as [[d r]|]; simpl; eauto.
  - rewrite Hl. simpl. left. eauto.
  - rewrite Hr. right. reflexivity.
Qed.

Lemma convert_to_ranges_no_digit (nums : list string) :
  In "" nums -> convert_to_ranges nums = Raise AttributeError.
Proof.
  intros Hin. unfold convert_to_ranges.
  rewrite (mapM_raise AttributeError (fun n => k <- get_refnum n ;; Ok (k, n)) nums).
  - reflexivity.
  - intros n _. unfold get_refnum. destruct (match_digits n) as [[d r]|]; simpl; eauto.
  - exists "". split; [exact Hin | reflexivity].
Qed.

Lemma setdefault_append_new (d : dict (list string)) (k x : string) :
  exists l, dict_get (setdefault_append d k x) k = Some l /\ In x l.
Proof.
  unfold setdefault_append. destruct (dict_get d k) as [l|].
  - exists (l ++ [x])%list. rewrite dict_get_set, String.eqb_refl.
    split; [reflexivity | apply in_or_app; right; left; reflexivity].
  - exists [x]. rewrite dict_get_set, String.eqb_refl.
    split; [reflexivity | left; reflexivity].
Qed.

Lemma setdefault_append_keep (d : dict (list string)) (k x p n : string) :
  (exists l, dict_get d p = Some l /\ In n l) ->
  exists l, dict_get (setdefault_append d k x) p = Some l /\ In n l.
Proof.
  intros (l & Hl & Hn). destruct (String.eqb_spec k p) as [->|Hneq].
  - unfold setdefault_append. rewrite Hl. exists (l ++ [x])%list.
    rewrite dict_get_set, String.eqb_refl.
    split; [reflexivity | apply in_or_app; left; exact Hn].
  - exists l. split; [|exact Hn]. unfold setdefault_append.
    destruct (dict_get d k); rewrite dict_get_set;
      (destruct (String.eqb_spec k p); [contradiction | exact Hl]).
Qed.

(** X11: A reference whose prefix goes to its end, or is not followed by a
    digit, has no number: [collapse_refs] then raises [AttributeError], when
    every reference has a letter or a special character. *)
Theorem collapse_refs_without_number (refs : list string) (bad p : string) :
  (forall ref, In ref refs -> part_ref_search ref <> None) ->
  In bad refs ->
  part_ref_search bad = Some (p, "") ->
  collapse_refs refs = Raise AttributeError.
Proof.
  intros Hall Hin Hbad. unfold collapse_refs.
  assert (Hfold : forall refs0 d,
            (forall ref, In ref refs0 -> part_ref_search ref <> None) ->
            exists d',
              foldM (fun d ref =>
                       match part_ref_search ref with
                       | Some (prefix, num) => Ok (setdefault_append d prefix num)
                       | None => Raise (SystemExit (NotRecognizedCharacters ref))
                       end) refs0 d = Ok d'
              /\ ((exists l, dict_get d p = Some l /\ In "" l) \/ In bad refs0 ->
                  exists l, dict_get d' p = Some l /\ In "" l)).
  { induction refs0 as [|r refs0 IH]; intros d Hparse; simpl.
    - exists d. split; [reflexivity|]. intros [H|[]]. exact H.
    - destruct (part_ref_search r) as [[p0 n0]|] eqn:Hr.
      + simpl. destruct (IH (setdefault_append d p0 n0)) as (d' & Hd' & Hhas).
        { intros ref Href. apply Hparse. right. exact Href. }
        exists d'. split; [exact Hd'|]. intros [Hd|[<-|Hrest]].
        * apply Hhas. left. apply setdefault_append_keep. exact Hd.
        * apply Hhas. left. rewrite Hbad in Hr. inversion Hr; subst.
          apply setdefault_append_new.
        * apply Hhas. right. exact Hrest.
      + exfalso. apply (Hparse r (or_introl eq_refl)). exact Hr. }
  destruct (Hfold refs [] Hall) as (d' & Hd' & Hhas). rewrite Hd'. simpl.
  destruct (Hhas (or_intror Hin)) as (l & Hl & Hempty).
  rewrite (mapM_raise AttributeError
             (fun pn : string * list string =>
                r <- convert_to_ranges (snd pn) ;; Ok (fst pn, r)) d').
  - reflexivity.
  - intros [p0 l0] _. simpl.
    destruct (convert_to_ranges_cases l0) as [(r & Hr)|Hr]; rewrite Hr; simpl; eauto.
  - exists (p, l). split; [apply dict_get_Some_In; exact Hl|]. simpl.
    rewrite (convert_to_ranges_no_digit l Hempty). reflexivity.
Qed.

Lemma collapse_refs_without_number_witness :
  collapse_refs ["R1"; "TEST+SUPPLY"; "R2"] = Raise AttributeError.
Proof.
  apply (collapse_refs_without_number ["R1"; "TEST+SUPPLY"; "R2"]
           "TEST+SUPPLY" "TEST+SUPPLY").
  - intros ref [<-|[<-|[<-|[]]]]; vm_compute; discriminate.
  - simpl. auto.
  - vm_compute. reflexivity.
Defined.

(** ** More on the sorter of groups *)

Lemma ref_match_None (ref_identifier : string) (group_refs : list value) :
  forall i, In None group_refs ->
  ref_match ref_identifier i group_refs = Raise AttributeError.
Proof.
  induction group_refs as [|v rest IH]; intros i Hin; simpl.
  - destruct Hin.
  - destruct v as [s|]; simpl; [|reflexivity].
    destruct Hin as [Heq|Hin]; [discriminate Heq|].
    rewrite (IH (S i) Hin). reflexivity.
Qed.

(** X12: A group whose ['reference'] is missing or [None] makes [groups_sort]
    raise [AttributeError]: [None] has no [lower]. *)
Theorem groups_sort_none_reference (groups : list IdenticalComponents)
    (grp : IdenticalComponents) :
  (forall g, In g groups -> fields g <> None) ->
  In grp groups ->
  group_field grp "reference" = Ok None ->
  groups_sort groups = Raise AttributeError.
Proof.
  intros Hfields Hin Hnone. unfold groups_sort, groups_sort_by.
  destruct (mapM_exists (fun g => group_field g "reference") groups) as (group_refs & Hrefs).
  { intros g Hg. unfold group_field. pose proof (Hfields g Hg) as Hf.
    destruct (fields g); [eauto | contradiction]. }
  rewrite Hrefs. cbn [bind].
  assert (Hin' : In None group_refs).
  { clear - Hrefs Hin Hnone. revert group_refs Hrefs.
    induction groups as [|g groups IH]; intros group_refs Hrefs; simpl in Hrefs.
    - destruct Hin.
    - apply bind_Ok in Hrefs. destruct Hrefs as (v & Hv & Hrefs).
      apply bind_Ok in Hrefs. destruct Hrefs as (vs & Hvs & Hrefs).
      inversion Hrefs; subst. destruct Hin as [<-|Hin].
      + left. congruence.
      + right. apply IH; assumption. }
  destruct ref_identifiers as [|id ids] eqn:E; [vm_compute in E; discriminate E|].
  cbn [foldM]. unfold sort_step at 1.
  rewrite (ref_match_None id group_refs 0 Hin'). reflexivity.
Qed.

(** ** More on the splitter of sub-parts *)

Lemma dict_set_new {V} (d : dict V) (k : string) (v : V) :
  ~ In k (keys d) -> dict_set d k v = (d ++ [(k, v)])%list.
Proof.
  unfold keys. induction d as [|[k0 v0] d IH]; simpl; intros Hk.
  - reflexivity.
  - destruct (String.eqb_spec k0 k) as [->|_]; [contradiction Hk; left; reflexivity|].
    rewrite IH; [reflexivity|]. intros Hin. apply Hk. right. exact Hin.
Qed.

Section SplitMore.

Variable dd : list string.               (* [distributor_dict] *)

Lemma find_codes_none (part : record) :
  (forall f, In f (dist dd) -> dict_get part f = None) ->
  find_codes dd part = Ok (0, []).
Proof.
  unfold find_codes. generalize (dist dd), (0, @nil (string * list string)).
  intros l. induction l as [|f l IH]; intros st Hnone; simpl.
  - reflexivity.
  - destruct st as [q founded]. rewrite (Hnone f (or_introl eq_refl)). simpl.
    apply IH. intros f' Hf'. apply Hnone. right. exact Hf'.
Qed.

(** X13: The parts without a field of codes go through [subpart_split] as they
    are: when no part has one, the function returns its input. *)
Theorem subpart_split_no_codes (components : dict record) :
  NoDup (keys components) ->
  (forall ref part f, In (ref, part) components -> In f (dist dd) ->
     dict_get part f = None) ->
  subpart_split dd components = Ok components.
Proof.
  intros Hnd Hnone.
  assert (Hfold : forall items acc p_manf,
            NoDup (keys (acc ++ items)%list) ->
            (forall ref part f, In (ref, part) items -> In f (dist dd) ->
               dict_get part f = None) ->
            foldM (split_part_try dd) items (acc, p_manf)
            = Ok ((acc ++ items)%list, p_manf)).
  { induction items as [|[ref part] items IH]; intros acc p_manf Hnd' Hitems; simpl.
    - rewrite app_nil_r. reflexivity.
    - unfold split_part_try at 1, split_part. simpl.
      rewrite (find_codes_none part) by (intros f Hf; apply (Hitems ref part f);
                                          [left; reflexivity | exact Hf]).
      simpl. rewrite dict_set_new.
      + rewrite IH.
        * rewrite <- app_assoc. reflexivity.
        * rewrite <- app_assoc. exact Hnd'.
        * intros r p f Hin Hf. apply (Hitems r p f); [right; exact Hin | exact Hf].
      + unfold keys in *. rewrite map_app in Hnd'. simpl in Hnd'.
        apply NoDup_remove_2 in Hnd'. intros Hin. apply Hnd'.
        apply in_or_app. left. exact Hin. }
  pose proof (Hfold components [] None Hnd Hnone) as H. cbn [app] in H.
  apply (f_equal (fun r => bind r (fun st => Ok (fst st)))) in H. exact H.
Qed.

Lemma find_codes_founded (part : record) (n : nat)
    (founded : list (string * list string)) :
  find_codes dd part = Ok (n, founded) -> 0 < n -> founded <> [].
Proof.
  intros H Hn Hnil. subst founded. apply find_codes_none_founded in H. lia.
Qed.

(** X14: The mark [~] as the first name of the manufacturer of the first part
    with several sub-parts has no name to stand for: [subpart_split] raises
    [UnboundLocalError]. *)
Theorem subpart_split_replicate_unbound (components : dict record)
    (part_ref : string) (part : record) (n : nat)
    (founded : list (string * list string)) (subparts_manf : list string)
    (v : value) :
  find_codes dd part = Ok (n, founded) ->
  1 < n ->
  dict_get part "value" = Some v ->
  split_manf part n = Ok subparts_manf ->
  nth_error subparts_manf 0 = Some REPLICATE_MANF ->
  subpart_split dd ((part_ref, part) :: components) = Raise UnboundLocalError.
Proof.
  intros Hfind Hn Hvalue Hmanf Hfirst. unfold subpart_split. cbn [foldM].
  unfold split_part_try at 1, split_part. cbn [fst snd]. rewrite Hfind. cbn [bind].
  destruct founded as [|fc founded].
  - exfalso. apply (find_codes_founded part n [] Hfind); [lia | reflexivity].
  - rewrite Hmanf. cbn [bind]. apply Nat.ltb_lt in Hn. rewrite Hn. rewrite Hvalue.
    apply Nat.ltb_lt in Hn. destruct n as [|n]; [lia|].
    cbn [seq foldM]. unfold add_subpart at 1. rewrite Hfirst.
    reflexivity.
Qed.

End SplitMore.

Lemma groups_sort_none_reference_witness :
  groups_sort
    [ {| refs := ["R1"]; manf_nums := [None];
         fields := Some [("reference", Some "R")] |};
      {| refs := ["X1"]; manf_nums := [None]; fields := Some [("value", Some "x")] |} ]
  = Raise AttributeError.
Proof.
  apply (groups_sort_none_reference _
           {| refs := ["X1"]; manf_nums := [None];
              fields := Some [("value", Some "x")] |}).
  - intros g [<-|[<-|[]]]; discriminate.
  - simpl. auto.
  - reflexivity.
Defined.

Lemma subpart_split_no_codes_witness :
  subpart_split ["digikey"; "mouser"]
    [ ("R1", [("value", Some "10k")]); ("TP1", [("footprint", Some "pad")]) ]
  = Ok [ ("R1", [("value", Some "10k")]); ("TP1", [("footprint", Some "pad")]) ].
Proof.
  apply (subpart_split_no_codes ["digikey"; "mouser"]).
  - repeat constructor; simpl; intuition discriminate.
  - intros ref part f [Heq|[Heq|[]]] Hf; inversion Heq; subst;
      simpl in Hf; destruct Hf as [<-|[<-|[<-|[]]]]; reflexivity.
Defined.

Lemma subpart_split_replicate_unbound_witness :
  subpart_split ["digikey"; "mouser"]
    [ ("U1", [("value", Some "4x10k"); ("manf#", Some "A;B"); ("manf", Some "~;Foo")]) ]
  = Raise UnboundLocalError.
Proof.
  apply (subpart_split_replicate_unbound ["digikey"; "mouser"] [] "U1"
           [("value", Some "4x10k"); ("manf#", Some "A;B"); ("manf", Some "~;Foo")]
           2 [("manf#", ["A"; "B"])] ["~"; "Foo"] (Some "4x10k")).
  - vm_compute. reflexivity.
  - lia.
  - reflexivity.
  - vm_compute. reflexivity.
  - reflexivity.
Defined.

(** ** The designators of the sub-parts *)

Lemma str_nat_inj (a b : nat) : str_nat a = str_nat b -> a = b.
Proof.
  unfold str_nat. intros H.
  assert (Hnn : forall n, Nat.to_uint n <> Decimal.Nil).
  { intros n. rewrite <- (DecimalNat.Unsigned.of_to n) at 1.
    rewrite DecimalNat.Unsigned.to_of. apply DecimalFacts.unorm_nonnil. }
  apply DecimalNat.Unsigned.to_uint_inj.
  pose proof (NilZero.usu (Nat.to_uint a) (Hnn a)) as Ha.
  pose proof (NilZero.usu (Nat.to_uint b) (Hnn b)) as Hb.
  rewrite H in Ha. rewrite Ha in Hb. inversion Hb. reflexivity.
Qed.

Lemma append_inj_l (p a b : string) : p ++ a = p ++ b -> a = b.
Proof.
  induction p as [|c p IH]; simpl; intros H; [exact H|].
  inversion H. apply IH. assumption.
Qed.

Section SplitDesignators.

Variable dd : list string.               (* [distributor_dict] *)

Lemma split_manf_length (part : record) (n : nat) (subparts_manf : list string) :
  split_manf part n = Ok subparts_manf -> n <= List.length subparts_manf.
Proof.
  unfold split_manf. destruct (dict_get part "manf") as [v|].
  - intros H. apply bind_Ok in H. destruct H as (sm & _ & H).
    destruct (Nat.eqb_spec (List.length sm) n) as [Heq|_].
    + inversion H; subst. lia.
    + destruct (Nat.eqb (List.length sm) 1); inversion H; subst.
      * rewrite repeat_length. lia.
      * rewrite length_app, repeat_length. lia.
  - intros H. inversion H; subst. rewrite repeat_length. lia.
Qed.

(** X15: A part with several sub-parts and a ['value'] gives one part for each
    sub-part, under the designators [ref#1] to [ref#N] in this order, when the
    first name of the manufacturer is not the mark [~]. *)
Theorem subpart_split_designators (part_ref : string) (part : record) (n : nat)
    (founded : list (string * list string)) (subparts_manf : list string)
    (v : value) :
  find_codes dd part = Ok (n, founded) ->
  1 < n ->
  dict_get part "value" = Some v ->
  split_manf part n = Ok subparts_manf ->
  nth_error subparts_manf 0 <> Some REPLICATE_MANF ->
  exists splitted,
    subpart_split dd [(part_ref, part)] = Ok splitted
    /\ keys splitted
       = map (fun i => part_ref ++ SUB_SEPRTR ++ str_nat (i + 1)) (seq 0 n).
Proof.
  intros Hfind Hn Hvalue Hmanf Hfirst.
  pose proof (split_manf_length part n subparts_manf Hmanf) as Hlen.
  assert (Hloop : forall len s (acc : dict record) p_manf,
            s + len <= n ->
            keys acc = map (fun i => part_ref ++ SUB_SEPRTR ++ str_nat (i + 1)) (seq 0 s) ->
            (0 < s -> p_manf <> None) ->
            exists acc' p_manf',
              foldM (add_subpart part_ref part v n founded subparts_manf)
                    (seq s len) (acc, p_manf) = Ok (acc', p_manf')
              /\ keys acc'
                 = map (fun i => part_ref ++ SUB_SEPRTR ++ str_nat (i + 1))
                       (seq 0 (s + len))).
  { induction len as [|len IH]; intros s acc p_manf Hs Hkeys Hp; cbn [seq foldM].
    - exists acc, p_manf. split; [reflexivity|]. rewrite Nat.add_0_r. exact Hkeys.
    - unfold add_subpart at 1.
      destruct (nth_error subparts_manf s) as [m|] eqn:Hm;
        [|apply nth_error_None in Hm; lia].
      assert (Hbound : exists name,
                (if String.eqb m REPLICATE_MANF then p_manf else Some m) = Some name).
      { destruct (String.eqb_spec m REPLICATE_MANF) as [->|_]; [|eauto].
        destruct s as [|s]; [contradiction|].
        destruct p_manf as [name|]; [eauto|]. exfalso. apply Hp; [lia | reflexivity]. }
      destruct Hbound as (name & Hname). rewrite Hname. cbn [bind].
      rewrite dict_set_new.
      + match goal with |- context [foldM _ _ (?a, ?p)] =>
          destruct (IH (S s) a p) as (acc' & p' & Hfold & Hkeys') end.
        * lia.
        * unfold keys in *. rewrite map_app, Hkeys, seq_S, map_app. reflexivity.
        * intros _. discriminate.
        * exists acc', p'. split; [exact Hfold|].
          rewrite Hkeys'. f_equal. f_equal. lia.
      + rewrite Hkeys. intros Hin. apply in_map_iff in Hin.
        destruct Hin as (i & Heq & Hi). apply in_seq in Hi.
        apply append_inj_l, append_inj_l, str_nat_inj in Heq. lia. }
  unfold subpart_split. cbn [foldM].
  unfold split_part_try at 1, split_part. cbn [fst snd]. rewrite Hfind. cbn [bind].
  destruct founded as [|fc founded].
  - apply find_codes_none_founded in Hfind. lia.
  - rewrite Hmanf. cbn [bind]. apply Nat.ltb_lt in Hn. rewrite Hn, Hvalue.
    destruct (Hloop n 0 [] None) as (acc' & p' & Hfold & Hkeys).
    + lia.
    + reflexivity.
    + intros H0. lia.
    + match goal with |- context [foldM ?f ?l ?s] =>
        assert (E : foldM f l s = Ok (acc', p')) by exact Hfold; rewrite E end.
      exists acc'. split; [reflexivity | exact Hkeys].
Qed.

End SplitDesignators.

Lemma subpart_split_designators_witness :
  exists splitted,
    subpart_split ["digikey"; "mouser"]
      [ ("U1", [("value", Some "4x10k"); ("manf#", Some "A;B;C")]) ] = Ok splitted
    /\ keys splitted
       = map (fun i => "U1" ++ SUB_SEPRTR ++ str_nat (i + 1)) (seq 0 3).
Proof.
  apply (subpart_split_designators ["digikey"; "mouser"] "U1"
           [("value", Some "4x10k"); ("manf#", Some "A;B;C")]
           3 [("manf#", ["A"; "B"; "C"])] [""; ""; ""] (Some "4x10k")).
  - vm_compute. reflexivity.
  - lia.
  - reflexivity.
  - vm_compute. reflexivity.
  - simpl. discriminate.
Defined.

(** ** More on the merge of fields *)

Lemma distinct_spec (l : list string) :
  NoDup (distinct l) /\ forall x, In x (distinct l) <-> In x l.
Proof.
  unfold distinct.
  assert (H : forall acc, NoDup acc ->
            NoDup (fold_left (fun acc x => if mem_string x acc then acc
                                           else (acc ++ [x])%list) l acc)
            /\ forall x, In x (fold_left (fun acc x => if mem_string x acc then acc
                                                       else (acc ++ [x])%list) l acc)
                         <-> In x acc \/ In x l).
  { induction l as [|y l IH]; intros acc Hacc; simpl.
    - split; [exact Hacc | intros x; tauto].
    - destruct (mem_string y acc) eqn:Hmem.
      + destruct (IH acc Hacc) as [H1 H2]. split; [exact H1|].
        intros x. rewrite H2. apply mem_string_In in Hmem.
        split; [tauto | intros [H|[<-|H]]; auto].
      + assert (Hy : ~ In y acc).
        { intros Hin. apply mem_string_In in Hin. congruence. }
        destruct (IH (acc ++ [y])%list) as [H1 H2].
        * apply NoDup_app; [exact Hacc | repeat constructor; simpl; tauto|].
          intros a Ha [<-|[]]. exact (Hy Ha).
        * split; [exact H1|]. intros x. rewrite H2, in_app_iff. simpl. tauto. }
  destruct (H [] (NoDup_nil _)) as [H1 H2]. split; [exact H1|].
  intros x. rewrite H2. simpl. tauto.
Qed.

Lemma set_component_field_get (components : dict record) (r f : string) (v : value)
    (r' : string) :
  get_field (component (set_component_field components r f v) r') f
  = if String.eqb r r' then v else get_field (component components r') f.
Proof.
  unfold set_component_field, component at 1. rewrite dict_get_set.
  destruct (String.eqb r r'); [|reflexivity].
  rewrite get_field_set, String.eqb_refl. reflexivity.
Qed.

Lemma set_fields_get (refs0 : list string) (f : string) (v : value) :
  forall (components : dict record) (r : string),
  get_field (component (fold_left (fun components r =>
                                     set_component_field components r f v)
                                  refs0 components) r) f
  = if mem_string r refs0 then v else get_field (component components r) f.
Proof.
  induction refs0 as [|r0 refs0 IH]; intros components r; simpl.
  - reflexivity.
  - rewrite IH, set_component_field_get.
    rewrite (String.eqb_sym r r0).
    destruct (String.eqb r0 r); simpl; [|reflexivity].
    destruct (mem_string r refs0); reflexivity.
Qed.

(** X16: After the merge of a field in a group, the members of the group have
    the same value for the field, an absent field and [None] taken as
    the empty string. *)
Theorem merge_field_agree (SEPRTR : string) (grp_refs : list string)
    (components components' : dict record) (f : string) :
  merge_field SEPRTR grp_refs components f = Ok components' ->
  forall r1 r2, In r1 grp_refs -> In r2 grp_refs ->
    or_empty (get_field (component components' r1) f)
    = or_empty (get_field (component components' r2) f).
Proof.
  unfold merge_field. intros H r1 r2 H1 H2.
  match type of H with (if Nat.ltb 1 (List.length ?o) then _ else _) = _ =>
    destruct (Nat.ltb_spec 1 (List.length o)) as [Hlt|Hge] end.
  - apply bind_Ok in H. destruct H as (lines & _ & H). inversion H; subst. clear H.
    rewrite !set_fields_get.
    apply mem_string_In in H1. apply mem_string_In in H2. rewrite H1, H2. reflexivity.
  - inversion H; subst. clear H. rewrite length_map in Hge.
    set (values := map (fun r => or_empty (get_field (component components' r) f))
                       (distinct grp_refs)) in *.
    destruct (distinct_spec values) as [Hnd Hin].
    destruct (distinct_spec grp_refs) as [_ Hrefs].
    assert (Hv : forall r, In r grp_refs ->
              In (or_empty (get_field (component components' r) f)) (distinct values)).
    { intros r Hr. apply Hin. unfold values.
      apply (in_map (fun r => or_empty (get_field (component components' r) f))).
      apply Hrefs. exact Hr. }
    pose proof (Hv r1 H1) as V1. pose proof (Hv r2 H2) as V2.
    destruct (distinct values) as [|x [|y l]]; simpl in Hge.
    + destruct V1.
    + destruct V1 as [<-|[]], V2 as [<-|[]]. reflexivity.
    + lia.
Qed.

Lemma merge_field_agree_witness :
  let components : dict record :=
    [ ("R1", [("value", Some "10k"); ("desc", Some "pull-up")]);
      ("R2", [("value", Some "10k"); ("desc", Some "divider")]);
      ("R3", [("value", Some "10k")]) ] in
  exists components',
    merge_field ":" ["R1"; "R2"; "R3"] components "desc" = Ok components'
    /\ forall r1 r2, In r1 ["R1"; "R2"; "R3"] -> In r2 ["R1"; "R2"; "R3"] ->
         or_empty (get_field (component components' r1) "desc")
         = or_empty (get_field (component components' r2) "desc").
Proof.
  intros components. eexists. split; [vm_compute; reflexivity|].
  apply (merge_field_agree ":" ["R1"; "R2"; "R3"] components).
  vm_compute. reflexivity.
Defined.

(** ** The order of the sorted groups *)

Lemma filter_and {A} (P Q : A -> bool) (l : list A) :
  filter P (filter Q l) = filter (fun x => Q x && P x) l.
Proof.
  induction l as [|a l IH]; simpl; [reflexivity|].
  destruct (Q a); simpl; [|exact IH].
  destruct (P a); simpl; congruence.
Qed.

Lemma filter_all {A} (P : A -> bool) (l : list A) :
  (forall x, In x l -> P x = true) -> filter P l = l.
Proof.
  induction l as [|a l IH]; intros H; simpl; [reflexivity|].
  rewrite (H a (or_introl eq_refl)). f_equal. apply IH.
  intros x Hx. apply H. right. exact Hx.
Qed.

Lemma list_remove_filter (x : nat) (l : list nat) :
  NoDup l -> In x l ->
  list_remove x l = Some (filter (fun y => negb (Nat.eqb y x)) l).
Proof.
  induction l as [|y l IH]; intros Hnd Hin; simpl.
  - destruct Hin.
  - inversion Hnd as [|y' l' Hy Hnd']; subst.
    destruct (Nat.eqb_spec y x) as [Heq|Hneq]; simpl.
    + subst y. f_equal. symmetry. apply filter_all. intros z Hz.
      destruct (Nat.eqb_spec z x); [subst; contradiction | reflexivity].
    + destruct Hin as [Heq|Hin]; [contradiction|].
      rewrite (IH Hnd' Hin). reflexivity.
Qed.

Lemma remove_items_filter (items l : list nat) :
  NoDup l -> NoDup items -> incl items l ->
  remove_items items l = filter (fun y => negb (existsb (Nat.eqb y) items)) l.
Proof.
  revert l. induction items as [|x items IH]; intros l Hl Hnd Hincl; simpl.
  - symmetry. apply filter_all. reflexivity.
  - inversion Hnd as [|x' items' Hx Hnd']; subst.
    rewrite list_remove_filter; [|exact Hl | apply Hincl; left; reflexivity].
    rewrite IH.
    + rewrite filter_and. apply filter_ext. intros y. rewrite negb_orb. reflexivity.
    + apply NoDup_filter. exact Hl.
    + exact Hnd'.
    + intros y Hy. apply filter_In. split; [apply Hincl; right; exact Hy|].
      destruct (Nat.eqb_spec y x); [subst; contradiction | reflexivity].
Qed.

Lemma existsb_eqb_filter (P : nat -> bool) (l : list nat) (j : nat) :
  In j l -> existsb (Nat.eqb j) (filter P l) = P j.
Proof.
  intros Hin. destruct (P j) eqn:HP.
  - apply existsb_exists. exists j. split; [|apply Nat.eqb_refl].
    apply filter_In. split; assumption.
  - destruct (existsb (Nat.eqb j) (filter P l)) eqn:E; [|reflexivity].
    apply existsb_exists in E. destruct E as (k & Hk & Hjk).
    apply Nat.eqb_eq in Hjk. subst k. apply filter_In in Hk. destruct Hk. congruence.
Qed.

Lemma ref_match_filter (id : string) (rs : list string) : forall i,
  ref_match id i (map Some rs)
  = Ok (map (fun k => i + k)
            (filter (fun k => String.eqb id (lower (nth k rs EmptyString)))
                    (seq 0 (List.length rs)))).
Proof.
  induction rs as [|r rs IH]; intros i.
  - reflexivity.
  - cbn [map ref_match value_lower bind]. rewrite IH. cbn [bind List.length seq].
    rewrite <- seq_shift. cbn [filter nth]. rewrite filter_map_swap. cbn [nth].
    assert (E : forall l, map (fun k => i + k) (map S l) = map (fun k => S i + k) l).
    { intros l. rewrite map_map. apply map_ext. intros k. lia. }
    destruct (String.eqb id (lower r)); cbn [map]; rewrite E.
    + rewrite Nat.add_0_r. reflexivity.
    + reflexivity.
Qed.

Lemma map_nth_filter_seq {A} (P : A -> bool) (d : A) (l : list A) :
  map (fun j => nth j l d) (filter (fun j => P (nth j l d)) (seq 0 (List.length l)))
  = filter P l.
Proof.
  induction l as [|a l IH].
  - reflexivity.
  - cbn [List.length seq filter nth]. rewrite <- seq_shift, filter_map_swap.
    cbn [nth]. destruct (P a); cbn [map nth]; rewrite map_map; cbn [nth];
      rewrite IH; reflexivity.
Qed.

Lemma map_nth_seq {A} (d : A) (l : list A) :
  map (fun j => nth j l d) (seq 0 (List.length l)) = l.
Proof.
  rewrite <- (filter_all (fun _ => true) (seq 0 (List.length l))) by reflexivity.
  rewrite (map_nth_filter_seq (fun _ => true) d l). apply filter_all. reflexivity.
Qed.

Lemma mapM_map {A B} (f : A -> result B) (g : A -> B) (l : list A) :
  (forall x, In x l -> f x = Ok (g x)) -> mapM f l = Ok (map g l).
Proof.
  induction l as [|x l IH]; intros H; simpl; [reflexivity|].
  rewrite (H x (or_introl eq_refl)). simpl. rewrite IH; [reflexivity|].
  intros y Hy. apply H. right. exact Hy.
Qed.

Lemma insert_by_map {A B} (f : A -> B) (lt : B -> B -> bool) (lt' : A -> A -> bool)
    (x : A) (l : list A) :
  (forall y, In y l -> lt' x y = lt (f x) (f y)) ->
  map f (insert_by lt' x l) = insert_by lt (f x) (map f l).
Proof.
  induction l as [|y l IH]; intros H; simpl; [reflexivity|].
  rewrite <- (H y (or_introl eq_refl)).
  destruct (lt' x y); simpl; [reflexivity|].
  rewrite IH; [reflexivity|]. intros z Hz. apply H. right. exact Hz.
Qed.

Lemma sorted_by_map {A B} (f : A -> B) (lt : B -> B -> bool) (lt' : A -> A -> bool)
    (l : list A) :
  (forall a b, In a l -> In b l -> lt' a b = lt (f a) (f b)) ->
  map f (sorted_by lt' l) = sorted_by lt (map f l).
Proof.
  intros H. unfold sorted_by.
  assert (G : forall l0 acc, incl l0 l -> incl acc l ->
            map f (fold_left (fun acc x => insert_by lt' x acc) l0 acc)
            = fold_left (fun acc x => insert_by lt x acc) (map f l0) (map f acc)).
  { induction l0 as [|x l0 IH]; intros acc Hl0 Hacc; simpl; [reflexivity|].
    rewrite IH.
    - rewrite (insert_by_map f lt lt'); [reflexivity|].
      intros y Hy. apply H; [apply Hl0; left; reflexivity | apply Hacc; exact Hy].
    - intros y Hy. apply Hl0. right. exact Hy.
    - intros y Hy. apply (Permutation_in _ (insert_by_perm lt' x acc)) in Hy.
      destruct Hy as [<-|Hy]; [apply Hl0; left; reflexivity | apply Hacc; exact Hy]. }
  apply (G l []); [apply incl_refl | intros y []].
Qed.

Section SortOrder.

Variable groups : list IdenticalComponents.
Variable d : IdenticalComponents.
Hypothesis groups_reference :
  forall g, In g groups ->
    exists f r, fields g = Some f /\ get_field f "reference" = Some r.

Lemma group_refs_values :
  mapM (fun g => group_field g "reference") groups
  = Ok (map Some (map (fun g => or_empty (group_get g "reference")) groups)).
Proof.
  rewrite map_map. apply mapM_map. intros g Hg.
  destruct (groups_reference g Hg) as (f & r & Hf & Hr).
  unfold group_field, group_get. rewrite Hf, Hr. reflexivity.
Qed.

Lemma ref_match_groups (id : string) :
  ref_match id 0 (map Some (map (fun g => or_empty (group_get g "reference")) groups))
  = Ok (filter (fun j => String.eqb id (group_reference (nth j groups d)))
               (seq 0 (List.length groups))).
Proof.
  rewrite ref_match_filter. f_equal. rewrite length_map.
  rewrite (map_ext (fun k => 0 + k) (fun k => k)) by reflexivity. rewrite map_id.
  apply filter_ext_in. intros k Hk. apply in_seq in Hk. unfold group_reference.
  rewrite (nth_indep _ EmptyString (or_empty (group_get d "reference")))
    by (rewrite length_map; lia).
  rewrite (map_nth (fun g => or_empty (group_get g "reference"))). reflexivity.
Qed.

(** A step of the loop over the identifiers: the old order loses the groups
    of the identifier, and the new order gains them in the order of their
    keys. *)
Lemma sort_step_exact (seen : list string) (order_new : list nat) (id : string) :
  ~ In id seen ->
  exists m,
    sort_step groups (map Some (map (fun g => or_empty (group_get g "reference")) groups))
              (filter (fun j => unmatched seen (nth j groups d))
                      (seq 0 (List.length groups)), order_new) id
    = Ok (filter (fun j => unmatched (seen ++ [id]) (nth j groups d))
                 (seq 0 (List.length groups)), (order_new ++ m)%list)
    /\ map (fun j => nth j groups d) m = ordered_class id groups
    /\ forall j, In j m -> j < List.length groups.
Proof.
  intros Hseen. unfold sort_step. rewrite ref_match_groups. cbn [bind].
  set (m := filter (fun j => String.eqb id (group_reference (nth j groups d)))
                   (seq 0 (List.length groups))).
  set (old := filter (fun j => unmatched seen (nth j groups d))
                     (seq 0 (List.length groups))).
  assert (Hm : forall j, In j m ->
            j < List.length groups /\ group_reference (nth j groups d) = id).
  { intros j Hj. apply filter_In in Hj. destruct Hj as [Hj Hid].
    apply in_seq in Hj. apply String.eqb_eq in Hid. split; [lia | congruence]. }
  assert (Hold : remove_items m old
                 = filter (fun j => unmatched (seen ++ [id]) (nth j groups d))
                          (seq 0 (List.length groups))).
  { rewrite remove_items_filter.
    - unfold old. rewrite filter_and. apply filter_ext_in. intros j Hj.
      unfold m. rewrite existsb_eqb_filter by exact Hj.
      unfold unmatched. rewrite existsb_app. cbn [existsb].
      rewrite orb_false_r, negb_orb. reflexivity.
    - apply NoDup_filter, seq_NoDup.
    - apply NoDup_filter, seq_NoDup.
    - intros j Hj. destruct (Hm j Hj) as [Hlt Hid].
      apply filter_In. split; [apply in_seq; lia|].
      unfold unmatched. rewrite Hid.
      destruct (existsb (fun id0 => String.eqb id0 id) seen) eqn:E; [|reflexivity].
      apply existsb_exists in E. destruct E as (x & Hx & Hxid).
      apply String.eqb_eq in Hxid. subst x. contradiction. }
  assert (Hclass : map (fun j => nth j groups d) m
                   = filter (fun g => String.eqb id (group_reference g)) groups).
  { apply (map_nth_filter_seq (fun g => String.eqb id (group_reference g))). }
  destruct (Nat.ltb 0 (List.length m)) eqn:H0.
  - destruct (Nat.ltb 1 (List.length m)) eqn:H1.
    + match goal with |- context [bind (mapM ?f m) _] =>
        rewrite (mapM_map f (fun h => group_get (nth h groups d) "manf#") m) end.
      2:{ intros h Hh. destruct (Hm h Hh) as [Hlt _].
          rewrite (nth_error_nth' groups d Hlt).
          destruct (groups_reference (nth h groups d)) as (f & r & Hf & _).
          { apply nth_In. exact Hlt. }
          unfold group_field, group_get. rewrite Hf. reflexivity. }
      cbn [bind].
      match goal with |- context [bind (mapM ?f m) _] =>
        rewrite (mapM_map f (fun h => refs (nth h groups d)) m) end.
      2:{ intros h Hh. destruct (Hm h Hh) as [Hlt _].
          rewrite (nth_error_nth' groups d Hlt). reflexivity. }
      cbn [bind]. rewrite length_map.
      match goal with |- context [bind (mapM ?f ?l) _] =>
        set (sorted_groups := l);
        rewrite (mapM_map f (fun i => nth i m 0) sorted_groups) end.
      2:{ intros i Hi. unfold sorted_groups in Hi.
          apply (Permutation_in _ (sorted_by_perm _ _)) in Hi. apply in_seq in Hi.
          rewrite (nth_error_nth' m 0) by lia. reflexivity. }
      cbn [bind]. rewrite Hold.
      exists (map (fun i => nth i m 0) sorted_groups).
      split; [reflexivity|]. split.
      * rewrite map_map. unfold ordered_class. rewrite <- Hclass.
        transitivity
          (sorted_by (fun a b => sort_key_ltb (group_key a) (group_key b))
                     (map (fun i => nth (nth i m 0) groups d) (seq 0 (List.length m)))).
        2:{ f_equal. rewrite <- (map_map (fun i => nth i m 0) (fun j => nth j groups d)).
            rewrite map_nth_seq. reflexivity. }
        unfold sorted_groups. apply sorted_by_map.
        intros a b Ha Hb. apply in_seq in Ha, Hb. unfold group_key.
        rewrite (nth_indep _ None (group_get (nth 0 groups d) "manf#"))
          by (rewrite length_map; lia).
        rewrite (nth_indep _ None (group_get (nth 0 groups d) "manf#") (n := b))
          by (rewrite length_map; lia).
        rewrite (nth_indep _ [] (refs (nth 0 groups d)))
          by (rewrite length_map; lia).
        rewrite (nth_indep _ [] (refs (nth 0 groups d)) (n := b))
          by (rewrite length_map; lia).
        rewrite !(map_nth (fun h => group_get (nth h groups d) "manf#")).
        rewrite !(map_nth (fun h => refs (nth h groups d))).
        reflexivity.
      * intros j Hj. apply in_map_iff in Hj. destruct Hj as (i & <- & Hi).
        unfold sorted_groups in Hi.
        apply (Permutation_in _ (sorted_by_perm _ _)) in Hi. apply in_seq in Hi.
        apply Hm. apply nth_In. lia.
    + destruct m as [|h [|h' m']] eqn:Em; simpl in H0, H1; try discriminate.
      cbn [firstn]. rewrite Hold. exists [h]. split; [reflexivity|]. split.
      * unfold ordered_class. rewrite <- Hclass. reflexivity.
      * intros j Hj. apply Hm. exact Hj.
  - destruct m as [|h m'] eqn:Em; simpl in H0; [|discriminate].
    simpl in Hold. rewrite <- Hold. exists []. rewrite app_nil_r.
    split; [reflexivity|]. split.
    + unfold ordered_class. rewrite <- Hclass. reflexivity.
    + intros j [].
Qed.

Lemma sort_loop_exact (identifiers : list string) :
  forall (seen : list string) (order_new : list nat),
  NoDup identifiers ->
  (forall id, In id identifiers -> ~ In id seen) ->
  exists m,
    foldM (sort_step groups
             (map Some (map (fun g => or_empty (group_get g "reference")) groups)))
          identifiers
          (filter (fun j => unmatched seen (nth j groups d))
                  (seq 0 (List.length groups)), order_new)
    = Ok (filter (fun j => unmatched (seen ++ identifiers) (nth j groups d))
                 (seq 0 (List.length groups)), (order_new ++ m)%list)
    /\ map (fun j => nth j groups d) m
       = flat_map (fun id => ordered_class id groups) identifiers
    /\ forall j, In j m -> j < List.length groups.
Proof.
  induction identifiers as [|id identifiers IH];
    intros seen order_new Hnd Hseen; cbn [foldM].
  - exists []. rewrite !app_nil_r. split; [reflexivity|].
    split; [reflexivity | intros j []].
  - inversion Hnd as [|id' ids Hid Hnd']; subst.
    destruct (sort_step_exact seen order_new id) as (m & Hstep & Hmap & Hlt).
    { apply Hseen. left. reflexivity. }
    rewrite Hstep. cbn [bind].
    destruct (IH (seen ++ [id])%list (order_new ++ m)%list Hnd')
      as (m' & Hloop & Hmap' & Hlt').
    { intros x Hx Hin. apply in_app_or in Hin. destruct Hin as [Hin|[<-|[]]].
      - revert Hin. apply Hseen. right. exact Hx.
      - contradiction. }
    rewrite Hloop. exists (m ++ m')%list.
    rewrite <- !app_assoc. split; [reflexivity|]. split.
    + rewrite map_app, Hmap, Hmap'. reflexivity.
    + intros j Hj. apply in_app_or in Hj. destruct Hj as [Hj|Hj]; auto.
Qed.

End SortOrder.

(** X17: [groups_sort] returns the groups of each identifier of [BOM_ORDER], in
    the order of the identifiers and inside one identifier in the order of
    the keys [(manf# is None, refs)], and after them the groups of the other
    references in the order in which they came. *)
Theorem groups_sort_order (groups : list IdenticalComponents) :
  (forall g, In g groups ->
     exists f r, fields g = Some f /\ get_field f "reference" = Some r) ->
  groups_sort groups
  = Ok (flat_map (fun id => ordered_class id groups) ref_identifiers
        ++ filter (unmatched ref_identifiers) groups)%list.
Proof.
  intros Hgroups. unfold groups_sort, groups_sort_by.
  rewrite (group_refs_values groups Hgroups). cbn [bind].
  pose (d := {| refs := []; manf_nums := []; fields := None |}).
  destruct (sort_loop_exact groups d Hgroups ref_identifiers [] [])
    as (m & Hloop & Hmap & Hlt).
  { vm_compute. repeat constructor; simpl; intuition discriminate. }
  { intros id _ []. }
  assert (E : filter (fun j => unmatched [] (nth j groups d)) (seq 0 (List.length groups))
              = seq 0 (List.length groups)).
  { apply filter_all. reflexivity. }
  rewrite E in Hloop. rewrite Hloop. cbn [bind fst snd app].
  rewrite (mapM_map _ (fun j => nth j groups d)).
  - rewrite map_app, Hmap.
    rewrite (map_nth_filter_seq (unmatched ref_identifiers) d groups). reflexivity.
  - intros j Hj. rewrite (nth_error_nth' groups d); [reflexivity|].
    apply in_app_or in Hj. destruct Hj as [Hj|Hj]; [apply Hlt; exact Hj|].
    apply filter_In in Hj. destruct Hj as [Hj _]. apply in_seq in Hj. lia.
Qed.

Lemma groups_sort_order_witness :
  let grp r reference manf :=
    {| refs := r; manf_nums := [];
       fields := Some [("reference", Some reference); ("manf#", manf)] |} in
  let groups :=
    [grp ["R1"] "R" None; grp ["X1"] "ZZ" None; grp ["U2"] "U" None;
     grp ["R3"] "r" (Some "a"); grp ["J1"] "con" None] in
  groups_sort groups
  = Ok (flat_map (fun id => ordered_class id groups) ref_identifiers
        ++ filter (unmatched ref_identifiers) groups)%list.
Proof.
  intros grp groups. apply (groups_sort_order groups).
  intros g [<-|[<-|[<-|[<-|[<-|[]]]]]]; eexists _, _; split; reflexivity.
Defined.

(** ** The order of [sorted] *)

Lemma insert_by_In {A} (lt : A -> A -> bool) (x y : A) (l : list A) :
  In y (insert_by lt x l) -> y = x \/ In y l.
Proof.
  intros H. apply (Permutation_in _ (insert_by_perm lt x l)) in H.
  destruct H as [<-|H]; [left; reflexivity | right; exact H].
Qed.

Lemma insert_by_sorted {A} (lt : A -> A -> bool) (R : A -> A -> Prop) (x : A)
    (l : list A) :
  (forall a b c, R a b -> R b c -> R a c) ->
  (forall y, In y l -> lt x y = true -> R x y) ->
  (forall y, In y l -> lt x y = false -> R y x) ->
  StronglySorted R l -> StronglySorted R (insert_by lt x l).
Proof.
  intros Htrans. induction l as [|y l IH]; intros Hlt Hge Hs; simpl.
  - constructor; constructor.
  - apply StronglySorted_inv in Hs. destruct Hs as [Hs Hy].
    destruct (lt x y) eqn:E.
    + constructor; [constructor; assumption|].
      assert (Hxy : R x y) by (apply Hlt; [left; reflexivity | exact E]).
      constructor; [exact Hxy|].
      rewrite Forall_forall in *. intros z Hz. apply (Htrans x y z Hxy). apply Hy, Hz.
    + constructor.
      * apply IH; [| |exact Hs].
        -- intros z Hz. apply Hlt. right. exact Hz.
        -- intros z Hz. apply Hge. right. exact Hz.
      * rewrite Forall_forall in *. intros z Hz. apply insert_by_In in Hz.
        destruct Hz as [->|Hz]; [|apply Hy, Hz].
        apply Hge; [left; reflexivity | exact E].
Qed.

Lemma sorted_by_sorted {A} (lt : A -> A -> bool) (R : A -> A -> Prop) (l : list A) :
  (forall a b c, R a b -> R b c -> R a c) ->
  (forall l1 x l2 y, l = (l1 ++ x :: l2)%list -> In y l1 -> lt x y = true -> R x y) ->
  (forall l1 x l2 y, l = (l1 ++ x :: l2)%list -> In y l1 -> lt x y = false -> R y x) ->
  StronglySorted R (sorted_by lt l).
Proof.
  intros Htrans Hlt Hge. unfold sorted_by.
  assert (G : forall l0 l1 acc,
            l = (l1 ++ l0)%list -> (forall y, In y acc -> In y l1) ->
            StronglySorted R acc ->
            StronglySorted R (fold_left (fun acc x => insert_by lt x acc) l0 acc)).
  { induction l0 as [|x l0 IH]; intros l1 acc El Hacc Hs; simpl; [exact Hs|].
    apply (IH (l1 ++ [x])%list).
    - rewrite <- app_assoc. exact El.
    - intros y Hy. apply insert_by_In in Hy. apply in_or_app.
      destruct Hy as [->|Hy]; [right; left; reflexivity | left; apply Hacc, Hy].
    - apply insert_by_sorted; [exact Htrans | | | exact Hs].
      + intros y Hy. apply (Hlt l1 x l0 y El). apply Hacc, Hy.
      + intros y Hy. apply (Hge l1 x l0 y El). apply Hacc, Hy. }
  apply (G l [] []); [reflexivity | intros y [] | constructor].
Qed.

Lemma sorted_unique {A} (R : A -> A -> Prop) (l1 : list A) :
  (forall a b c, R a b -> R b c -> R a c) ->
  (forall a, ~ R a a) ->
  forall l2, StronglySorted R l1 -> StronglySorted R l2 -> Permutation l1 l2 ->
  l1 = l2.
Proof.
  intros Htrans Hirr. induction l1 as [|a l1 IH]; intros l2 H1 H2 Hp.
  - apply Permutation_nil in Hp. subst. reflexivity.
  - destruct l2 as [|b l2].
    + apply Permutation_sym, Permutation_nil in Hp. discriminate Hp.
    + apply StronglySorted_inv in H1, H2. destruct H1 as [H1 Ha], H2 as [H2 Hb].
      rewrite Forall_forall in Ha, Hb.
      assert (Eab : a = b).
      { assert (Hin1 : In a (b :: l2))
          by (apply (Permutation_in _ Hp); left; reflexivity).
        assert (Hin2 : In b (a :: l1))
          by (apply (Permutation_in _ (Permutation_sym Hp)); left; reflexivity).
        destruct Hin1 as [Hba|Hin1]; [symmetry; exact Hba|].
        destruct Hin2 as [Hab|Hin2]; [exact Hab|].
        exfalso. apply (Hirr a). apply (Htrans a b a); [apply Ha, Hin2 | apply Hb, Hin1]. }
      subst b. f_equal. apply IH; [exact H1 | exact H2|].
      apply (Permutation_cons_inv Hp).
Qed.

Lemma string_ltb_lt (a b : string) :
  String.ltb a b = true <-> OrderedTypeEx.String_as_OT.lt a b.
Proof.
  rewrite <- OrderedTypeEx.String_as_OT.cmp_lt. unfold String.ltb.
  change (OrderedTypeEx.String_as_OT.cmp a b) with (String.compare a b).
  destruct (String.compare a b); split; intros H; congruence.
Qed.

Lemma string_ltb_trans (a b c : string) :
  String.ltb a b = true -> String.ltb b c = true -> String.ltb a c = true.
Proof.
  rewrite !string_ltb_lt. apply OrderedTypeEx.String_as_OT.lt_trans.
Qed.

Lemma string_ltb_irrefl (a : string) : String.ltb a a = false.
Proof.
  destruct (String.ltb a a) eqn:E; [|reflexivity].
  apply string_ltb_lt in E. apply OrderedTypeEx.String_as_OT.lt_not_eq in E.
  exfalso. apply E. reflexivity.
Qed.

Lemma string_ltb_total (a b : string) :
  String.ltb a b = false -> a <> b -> String.ltb b a = true.
Proof.
  intros H Hneq. apply string_ltb_lt. unfold String.ltb in H.
  destruct (String.compare a b) eqn:E.
  - apply String.compare_eq_iff in E. contradiction.
  - discriminate H.
  - apply OrderedTypeEx.String_as_OT.compare_helper_gt. exact E.
Qed.

Lemma sorted_items_unique {V} (l1 l2 : list (string * V)) :
  NoDup (map fst l1) -> Permutation l1 l2 ->
  sorted_by (fun a b : string * V => String.ltb (fst a) (fst b)) l1
  = sorted_by (fun a b : string * V => String.ltb (fst a) (fst b)) l2.
Proof.
  intros Hnd Hp.
  assert (Hs : forall l : list (string * V), NoDup (map fst l) ->
            StronglySorted (fun a b => String.ltb (fst a) (fst b) = true)
              (sorted_by (fun a b : string * V => String.ltb (fst a) (fst b)) l)).
  { intros l Hl. apply sorted_by_sorted.
    - intros a b c. apply string_ltb_trans.
    - intros l1' x l2' y El Hy Hlt. exact Hlt.
    - intros l1' x l2' y El Hy Hge. apply string_ltb_total; [exact Hge|].
      intros Heq. subst l. rewrite map_app in Hl. simpl in Hl.
      apply NoDup_remove_2 in Hl. apply Hl. apply in_or_app. left.
      rewrite Heq. apply in_map. exact Hy. }
  apply (sorted_unique (fun a b : string * V => String.ltb (fst a) (fst b) = true)).
  - intros a b c. apply string_ltb_trans.
  - intros a H. rewrite string_ltb_irrefl in H. discriminate H.
  - apply Hs. exact Hnd.
  - apply Hs. apply (Permutation_NoDup (Permutation_map fst Hp)). exact Hnd.
  - etransitivity; [apply sorted_by_perm|].
    etransitivity; [exact Hp|]. symmetry. apply sorted_by_perm.
Qed.

Lemma filter_perm {A} (P : A -> bool) (l1 l2 : list A) :
  Permutation l1 l2 -> Permutation (filter P l1) (filter P l2).
Proof.
  induction 1 as [|x l l' _ IH|x y l|l l' l'' _ IH1 _ IH2]; simpl.
  - constructor.
  - destruct (P x); [apply perm_skip|]; exact IH.
  - destruct (P x), (P y); try reflexivity. apply perm_swap.
  - etransitivity; eassumption.
Qed.

Lemma filter_keys_NoDup {V} (P : string * V -> bool) (l : list (string * V)) :
  NoDup (map fst l) -> NoDup (map fst (filter P l)).
Proof.
  induction l as [|kv l IH]; intros Hnd; simpl; [constructor|].
  inversion Hnd as [|k ks Hk Hnd']; subst.
  destruct (P kv); simpl; [|apply IH; exact Hnd'].
  constructor; [|apply IH; exact Hnd'].
  intros Hin. apply Hk. apply in_map_iff in Hin. destruct Hin as (kv' & Hfst & Hin).
  apply filter_In in Hin. destruct Hin as [Hin _].
  rewrite <- Hfst. apply in_map. exact Hin.
Qed.

(** X18: The hash of a part does not depend on the order of its fields: two
    [dict]s with the same items have the same hash. *)
Theorem hash_of_order (dd : list string) (SEPRTR : string)
    (hash : list (string * value) -> Z) (fields_merge : list string)
    (fields1 fields2 : record) :
  NoDup (keys fields1) ->
  Permutation fields1 fields2 ->
  hash_of dd SEPRTR hash fields_merge fields1
  = hash_of dd SEPRTR hash fields_merge fields2.
Proof.
  intros Hnd Hp. unfold hash_of. f_equal. apply sorted_items_unique.
  - apply filter_keys_NoDup. exact Hnd.
  - apply filter_perm. exact Hp.
Qed.

(** In the groups of one reference, in the order of their keys, a group
    without [manf#] is never before a group that has one. *)
Lemma ordered_class_manf_first (id : string) (groups : list IdenticalComponents) :
  StronglySorted (fun a b => group_get a "manf#" = None -> group_get b "manf#" = None)
                 (ordered_class id groups).
Proof.
  unfold ordered_class. apply sorted_by_sorted.
  - intros a b c Hab Hbc Ha. apply Hbc, Hab, Ha.
  - intros l1 x l2 y _ _ Hlt Hx. unfold sort_key_ltb, group_key in Hlt. simpl in Hlt.
    rewrite Hx in Hlt. simpl in Hlt.
    destruct (group_get y "manf#"); [discriminate Hlt | reflexivity].
  - intros l1 x l2 y _ _ Hge Hy. unfold sort_key_ltb, group_key in Hge. simpl in Hge.
    rewrite Hy in Hge. simpl in Hge.
    destruct (group_get x "manf#"); [discriminate Hge | reflexivity].
Qed.

Lemma hash_of_order_witness :
  hash_of ["digikey"; "mouser"] ":" example_hash []
          [("value", Some "10k"); ("footprint", Some "0603")]
  = hash_of ["digikey"; "mouser"] ":" example_hash []
            [("footprint", Some "0603"); ("value", Some "10k")].
Proof.
  apply (hash_of_order ["digikey"; "mouser"] ":" example_hash []).
  - repeat constructor; simpl; intuition discriminate.
  - apply perm_swap.
Defined.

(** ** The groups of one reference in the result of [groups_sort] *)

Lemma ordered_class_reference (id : string) (groups : list IdenticalComponents)
    (g : IdenticalComponents) :
  In g (ordered_class id groups) -> group_reference g = id.
Proof.
  unfold ordered_class. intros H.
  apply (Permutation_in _ (sorted_by_perm _ _)) in H.
  apply filter_In in H. destruct H as [_ H]. apply String.eqb_eq in H.
  symmetry. exact H.
Qed.

Lemma filter_none {A} (P : A -> bool) (l : list A) :
  (forall x, In x l -> P x = false) -> filter P l = [].
Proof.
  induction l as [|x l IH]; intros H; simpl; [reflexivity|].
  rewrite (H x (or_introl eq_refl)). apply IH. intros y Hy. apply H. right. exact Hy.
Qed.

Lemma filter_ordered_class (id id' : string) (groups : list IdenticalComponents) :
  filter (fun g => String.eqb id (group_reference g)) (ordered_class id' groups)
  = if String.eqb id id' then ordered_class id' groups else [].
Proof.
  destruct (String.eqb id id') eqn:E.
  - apply String.eqb_eq in E. subst id'. apply filter_all.
    intros g Hg. rewrite (ordered_class_reference id groups g Hg). apply String.eqb_refl.
  - apply filter_none. intros g Hg.
    rewrite (ordered_class_reference id' groups g Hg). exact E.
Qed.

Lemma filter_classes (id : string) (groups : list IdenticalComponents)
    (identifiers : list string) :
  NoDup identifiers ->
  filter (fun g => String.eqb id (group_reference g))
         (flat_map (fun id' => ordered_class id' groups) identifiers)
  = if in_dec string_dec id identifiers then ordered_class id groups else [].
Proof.
  induction identifiers as [|id' identifiers IH]; intros Hnd; [reflexivity|].
  inversion Hnd as [|x l Hid Hnd']; subst.
  cbn [flat_map]. rewrite filter_app, filter_ordered_class, (IH Hnd').
  destruct (String.eqb id id') eqn:E.
  - apply String.eqb_eq in E. subst id'.
    destruct (in_dec string_dec id identifiers) as [Hin|_]; [contradiction|].
    destruct (in_dec string_dec id (id :: identifiers)) as [_|Hn].
    + apply app_nil_r.
    + exfalso. apply Hn. left. reflexivity.
  - apply String.eqb_neq in E. cbn [app].
    destruct (in_dec string_dec id identifiers) as [Hin|Hn];
      destruct (in_dec string_dec id (id' :: identifiers)) as [Hin'|Hn'];
      try reflexivity; exfalso; simpl in *; intuition congruence.
Qed.

Lemma filter_unmatched (id : string) (groups : list IdenticalComponents)
    (identifiers : list string) :
  In id identifiers ->
  filter (fun g => String.eqb id (group_reference g))
         (filter (unmatched identifiers) groups) = [].
Proof.
  intros Hin. apply filter_none. intros g Hg. apply filter_In in Hg.
  destruct Hg as [_ Hg]. unfold unmatched in Hg. apply negb_true_iff in Hg.
  destruct (String.eqb id (group_reference g)) eqn:E; [|reflexivity].
  assert (H : existsb (fun id0 => String.eqb id0 (group_reference g)) identifiers = true).
  { apply existsb_exists. exists id. split; assumption. }
  rewrite H in Hg. discriminate Hg.
Qed.

Lemma StronglySorted_later {A} (R : A -> A -> Prop) (l1 l2 l3 : list A) (x y : A) :
  StronglySorted R (l1 ++ x :: l2 ++ y :: l3) -> R x y.
Proof.
  induction l1 as [|a l1 IH]; intros H; simpl in H.
  - apply StronglySorted_inv in H. destruct H as [_ H].
    rewrite Forall_forall in H. apply H. apply in_or_app. right. left. reflexivity.
  - apply StronglySorted_inv in H. destruct H as [H _]. apply IH. exact H.
Qed.

(** The result of the sorter for any identifiers without a repetition. *)
Lemma groups_sort_by_classes (identifiers : list string)
    (groups : list IdenticalComponents) :
  NoDup identifiers ->
  (forall g, In g groups ->
     exists f r, fields g = Some f /\ get_field f "reference" = Some r) ->
  groups_sort_by identifiers groups
  = Ok (flat_map (fun id => ordered_class id groups) identifiers
        ++ filter (unmatched identifiers) groups)%list.
Proof.
  intros Hnd Hgroups. unfold groups_sort_by.
  rewrite (group_refs_values groups Hgroups). cbn [bind].
  pose (d := {| refs := []; manf_nums := []; fields := None |}).
  destruct (sort_loop_exact groups d Hgroups identifiers [] [] Hnd)
    as (m & Hloop & Hmap & Hlt).
  { intros id _ []. }
  assert (E : filter (fun j => unmatched [] (nth j groups d)) (seq 0 (List.length groups))
              = seq 0 (List.length groups)).
  { apply filter_all. reflexivity. }
  rewrite E in Hloop. rewrite Hloop. cbn [bind fst snd app].
  rewrite (mapM_map _ (fun j => nth j groups d)).
  - rewrite map_app, Hmap.
    rewrite (map_nth_filter_seq (unmatched identifiers) d groups). reflexivity.
  - intros j Hj. rewrite (nth_error_nth' groups d); [reflexivity|].
    apply in_app_or in Hj. destruct Hj as [Hj|Hj]; [apply Hlt; exact Hj|].
    apply filter_In in Hj. destruct Hj as [Hj _]. apply in_seq in Hj. lia.
Qed.

Lemma ref_identifiers_NoDup : NoDup ref_identifiers.
Proof. vm_compute. repeat constructor; simpl; intuition discriminate. Qed.

(** X19: In the list that [groups_sort] returns, a group without [manf#] is
    never before a group of the same reference that has one, when this
    reference is an identifier of [BOM_ORDER]. *)
Theorem groups_sort_manf_first (groups sorted l1 l2 l3 : list IdenticalComponents)
    (g1 g2 : IdenticalComponents) :
  (forall g, In g groups ->
     exists f r, fields g = Some f /\ get_field f "reference" = Some r) ->
  groups_sort groups = Ok sorted ->
  sorted = (l1 ++ g1 :: l2 ++ g2 :: l3)%list ->
  In (group_reference g1) ref_identifiers ->
  group_reference g2 = group_reference g1 ->
  group_get g1 "manf#" = None ->
  group_get g2 "manf#" = None.
Proof.
  intros Hgroups Hsort Hsorted Hid Href.
  unfold groups_sort in Hsort.
  rewrite (groups_sort_by_classes _ _ ref_identifiers_NoDup Hgroups) in Hsort.
  assert (E : (flat_map (fun id => ordered_class id groups) ref_identifiers
               ++ filter (unmatched ref_identifiers) groups)%list = sorted)
    by congruence.
  clear Hsort.
  pose (P := fun g => String.eqb (group_reference g1) (group_reference g)).
  assert (H : filter P sorted = ordered_class (group_reference g1) groups).
  { rewrite <- E. rewrite filter_app.
    unfold P. rewrite (filter_classes _ _ _ ref_identifiers_NoDup).
    rewrite (filter_unmatched _ _ _ Hid), app_nil_r.
    destruct (in_dec string_dec (group_reference g1) ref_identifiers) as [_|Hn];
      [reflexivity | contradiction]. }
  rewrite Hsorted in H. rewrite filter_app in H. cbn [filter] in H.
  unfold P at 2 in H. rewrite String.eqb_refl in H.
  rewrite filter_app in H. cbn [filter] in H.
  unfold P at 3 in H. rewrite Href, String.eqb_refl in H.
  refine (StronglySorted_later
            (fun a b => group_get a "manf#" = None -> group_get b "manf#" = None)
            (filter P l1) (filter P l2) (filter P l3) g1 g2 _).
  rewrite H. apply ordered_class_manf_first.
Qed.

Lemma groups_sort_manf_first_witness :
  let grp r reference manf :=
    {| refs := r; manf_nums := [];
       fields := Some [("reference", Some reference); ("manf#", manf)] |} in
  let groups :=
    [grp ["R1"] "R" None; grp ["X1"] "ZZ" None; grp ["U2"] "U" None;
     grp ["R3"] "r" (Some "a"); grp ["R2"] "R" None] in
  groups_sort groups
  = Ok ([grp ["U2"] "U" None; grp ["R3"] "r" (Some "a")]
        ++ grp ["R1"] "R" None :: [] ++ grp ["R2"] "R" None :: [grp ["X1"] "ZZ" None])%list
  /\ group_get (grp ["R2"] "R" None) "manf#" = None.
Proof.
  intros grp groups. split; [vm_compute; reflexivity|].
  apply (groups_sort_manf_first groups
           [grp ["U2"] "U" None; grp ["R3"] "r" (Some "a"); grp ["R1"] "R" None;
            grp ["R2"] "R" None; grp ["X1"] "ZZ" None]
           [grp ["U2"] "U" None; grp ["R3"] "r" (Some "a")] [] [grp ["X1"] "ZZ" None]
           (grp ["R1"] "R" None) (grp ["R2"] "R" None)).
  - intros g [<-|[<-|[<-|[<-|[<-|[]]]]]]; eexists _, _; split; reflexivity.
  - vm_compute. reflexivity.
  - reflexivity.
  - vm_compute. tauto.
  - reflexivity.
  - reflexivity.
Defined.

(** ** The branch of a single sub-part *)

Lemma append_last_inj (a b : string) (c1 c2 : ascii) :
  a ++ String c1 EmptyString = b ++ String c2 EmptyString -> a = b /\ c1 = c2.
Proof.
  revert b. induction a as [|x a IH]; intros [|y b] H; simpl in H.
  - inversion H. split; reflexivity.
  - inversion H as [[Hx Hb]]. destruct b; discriminate Hb.
  - inversion H as [[Hx Ha]]. destruct a; discriminate Ha.
  - inversion H as [[Hx Hab]]. destruct (IH b Hab) as [-> ->]. split; reflexivity.
Qed.

Lemma append_cons_assoc (a : string) (c : ascii) (s : string) :
  (a ++ String c EmptyString) ++ s = a ++ String c s.
Proof.
  induction a as [|x a IH]; simpl; [reflexivity|]. rewrite IH. reflexivity.
Qed.

Lemma append_inj_r (s a b : string) : a ++ s = b ++ s -> a = b.
Proof.
  revert a b. induction s as [|c s IH]; intros a b H.
  - rewrite !append_nil_r in H. exact H.
  - rewrite <- (append_cons_assoc a c s), <- (append_cons_assoc b c s) in H.
    apply IH in H.
    apply append_last_inj in H. destruct H as [H _]. exact H.
Qed.

Section SingleSubpart.

Variable dd : list string.               (* [distributor_dict] *)

Lemma dist_not_qty (k k' : string) : In k (dist dd) -> k <> k' ++ "_qty".
Proof.
  intros Hk Heq.
  assert (Hlast : exists a, k = a ++ "#").
  { unfold dist in Hk. apply in_app_or in Hk. destruct Hk as [Hk|[<-|[]]].
    - apply in_map_iff in Hk. destruct Hk as (d0 & <- & _). eauto.
    - exists "manf". reflexivity. }
  destruct Hlast as (a & Ha). rewrite Ha in Heq.
  change (k' ++ "_qty") with (k' ++ String "_" (String "q" (String "t" "y"))) in Heq.
  rewrite <- (append_cons_assoc k' "_"), <- (append_cons_assoc _ "q"),
    <- (append_cons_assoc _ "t") in Heq.
  apply append_last_inj in Heq. destruct Heq as [_ Heq]. discriminate Heq.
Qed.

Lemma find_codes_spec (part : record) (n : nat)
    (founded : list (string * list string)) :
  find_codes dd part = Ok (n, founded) ->
  (forall k codes, In (k, codes) founded ->
     In k (dist dd)
     /\ exists s, dict_get part k = Some (Some s) /\ codes = subpart_list s)
  /\ (forall k s, In k (dist dd) -> dict_get part k = Some (Some s) ->
        In (k, subpart_list s) founded).
Proof.
  unfold find_codes.
  assert (G : forall l n0 fd0 n1 fd1,
            foldM (fun (st : nat * list (string * list string)) field_code =>
                     let '(subparts_qty, founded) := st in
                     match dict_get part field_code with
                     | Some v =>
                         codes <- subpart_list_of v ;;
                         Ok (Nat.max subparts_qty (List.length codes),
                             (founded ++ [(field_code, codes)])%list)
                     | None => Ok st
                     end) l (n0, fd0) = Ok (n1, fd1) ->
            (forall k codes, In (k, codes) fd1 ->
               In (k, codes) fd0
               \/ (In k l /\ exists s, dict_get part k = Some (Some s)
                                       /\ codes = subpart_list s))
            /\ (forall kc, In kc fd0 -> In kc fd1)
            /\ (forall k s, In k l -> dict_get part k = Some (Some s) ->
                  In (k, subpart_list s) fd1)).
  { induction l as [|f l IH]; intros n0 fd0 n1 fd1 H; simpl in H.
    - inversion H; subst. split; [auto|]. split; [auto | intros k s []].
    - destruct (dict_get part f) as [[s0|]|] eqn:Hf; simpl in H; try discriminate H.
      + apply IH in H. destruct H as (H1 & H2 & H3). split; [|split].
        * intros k codes Hin. destruct (H1 k codes Hin) as [Hin0|(Hk & Hs)].
          -- apply in_app_or in Hin0. destruct Hin0 as [Hin0|[Heq|[]]]; [left; exact Hin0|].
             inversion Heq; subst. right. split; [left; reflexivity | eauto].
          -- right. split; [right; exact Hk | exact Hs].
        * intros kc Hkc. apply H2. apply in_or_app. left. exact Hkc.
        * intros k s [<-|Hk] Hs.
          -- rewrite Hf in Hs. inversion Hs; subst. apply H2. apply in_or_app.
             right. left. reflexivity.
          -- apply H3; assumption.
      + apply IH in H. destruct H as (H1 & H2 & H3). split; [|split].
        * intros k codes Hin. destruct (H1 k codes Hin) as [Hin0|(Hk & Hs)];
            [left; exact Hin0 | right; split; [right; exact Hk | exact Hs]].
        * exact H2.
        * intros k s [<-|Hk] Hs; [congruence | apply H3; assumption]. }
  intros H. apply G in H. destruct H as (H1 & _ & H3). split; [|exact H3].
  intros k codes Hin. destruct (H1 k codes Hin) as [[]|H]. exact H.
Qed.



(** X21: A field of codes that holds [None] makes [subpart_split] raise
    [AttributeError]: [None] has no [strip], and the handler only passes
    [KeyError]. *)
Theorem subpart_split_none_code (components : dict record) (part_ref : string)
    (part : record) (k : string) :
  In k (dist dd) ->
  dict_get part k = Some None ->
  subpart_split dd ((part_ref, part) :: components) = Raise AttributeError.
Proof.
  intros Hk Hnone.
  assert (Hfind : find_codes dd part = Raise AttributeError).
  { unfold find_codes. revert Hk. generalize (dist dd), (0, @nil (string * list string)).
    intros l. induction l as [|f l IH]; intros st Hin; [destruct Hin|].
    cbn [foldM]. destruct st as [q fd].
    destruct (dict_get part f) as [[s0|]|] eqn:Hf; cbn [subpart_list_of bind].
    - destruct Hin as [->|Hin]; [congruence | apply IH; exact Hin].
    - reflexivity.
    - destruct Hin as [->|Hin]; [congruence | apply IH; exact Hin]. }
  unfold subpart_split. cbn [foldM]. unfold split_part_try at 1, split_part.
  cbn [fst snd]. rewrite Hfind. reflexivity.
Qed.

End SingleSubpart.


Lemma subpart_split_none_code_witness :
  subpart_split ["digikey"; "mouser"]
    [ ("R1", [("value", Some "10k"); ("mouser#", None)]);
      ("R2", [("value", Some "10k")]) ]
  = Raise AttributeError.
Proof.
  apply (subpart_split_none_code ["digikey"; "mouser"] _ "R1" _ "mouser#").
  - simpl. auto.
  - reflexivity.
Defined.

(** ** The element that a range passes over *)

Lemma extend_range_from (first : Z) (cands : list refnum) :
  forall k n next, (n - first < Z.of_nat k)%Z ->
  exists last next',
    extend_range first cands k (Range first n, next) = (Range first last, next')
    /\ (n <= last)%Z.
Proof.
  induction cands as [|[m|s] cands IH]; intros k n next Hn; simpl.
  - exists n, next. split; [reflexivity | lia].
  - destruct (Z.eqb_spec (Z.of_nat k) (m - first)) as [Heq|_].
    + destruct (IH (S k) m (S k)) as (last & next' & H & Hlast); [lia|].
      exists last, next'. split; [exact H | lia].
    + exists n, next. split; [reflexivity | lia].
  - exists n, next. split; [reflexivity | lia].
Qed.

(** X23: The loop of [convert_to_ranges] never looks at the element right after
    the start of a range: whatever stands between [a] and [a + 2], a
    sub-part reference or a number out of sequence, the range that starts at
    [a] goes to [a + 2] or further and takes the place of that element. *)
Theorem ranges_loop_passes_over (a : Z) (x : refnum) (rest : list refnum) :
  exists last tail,
    ranges_loop 0 (RInt a :: x :: RInt (a + 2) :: rest) = Range a last :: tail
    /\ (a + 2 <= last)%Z.
Proof.
  cbn [ranges_loop tl extend_range].
  replace (Z.of_nat 2 =? a + 2 - a)%Z with true by (symmetry; apply Z.eqb_eq; lia).
  destruct (extend_range_from a rest 3 (a + 2)%Z 3) as (last & next & H & Hlast); [lia|].
  rewrite H. exists last. eexists. split; [reflexivity | exact Hlast].
Qed.

(** ** The escape of the separator of the quantity *)

Lemma esc_sub_plain_head (a s : string) :
  all_chars (fun c => negb (Ascii.eqb c backslash)) a = true ->
  esc_sub 0 (a ++ s) = a ++ esc_sub 0 s.
Proof.
  induction a as [|c a IH]; simpl; intros H; [reflexivity|].
  apply andb_prop in H. destruct H as [Hc Ha].
  destruct (Ascii.eqb c backslash); [discriminate Hc|].
  rewrite (IH Ha). reflexivity.
Qed.

Lemma sep_match_colon (b : string) :
  take_while is_space b = "" ->
  sep_match is_any_sep (String ":" b) = Some (":"%char, 1).
Proof.
  intros Hb. unfold sep_match.
  replace (take_while is_space (String ":" b)) with "" by reflexivity.
  cbn [String.length drop]. replace (is_any_sep ":") with true by reflexivity.
  rewrite Hb. reflexivity.
Qed.

(** X24: A backslash before the [':'] of a code does not keep the colon: the
    decoder removes the backslash first and then splits at the colon, so the
    escaped string is decoded as the plain one. *)
Theorem manf_code_qtypart_escaped_colon (a b : string) :
  all_chars (fun c => negb (Ascii.eqb c backslash)) a = true ->
  take_while is_space b = "" ->
  manf_code_qtypart (a ++ "\:" ++ b) = manf_code_qtypart (a ++ ":" ++ b).
Proof.
  intros Ha Hb. unfold manf_code_qtypart.
  assert (E : esc_sub 0 (a ++ "\:" ++ b) = esc_sub 0 (a ++ ":" ++ b)).
  { rewrite (esc_sub_plain_head a ("\:" ++ b) Ha), (esc_sub_plain_head a (":" ++ b) Ha).
    f_equal.
    change ("\:" ++ b) with (String backslash (String ":" b)).
    change (":" ++ b) with (String ":" b).
    cbn [esc_sub]. rewrite Ascii.eqb_refl, (sep_match_colon b Hb).
    replace (Ascii.eqb ":" backslash) with false by reflexivity.
    reflexivity. }
  rewrite E. reflexivity.
Qed.

(** ** The references that [collapse_refs] accepts *)

Lemma dict_set_In_inv {V} (d : dict V) (k k' : string) (v v' : V) :
  In (k', v') (dict_set d k v) -> (k' = k /\ v' = v) \/ In (k', v') d.
Proof.
  induction d as [|[k0 v0] d IH]; simpl; intros H.
  - destruct H as [H|[]]. inversion H. left. split; reflexivity.
  - destruct (String.eqb_spec k0 k) as [->|_]; simpl in H.
    + destruct H as [H|H]; [inversion H; left; split; reflexivity | right; right; exact H].
    + destruct H as [H|H]; [right; left; exact H|].
      destruct (IH H) as [Heq|Hin]; [left; exact Heq | right; right; exact Hin].
Qed.

Lemma match_digits_head (d x : string) (c : ascii) :
  is_digit c = true -> match_digits (String c d ++ x) <> None.
Proof.
  intros Hc. unfold match_digits. simpl. rewrite Hc. discriminate.
Qed.

Lemma match_num_digits (s : string) :
  match_num s = "" \/ match_digits (match_num s) <> None.
Proof.
  unfold match_num. destruct (match_digits s) as [[d r]|] eqn:Hd; [|left; reflexivity].
  right. destruct (match_marked_digits "." r) as [frac r'].
  destruct (match_marked_digits "#" r') as [sub r''].
  unfold match_digits in Hd. destruct s as [|c s]; simpl in Hd; [discriminate Hd|].
  destruct (is_digit c) eqn:Hc; [|discriminate Hd].
  inversion Hd; subst. apply match_digits_head. exact Hc.
Qed.

Lemma part_ref_search_num (ref p num : string) :
  part_ref_search ref = Some (p, num) -> num = "" \/ match_digits num <> None.
Proof.
  induction ref as [|c ref IH]; cbn [part_ref_search]; intros H.
  - simpl in H. discriminate H.
  - destruct (match_prefix (String c ref)) as [[p0 rest]|].
    + inversion H; subst. apply match_num_digits.
    + apply IH. exact H.
Qed.

(** X25: [collapse_refs] returns when [PART_REF_REGEX] finds in every reference
    a prefix followed by a number. *)
Theorem collapse_refs_returns (refs : list string) :
  (forall ref, In ref refs ->
     exists p num, part_ref_search ref = Some (p, num) /\ num <> "") ->
  exists collapsed, collapse_refs refs = Ok collapsed.
Proof.
  intros Hall. unfold collapse_refs.
  assert (Hfold : forall refs0 (d : dict (list string)),
            (forall ref, In ref refs0 ->
               exists p num, part_ref_search ref = Some (p, num) /\ num <> "") ->
            (forall p l, In (p, l) d -> forall n, In n l -> match_digits n <> None) ->
            exists d',
              foldM (fun d ref =>
                       match part_ref_search ref with
                       | Some (prefix, num) => Ok (setdefault_append d prefix num)
                       | None => Raise (SystemExit (NotRecognizedCharacters ref))
                       end) refs0 d = Ok d'
              /\ forall p l, In (p, l) d' -> forall n, In n l -> match_digits n <> None).
  { induction refs0 as [|r refs0 IH]; intros d Hparse Hd; simpl.
    - exists d. split; [reflexivity | exact Hd].
    - destruct (Hparse r (or_introl eq_refl)) as (p & num & Hr & Hnum).
      rewrite Hr. simpl. apply IH.
      + intros ref Href. apply Hparse. right. exact Href.
      + assert (Hn : match_digits num <> None).
        { destruct (part_ref_search_num r p num Hr) as [E|E]; [contradiction | exact E]. }
        intros p0 l0 Hin n Hnl. unfold setdefault_append in Hin.
        destruct (dict_get d p) as [l|] eqn:Hl.
        * apply dict_set_In_inv in Hin. destruct Hin as [[_ ->]|Hin].
          -- apply in_app_or in Hnl. destruct Hnl as [Hnl|[<-|[]]]; [|exact Hn].
             apply (Hd p l); [apply dict_get_Some_In; exact Hl | exact Hnl].
          -- apply (Hd p0 l0 Hin n Hnl).
        * apply dict_set_In_inv in Hin. destruct Hin as [[_ ->]|Hin].
          -- destruct Hnl as [<-|[]]. exact Hn.
          -- apply (Hd p0 l0 Hin n Hnl). }
  destruct (Hfold refs [] Hall) as (d' & Hd' & Hnums); [intros p l []|].
  rewrite Hd'. simpl.
  match goal with |- context [mapM ?f d'] =>
    destruct (mapM_exists f d') as (ranges & Hranges) end.
  { intros [p l] Hin. simpl. unfold convert_to_ranges.
    match goal with |- context [mapM ?g l] =>
      destruct (mapM_exists g l) as (keyed & Hkeyed) end.
    { intros n Hn. unfold get_refnum.
      pose proof (Hnums p l Hin n Hn) as Hd.
      destruct (match_digits n) as [[dg r]|]; [simpl; eauto | contradiction]. }
    rewrite Hkeyed. simpl. eauto. }
  rewrite Hranges. simpl. eauto.
Qed.

Lemma manf_code_qtypart_escaped_colon_witness :
  manf_code_qtypart "LM317\:T" = manf_code_qtypart "LM317:T".
Proof.
  apply (manf_code_qtypart_escaped_colon "LM317" "T"); reflexivity.
Defined.

Lemma collapse_refs_returns_witness :
  exists collapsed, collapse_refs ["R1"; "R2"; "R3"; "C7"; "U2#1"] = Ok collapsed.
Proof.
  apply (collapse_refs_returns ["R1"; "R2"; "R3"; "C7"; "U2#1"]).
  intros ref [<-|[<-|[<-|[<-|[<-|[]]]]]]; eexists _, _;
    (split; [vm_compute; reflexivity | discriminate]).
Defined.

(** ** From [group_parts] to [groups_sort] *)

Section GroupsToSort.

Variable dd : list string.               (* [distributor_dict] *)
Variable SEPRTR : string.
Variable hash : list (string * value) -> Z.
Variable set_iter : list value -> list value.
Hypothesis set_iter_perm : forall s, Permutation (set_iter s) s.

(** A group after the split by ['manf#'] has a member, which is a
    designator of [components]. *)
Lemma refine_groups_member (components : dict record) (fields_merge : list string)
    (grp : IdenticalComponents) :
  NoDup (keys components) ->
  In grp (refine_groups dd SEPRTR hash set_iter fields_merge components) ->
  exists ref, In ref (refs grp) /\ In ref (keys components).
Proof.
  intros Hnd Hgrp.
  assert (Hkey : forall ref, In ref (refs grp) -> In ref (keys components)).
  { intros ref Href.
    apply (Permutation_in _ (refine_groups_refs dd SEPRTR hash set_iter set_iter_perm
                               components fields_merge Hnd)).
    apply in_concat. exists (refs grp). split; [apply in_map; exact Hgrp | exact Href]. }
  assert (Hmember : exists ref, In ref (refs grp)).
  { unfold refine_groups in Hgrp. apply in_flat_map in Hgrp.
    destruct Hgrp as (grp0 & Hgrp0 & Hin).
    destruct (group_by_hash_spec dd SEPRTR hash components fields_merge Hnd) as [Hall _].
    rewrite Forall_forall in Hall. destruct (Hall grp0 Hgrp0) as [_ Hmanf].
    destruct (kept_whole_dec grp0) as [Hkept|Hsplit].
    - rewrite (refine_group_kept set_iter components grp0 Hkept) in Hin.
      destruct Hin as [<-|[]].
      assert (Hm : exists m, In m (manf_nums grp0)).
      { unfold kept_whole in Hkept.
        destruct (manf_nums grp0) as [|m l]; [|exists m; left; reflexivity].
        destruct Hkept as [H|[H _]]; discriminate H. }
      destruct Hm as (m & Hm). apply Hmanf in Hm. destruct Hm as (ref & Href & _).
      exists ref. exact Href.
    - rewrite (refine_group_split set_iter components grp0 Hsplit) in Hin.
      apply in_map_iff in Hin. destruct Hin as (m & <- & Hm).
      apply (Permutation_in _ (set_iter_perm (manf_nums grp0))) in Hm.
      apply Hmanf in Hm. destruct Hm as (ref & Href & Hmanf_ref).
      exists ref. cbn [refs]. apply filter_In. split; [exact Href|].
      apply value_eqb_eq. exact Hmanf_ref. }
  destruct Hmember as (ref & Href). exists ref. split; [exact Href | apply Hkey, Href].
Qed.

(** X26: What [group_parts] returns can go to [groups_sort]: when every part
    has a ['reference'] that is a string and not empty, and the field is
    not merged, the sorter returns, with the same groups. *)
Theorem group_parts_sortable (components : dict record) (fields_merge : list string)
    (groups : list IdenticalComponents) :
  NoDup (keys components) ->
  (forall ref part, In (ref, part) components ->
     exists r, In ("reference", Some r) part /\ r <> "") ->
  ~ In "reference" (map (translate dd) (map (translate dd) fields_merge)) ->
  group_parts dd SEPRTR hash set_iter components fields_merge = Ok groups ->
  exists sorted, groups_sort groups = Ok sorted /\ Permutation groups sorted.
Proof.
  intros Hnd Href Hmerge H.
  assert (Hgroups : forall g, In g groups ->
            exists f r, fields g = Some f /\ get_field f "reference" = Some r).
  { intros g Hg. unfold group_parts in H.
    apply bind_Ok in H. destruct H as (_ & _ & H). unfold group_accepted in H.
    apply bind_Ok in H. destruct H as (components' & Hmerged & H).
    destruct (mapM_In _ _ _ H g Hg) as (grp0 & Hgrp0 & Hprop).
    destruct (propagate_agree components' grp0 g Hprop) as (grp_fields & Hf & Hall).
    destruct (refine_groups_member components _ grp0 Hnd Hgrp0) as (ref & Hin & Hkey).
    apply in_map_iff in Hkey. destruct Hkey as ([ref' part] & Heq & Hpart).
    simpl in Heq. subst ref'.
    destruct (Href ref part Hpart) as (r & Hr & Hne).
    exists grp_fields, r. split; [exact Hf|].
    apply (Hall ref "reference" r Hin); [|exact Hne].
    apply (merge_fields_other _ _ _ _ _ _ Hmerged); [exact Hmerge|].
    unfold component. rewrite (dict_get_In components ref part Hnd Hpart). exact Hr. }
  unfold groups_sort, groups_sort_by.
  destruct (group_refs_some groups Hgroups) as (rs & Hrs). rewrite Hrs. cbn [bind].
  assert (Hlen : List.length rs = List.length groups).
  { apply mapM_Ok_length in Hrs. rewrite length_map in Hrs. exact Hrs. }
  destruct (sort_loop_inv groups rs Hlen) with
    (identifiers := ref_identifiers) (seen := @nil string)
    (order_old := seq 0 (List.length groups)) (order_new := @nil nat)
    as (order_old & order_new & Hloop & Hperm).
  - intros g Hg. destruct (Hgroups g Hg) as (f & _ & Hf & _). congruence.
  - vm_compute. repeat constructor; simpl; intuition discriminate.
  - intros id _ [].
  - reflexivity.
  - intros j [].
  - rewrite Hloop. cbn [bind snd fst].
    destruct (mapM_nth_total groups (order_new ++ order_old)) as (sorted & Hsorted).
    { intros i Hi. apply (Permutation_in _ Hperm) in Hi. apply in_seq in Hi. lia. }
    exists sorted. split; [exact Hsorted|].
    symmetry. apply (mapM_nth_perm groups _ sorted Hperm Hsorted).
Qed.

End GroupsToSort.

Lemma group_parts_sortable_witness :
  let components : dict record :=
    [ ("R1", [("reference", Some "R"); ("value", Some "10k")]);
      ("U1", [("reference", Some "U"); ("value", Some "LM317"); ("manf#", Some "LM317T")]);
      ("R2", [("reference", Some "R"); ("value", Some "10k")]) ] in
  exists groups,
    group_parts ["digikey"; "mouser"] ":" example_hash insertion_order components []
    = Ok groups
    /\ exists sorted, groups_sort groups = Ok sorted /\ Permutation groups sorted.
Proof.
  intros components. eexists. split; [vm_compute; reflexivity|].
  apply (group_parts_sortable ["digikey"; "mouser"] ":" example_hash insertion_order
           (fun s => Permutation_refl s) components []).
  - repeat constructor; simpl; intuition discriminate.
  - intros ref part [Heq|[Heq|[Heq|[]]]]; inversion Heq; subst;
      eexists; (split; [left; reflexivity | discriminate]).
  - simpl. tauto.
  - vm_compute. reflexivity.
Defined.

(** ** The fields of a sub-part *)

Lemma last_differs (a b : string) (c1 c2 : ascii) :
  c1 <> c2 -> a ++ String c1 EmptyString <> b ++ String c2 EmptyString.
Proof.
  intros Hc Heq. apply append_last_inj in Heq. destruct Heq as [_ Heq]. contradiction.
Qed.

Section SubpartFields.

Variable dd : list string.               (* [distributor_dict] *)

Lemma dist_last (k : string) : In k (dist dd) -> exists a, k = a ++ "#".
Proof.
  intros Hk. unfold dist in Hk. apply in_app_or in Hk. destruct Hk as [Hk|[<-|[]]].
  - apply in_map_iff in Hk. destruct Hk as (d0 & <- & _). eauto.
  - exists "manf". reflexivity.
Qed.

Lemma dist_not_field (k : string) :
  In k (dist dd) ->
  k <> "value" /\ k <> "manf"
  /\ k ++ "_qty" <> "value" /\ k ++ "_qty" <> "manf".
Proof.
  intros Hk. destruct (dist_last k Hk) as (a & ->).
  assert (Hq : forall s, s ++ "_qty" = (((s ++ "_") ++ "q") ++ "t") ++ "y").
  { intros s.
    change (s ++ "_qty") with (s ++ String "_" (String "q" (String "t" "y"))).
    rewrite <- (append_cons_assoc s "_"), <- (append_cons_assoc _ "q"),
      <- (append_cons_assoc _ "t"). reflexivity. }
  rewrite Hq.
  change "value" with ("valu" ++ "e"). change "manf" with ("man" ++ "f").
  repeat split; apply last_differs; discriminate.
Qed.

Lemma set_subpart_codes_spec (v : value) (n i : nat) (part : record)
    (founded : list (string * list string)) :
  (forall k codes, In (k, codes) founded -> In k (dist dd)) ->
  (forall k c1 c2, In (k, c1) founded -> In (k, c2) founded -> c1 = c2) ->
  forall k codes c, In (k, codes) founded -> nth_error codes i = Some c ->
    get_field (set_subpart_codes v n i founded part) k
    = Some (snd (manf_code_qtypart c))
    /\ get_field (set_subpart_codes v n i founded part) (k ++ "_qty")
       = Some (fst (manf_code_qtypart c))
    /\ get_field (set_subpart_codes v n i founded part) "value"
       = Some (format_value v ++ " - p" ++ str_nat (i + 1) ++ "/" ++ str_nat n).
Proof.
  induction founded as [|[kx cx] founded IH] using rev_ind; intros Hdist Hfun.
  - intros k codes c [].
  - assert (IH' : forall k codes c, In (k, codes) founded -> nth_error codes i = Some c ->
              get_field (set_subpart_codes v n i founded part) k
              = Some (snd (manf_code_qtypart c))
              /\ get_field (set_subpart_codes v n i founded part) (k ++ "_qty")
                 = Some (fst (manf_code_qtypart c))
              /\ get_field (set_subpart_codes v n i founded part) "value"
                 = Some (format_value v ++ " - p" ++ str_nat (i + 1) ++ "/"
                         ++ str_nat n)).
    { apply IH.
      - intros k codes Hin. apply (Hdist k codes). apply in_or_app. left. exact Hin.
      - intros k c1 c2 H1 H2. apply (Hfun k); apply in_or_app; left; assumption. }
    clear IH.
    assert (Hkx : In kx (dist dd)).
    { apply (Hdist kx cx). apply in_or_app. right. left. reflexivity. }
    intros k codes c Hin Hc.
    assert (Hk : In k (dist dd)) by (apply (Hdist k codes); exact Hin).
    unfold set_subpart_codes in *. rewrite fold_left_app. cbn [fold_left].
    set (sub := fold_left _ founded part) in *.
    destruct (nth_error cx i) as [pc|] eqn:Hpc.
    + destruct (manf_code_qtypart pc) as [pq pp] eqn:Hmcq.
      rewrite !get_field_set.
      destruct (dist_not_field kx Hkx) as (Hv1 & _ & Hv2 & _).
      destruct (String.eqb_spec (kx ++ "_qty") "value") as [Heq|_]; [contradiction|].
      destruct (String.eqb_spec kx "value") as [Heq|_]; [contradiction|].
      rewrite String.eqb_refl.
      destruct (String.eqb_spec (kx ++ "_qty") k) as [Heq|_];
        [exfalso; apply (dist_not_qty dd k kx Hk); symmetry; exact Heq|].
      destruct (String.eqb_spec kx (k ++ "_qty")) as [Heq|_];
        [exfalso; apply (dist_not_qty dd kx k Hkx); exact Heq|].
      destruct (dist_not_field k Hk) as (Hk1 & _ & Hk2 & _).
      destruct (String.eqb_spec "value" k) as [Heq|_]; [symmetry in Heq; contradiction|].
      destruct (String.eqb_spec "value" (k ++ "_qty")) as [Heq|_];
        [symmetry in Heq; contradiction|].
      destruct (String.eqb_spec kx k) as [Heq|Hneq].
      * subst kx.
        assert (Ecodes : cx = codes).
        { apply (Hfun k); [apply in_or_app; right; left; reflexivity | exact Hin]. }
        subst cx. rewrite Hc in Hpc. inversion Hpc; subst pc.
        rewrite Hmcq, String.eqb_refl. repeat split; reflexivity.
      * destruct (String.eqb_spec (kx ++ "_qty") (k ++ "_qty")) as [Heq|_];
          [apply append_inj_r in Heq; contradiction|].
        apply in_app_or in Hin. destruct Hin as [Hin|[Heq|[]]];
          [|inversion Heq; subst; contradiction].
        destruct (IH' k codes c Hin Hc) as (Hp & Hq & _).
        repeat split; [exact Hp | exact Hq].
    + apply in_app_or in Hin. destruct Hin as [Hin|[Heq|[]]];
        [apply (IH' k codes c Hin Hc)|].
      inversion Heq; subst. congruence.
Qed.

Lemma manf_name_eq (subparts_manf : list string) (i : nat) :
  manf_name subparts_manf i
  = match nth_error subparts_manf i with
    | None => None
    | Some m =>
        if String.eqb m REPLICATE_MANF then
          match i with
          | O => None
          | S j => manf_name subparts_manf j
          end
        else Some m
    end.
Proof. destruct i; reflexivity. Qed.

(** X27: The sub-part of index [i] of a part with several sub-parts, under its
    designator [ref#(i+1)]: ['manf'] is the name of index [i], or for the
    mark [~] the name of the sub-part before; a field of codes holds the code
    of index [i] that [manf_code_qtypart] decodes, the field [_qty] the
    decoded quantity, and ['value'] the value of the part followed by
    [- p(i+1)/N]. *)
Theorem subpart_split_subpart_fields (part_ref : string) (part : record) (n : nat)
    (founded : list (string * list string)) (subparts_manf : list string)
    (v : value) (i : nat) :
  find_codes dd part = Ok (n, founded) ->
  1 < n ->
  dict_get part "value" = Some v ->
  split_manf part n = Ok subparts_manf ->
  nth_error subparts_manf 0 <> Some REPLICATE_MANF ->
  i < n ->
  exists splitted sub name,
    subpart_split dd [(part_ref, part)] = Ok splitted
    /\ dict_get splitted (part_ref ++ SUB_SEPRTR ++ str_nat (i + 1)) = Some sub
    /\ manf_name subparts_manf i = Some name
    /\ get_field sub "manf" = Some name
    /\ forall k codes c, In (k, codes) founded -> nth_error codes i = Some c ->
         get_field sub k = Some (snd (manf_code_qtypart c))
         /\ get_field sub (k ++ "_qty") = Some (fst (manf_code_qtypart c))
         /\ get_field sub "value"
            = Some (format_value v ++ " - p" ++ str_nat (i + 1) ++ "/" ++ str_nat n).
Proof.
  intros Hfind Hn Hvalue Hmanf Hfirst Hi.
  pose proof (split_manf_length part n subparts_manf Hmanf) as Hlen.
  destruct (find_codes_spec dd part n founded Hfind) as [Hfd _].
  assert (Hloop : forall len s (acc : dict record) p_manf,
            s + len <= n ->
            p_manf = match s with
                     | O => None
                     | S j => manf_name subparts_manf j
                     end ->
            (forall j, j < s ->
               exists name,
                 manf_name subparts_manf j = Some name
                 /\ dict_get acc (part_ref ++ SUB_SEPRTR ++ str_nat (j + 1))
                    = Some (dict_set (set_subpart_codes v n j founded part)
                                     "manf" (Some name))) ->
            exists acc' p_manf',
              foldM (add_subpart part_ref part v n founded subparts_manf)
                    (seq s len) (acc, p_manf) = Ok (acc', p_manf')
              /\ forall j, j < s + len ->
                   exists name,
                     manf_name subparts_manf j = Some name
                     /\ dict_get acc' (part_ref ++ SUB_SEPRTR ++ str_nat (j + 1))
                        = Some (dict_set (set_subpart_codes v n j founded part)
                                         "manf" (Some name))).
  { induction len as [|len IH]; intros s acc p_manf Hs Hp Hacc; cbn [seq foldM].
    - exists acc, p_manf. split; [reflexivity|]. rewrite Nat.add_0_r. exact Hacc.
    - unfold add_subpart at 1.
      destruct (nth_error subparts_manf s) as [m|] eqn:Hm;
        [|apply nth_error_None in Hm; lia].
      assert (Hbound : exists name,
                (if String.eqb m REPLICATE_MANF then p_manf else Some m) = Some name
                /\ manf_name subparts_manf s = Some name).
      { rewrite (manf_name_eq subparts_manf s), Hm, <- Hp.
        destruct (String.eqb_spec m REPLICATE_MANF) as [->|_]; [|eauto].
        destruct s as [|s]; [contradiction|].
        destruct (Hacc s (Nat.lt_succ_diag_r s)) as (name & Hname & _).
        rewrite Hp. eauto. }
      destruct Hbound as (name & Hname & Hname'). rewrite Hname. cbn [bind].
      match goal with |- context [foldM _ _ (?a, ?p)] =>
        destruct (IH (S s) a p) as (acc' & p' & Hfold & Hacc') end.
      + lia.
      + symmetry. exact Hname'.
      + intros j Hj. rewrite dict_get_set.
        destruct (String.eqb_spec (part_ref ++ SUB_SEPRTR ++ str_nat (s + 1))
                                  (part_ref ++ SUB_SEPRTR ++ str_nat (j + 1)))
          as [Heq|Hneq].
        * apply append_inj_l, append_inj_l, str_nat_inj in Heq.
          assert (j = s) by lia. subst j. exists name. split; [exact Hname' | reflexivity].
        * apply Hacc. destruct (Nat.eq_dec j s) as [->|Hjs];
            [contradiction Hneq; reflexivity | lia].
      + exists acc', p'. split; [exact Hfold|].
        intros j Hj. apply Hacc'. lia. }
  destruct (Hloop n 0 [] None) as (acc' & p' & Hfold & Hacc);
    [lia | reflexivity | intros j Hj; lia|].
  destruct (Hacc i Hi) as (name & Hname & Hsub).
  exists acc', (dict_set (set_subpart_codes v n i founded part) "manf" (Some name)), name.
  split; [|split; [exact Hsub | split; [exact Hname | split]]].
  - unfold subpart_split. cbn [foldM].
    unfold split_part_try at 1, split_part. cbn [fst snd]. rewrite Hfind. cbn [bind].
    destruct founded as [|fc founded];
      [apply find_codes_none_founded in Hfind; lia|].
    rewrite Hmanf. cbn [bind]. apply Nat.ltb_lt in Hn. rewrite Hn, Hvalue.
    match goal with |- context [foldM ?f ?l ?s] =>
      assert (E : foldM f l s = Ok (acc', p')) by exact Hfold; rewrite E end.
    reflexivity.
  - rewrite get_field_set, String.eqb_refl. reflexivity.
  - intros k codes c Hin Hc.
    destruct (Hfd k codes Hin) as [Hk _].
    destruct (dist_not_field k Hk) as (_ & Hk1 & _ & Hk2).
    rewrite !get_field_set.
    destruct (String.eqb_spec "manf" k) as [Heq|_]; [symmetry in Heq; contradiction|].
    destruct (String.eqb_spec "manf" (k ++ "_qty")) as [Heq|_];
      [symmetry in Heq; contradiction|].
    replace (String.eqb "manf" "value") with false by reflexivity.
    refine (set_subpart_codes_spec v n i part founded _ _ k codes c Hin Hc).
    + intros k0 codes0 H0. apply (Hfd k0 codes0 H0).
    + intros k0 c1 c2 H1 H2.
      destruct (Hfd k0 c1 H1) as (_ & s1 & Hs1 & ->).
      destruct (Hfd k0 c2 H2) as (_ & s2 & Hs2 & ->).
      rewrite Hs1 in Hs2. inversion Hs2. reflexivity.
Qed.

End SubpartFields.

Lemma subpart_split_subpart_fields_witness :
  let part : record :=
    [ ("value", Some "4x10k"); ("manf", Some "Vishay; ~");
      ("manf#", Some "PARTG1; 2:PARTG2"); ("mouser#", Some "M1") ] in
  exists splitted sub name,
    subpart_split ["digikey"; "mouser"] [("U1", part)] = Ok splitted
    /\ dict_get splitted ("U1" ++ SUB_SEPRTR ++ str_nat (1 + 1)) = Some sub
    /\ manf_name ["Vishay"; "~"] 1 = Some name
    /\ get_field sub "manf" = Some name
    /\ forall k codes c,
         In (k, codes) [("mouser#", ["M1"]); ("manf#", ["PARTG1"; "2:PARTG2"])] ->
         nth_error codes 1 = Some c ->
         get_field sub k = Some (snd (manf_code_qtypart c))
         /\ get_field sub (k ++ "_qty") = Some (fst (manf_code_qtypart c))
         /\ get_field sub "value"
            = Some (format_value (Some "4x10k") ++ " - p" ++ str_nat (1 + 1) ++ "/"
                    ++ str_nat 2).
Proof.
  intros part.
  apply (subpart_split_subpart_fields ["digikey"; "mouser"] "U1" part 2
           [("mouser#", ["M1"]); ("manf#", ["PARTG1"; "2:PARTG2"])] ["Vishay"; "~"]
           (Some "4x10k") 1).
  - vm_compute. reflexivity.
  - lia.
  - reflexivity.
  - vm_compute. reflexivity.
  - simpl. discriminate.
  - lia.
Defined.

(** ** [split_refs] *)

Lemma split_chars_none (p : ascii -> bool) (s : string) :
  forall cur, all_chars (fun c => negb (p c)) s = true ->
  split_chars p cur s = [cur ++ s].
Proof.
  induction s as [|c s IH]; intros cur H; simpl.
  - rewrite append_nil_r. reflexivity.
  - simpl in H. apply andb_prop in H. destruct H as [Hc Hs].
    destruct (p c); [discriminate Hc|].
    rewrite (IH _ Hs), append_cons_assoc. reflexivity.
Qed.

Lemma remove_chars_none (p : ascii -> bool) (s : string) :
  all_chars (fun c => negb (p c)) s = true -> remove_chars p s = s.
Proof.
  induction s as [|c s IH]; simpl; intros H; [reflexivity|].
  apply andb_prop in H. destruct H as [Hc Hs].
  destruct (p c); [discriminate Hc|]. rewrite (IH Hs). reflexivity.
Qed.

Lemma all_chars_impl (p q : ascii -> bool) (s : string) :
  (forall c, p c = true -> q c = true) ->
  all_chars p s = true -> all_chars q s = true.
Proof.
  intros Hpq. induction s as [|c s IH]; simpl; intros H; [reflexivity|].
  apply andb_prop in H. destruct H as [Hc Hs].
  rewrite (Hpq c Hc), (IH Hs). reflexivity.
Qed.

Lemma take_while_app_all (p : ascii -> bool) (w s : string) :
  all_chars p w = true -> take_while p (w ++ s) = w ++ take_while p s.
Proof.
  induction w as [|c w IH]; simpl; intros H; [reflexivity|].
  apply andb_prop in H. destruct H as [Hc Hw].
  rewrite Hc, (IH Hw). reflexivity.
Qed.

Lemma take_while_all (p : ascii -> bool) (w : string) :
  all_chars p w = true -> take_while p w = w.
Proof.
  intros H. rewrite <- (append_nil_r w) at 1.
  rewrite (take_while_app_all p w "" H). apply append_nil_r.
Qed.

Lemma length_append (a b : string) :
  String.length (a ++ b) = String.length a + String.length b.
Proof.
  induction a as [|c a IH]; simpl; [reflexivity|]. rewrite IH. reflexivity.
Qed.

Lemma drop_append (a b : string) : drop (String.length a) (a ++ b) = b.
Proof.
  induction a as [|c a IH]; simpl; [destruct b; reflexivity | exact IH].
Qed.

Lemma prefix_append (a b : string) : prefix a (a ++ b) = true.
Proof.
  induction a as [|c a IH]; simpl; [destruct b; reflexivity|].
  destruct (ascii_dec c c) as [_|Hneq]; [exact IH | contradiction Hneq; reflexivity].
Qed.

Lemma prefix_head (c d : ascii) (a b : string) :
  c <> d -> prefix (String c a) (String d b) = false.
Proof.
  intros Hcd. simpl. destruct (ascii_dec c d) as [Heq|_]; [contradiction | reflexivity].
Qed.

(** The characters of a word are none of the marks of [split_refs]. *)
Lemma is_word_plain (c : ascii) :
  is_word c = true ->
  is_list_sep c = false /\ is_not_allowed c = false /\ is_dash c = false
  /\ is_slash c = false.
Proof.
  destruct c as [b0 b1 b2 b3 b4 b5 b6 b7].
  destruct b0, b1, b2, b3, b4, b5, b6, b7; vm_compute; intros H;
    repeat split; congruence.
Qed.

Lemma is_digit_word (c : ascii) : is_digit c = true -> is_word c = true.
Proof.
  destruct c as [b0 b1 b2 b3 b4 b5 b6 b7].
  destruct b0, b1, b2, b3, b4, b5, b6, b7; vm_compute; intros H; congruence.
Qed.

Lemma is_digit_not_d (c : ascii) : is_digit c = true -> Ascii.eqb "d" c = false.
Proof.
  destruct c as [b0 b1 b2 b3 b4 b5 b6 b7].
  destruct b0, b1, b2, b3, b4, b5, b6, b7; vm_compute; intros H; congruence.
Qed.

(** The digits of [str] of an integer that is not negative. *)
Lemma uint_digits (d : Decimal.uint) :
  all_chars is_digit (NilEmpty.string_of_uint d) = true.
Proof. induction d; simpl; try reflexivity; exact IHd. Qed.

Lemma int_of_digits_acc (d : Decimal.uint) :
  forall acc : positive,
  int_of_digits (Z.pos acc) (NilEmpty.string_of_uint d) = Z.pos (Pos.of_uint_acc d acc).
Proof.
  induction d; intros acc; cbn [NilEmpty.string_of_uint int_of_digits Pos.of_uint_acc];
    try reflexivity;
    match goal with
    | |- int_of_digits ?z _ = Z.pos (Pos.of_uint_acc _ ?q) =>
        replace z with (Z.pos q) by (vm_compute digit_val; lia)
    end; apply IHd.
Qed.

Lemma int_of_digits_uint (d : Decimal.uint) :
  int_of_digits 0 (NilEmpty.string_of_uint d) = Z.of_N (Pos.of_uint d).
Proof.
  induction d; cbn [NilEmpty.string_of_uint int_of_digits Pos.of_uint];
    try reflexivity;
    try (match goal with
         | |- int_of_digits ?z _ = Z.of_N (N.pos (Pos.of_uint_acc _ ?q)) =>
             replace z with (Z.pos q) by (vm_compute; reflexivity)
         end; apply int_of_digits_acc).
  replace (10 * 0 + digit_val "0")%Z with 0%Z by (vm_compute; reflexivity).
  exact IHd.
Qed.

Lemma str_int_digits (a : Z) :
  (0 <= a)%Z ->
  str_int a <> "" /\ all_chars is_digit (str_int a) = true
  /\ int_of_digits 0 (str_int a) = a.
Proof.
  intros Ha. unfold str_int. destruct a as [|p|p]; [| |lia].
  - repeat split. discriminate.
  - cbn [Z.to_int NilZero.string_of_int]. unfold NilZero.string_of_uint.
    pose proof (DecimalPos.Unsigned.to_uint_nonnil p) as Hnn.
    pose proof (uint_digits (Pos.to_uint p)) as Hd.
    pose proof (int_of_digits_uint (Pos.to_uint p)) as Hi.
    rewrite DecimalPos.Unsigned.of_to in Hi.
    destruct (Pos.to_uint p) eqn:E; try contradiction; repeat split;
      try discriminate; assumption.
Qed.

Lemma is_letter_word (c : ascii) :
  is_letter c = true -> is_word c = true /\ is_digit c = false.
Proof.
  destruct c as [b0 b1 b2 b3 b4 b5 b6 b7].
  destruct b0, b1, b2, b3, b4, b5, b6, b7; vm_compute; intros H;
    split; congruence.
Qed.

Lemma letters_word (p : string) :
  all_chars is_letter p = true -> all_chars is_word p = true.
Proof. apply all_chars_impl. intros c Hc. apply (is_letter_word c Hc). Qed.

Lemma letters_no_digit (p : string) :
  all_chars is_letter p = true -> all_chars (fun c => negb (is_digit c)) p = true.
Proof.
  apply all_chars_impl. intros c Hc. destruct (is_letter_word c Hc) as [_ Hd].
  rewrite Hd. reflexivity.
Qed.

Lemma digits_word (d : string) :
  all_chars is_digit d = true -> all_chars is_word d = true.
Proof. apply all_chars_impl. exact is_digit_word. Qed.

(** A string of word characters has none of the marks. *)
Lemma word_no_mark (q : ascii -> bool) (w : string) :
  (forall c, is_word c = true -> q c = false) ->
  all_chars is_word w = true -> all_chars (fun c => negb (q c)) w = true.
Proof.
  intros Hq. apply all_chars_impl. intros c Hc. rewrite (Hq c Hc). reflexivity.
Qed.

Lemma word_not_list_sep (c : ascii) : is_word c = true -> is_list_sep c = false.
Proof. intros H. apply (is_word_plain c H). Qed.

Lemma word_not_allowed (c : ascii) : is_word c = true -> is_not_allowed c = false.
Proof. intros H. apply (is_word_plain c H). Qed.

Lemma word_not_dash (c : ascii) : is_word c = true -> is_dash c = false.
Proof. intros H. apply (is_word_plain c H). Qed.

Lemma word_not_slash (c : ascii) : is_word c = true -> is_slash c = false.
Proof. intros H. apply (is_word_plain c H). Qed.

Lemma word_not_dash_slash (c : ascii) : is_word c = true -> is_dash_slash c = false.
Proof.
  intros H. unfold is_dash_slash.
  rewrite (word_not_dash c H), (word_not_slash c H). reflexivity.
Qed.

Lemma has_char_digits (w d : string) :
  d <> "" -> all_chars is_digit d = true -> has_char is_digit (w ++ d) = true.
Proof.
  intros Hne Hd. unfold has_char. rewrite all_chars_app.
  destruct d as [|c d]; [contradiction Hne; reflexivity|].
  simpl in Hd. apply andb_prop in Hd. destruct Hd as [Hc _].
  simpl. rewrite Hc. simpl. rewrite andb_false_r. reflexivity.
Qed.

Lemma has_char_none (q : ascii -> bool) (s : string) :
  all_chars (fun c => negb (q c)) s = true -> has_char q s = false.
Proof. intros H. unfold has_char. rewrite H. reflexivity. Qed.

(** [PART_REF_REGEX] on a string of letters: the prefix is the string, and
    there is no number. *)
Lemma match_prefix_letters (p : string) :
  p <> "" -> all_chars is_letter p = true -> match_prefix p = Some (p, "").
Proof.
  induction p as [|c p IH]; intros Hne H; [contradiction Hne; reflexivity|].
  simpl in H. apply andb_prop in H. destruct H as [Hc Hp].
  cbn [match_prefix]. unfold is_prefix_char, is_prefix_end. rewrite Hc. cbn [orb].
  destruct p as [|c' p'].
  - reflexivity.
  - rewrite IH; [reflexivity | discriminate | exact Hp].
Qed.

(** X28: A reference of letters followed by digits, alone in the text, comes
    back as it is; without a digit it comes back with the number [0]. *)
Theorem split_refs_plain (p d : string) :
  p <> "" ->
  all_chars is_letter p = true ->
  all_chars is_digit d = true ->
  split_refs (p ++ d) = Refs [if String.eqb d "" then p ++ "0" else p ++ d].
Proof.
  intros Hne Hp Hd.
  assert (Hw : all_chars is_word (p ++ d) = true).
  { rewrite all_chars_app, (letters_word p Hp), (digits_word d Hd). reflexivity. }
  unfold split_refs.
  rewrite (split_chars_none is_list_sep (p ++ d) ""
             (word_no_mark is_list_sep _ word_not_list_sep Hw)).
  cbn [append split_loop]. unfold split_ref.
  rewrite (remove_chars_none is_not_allowed (p ++ d)
             (word_no_mark is_not_allowed _ word_not_allowed Hw)).
  unfold word_digit_head. rewrite (take_while_all is_word (p ++ d) Hw).
  destruct p as [|c0 p']; [contradiction Hne; reflexivity|].
  cbn [append].
  destruct (String.eqb_spec d "") as [->|Hdne].
  - rewrite !append_nil_r.
    assert (Hnd : has_char is_digit p' = false).
    { apply has_char_none. simpl in Hp. apply andb_prop in Hp. destruct Hp as [_ Hp'].
      apply (letters_no_digit p' Hp'). }
    rewrite Hnd.
    rewrite append_nil_r in Hw.
    rewrite (remove_chars_none is_dash_slash (String c0 p')
               (word_no_mark is_dash_slash _ word_not_dash_slash Hw)).
    cbn [part_ref_search].
    rewrite (match_prefix_letters (String c0 p') Hne Hp). reflexivity.
  - rewrite (has_char_digits p' d Hdne Hd).
    change (String c0 (p' ++ d)) with (String c0 p' ++ d).
    rewrite (has_char_none is_dash _ (word_no_mark is_dash _ word_not_dash Hw)).
    rewrite (has_char_none is_slash _ (word_no_mark is_slash _ word_not_slash Hw)).
    reflexivity.
Qed.

Lemma split_refs_plain_witness :
  split_refs ("GND" ++ "") = Refs [if String.eqb "" "" then "GND" ++ "0" else "GND" ++ ""].
Proof.
  apply (split_refs_plain "GND" ""); [discriminate | reflexivity | reflexivity].
Defined.

Lemma append_assoc (a b c : string) : (a ++ b) ++ c = a ++ b ++ c.
Proof.
  induction a as [|x a IH]; simpl; [reflexivity|]. rewrite IH. reflexivity.
Qed.

Lemma split_chars_app (q : ascii -> bool) (x : string) (c : ascii) (y : string) :
  forall cur, all_chars (fun c => negb (q c)) x = true -> q c = true ->
  split_chars q cur (x ++ String c y) = (cur ++ x) :: split_chars q "" y.
Proof.
  induction x as [|c0 x IH]; intros cur Hx Hc; simpl.
  - rewrite Hc, append_nil_r. reflexivity.
  - simpl in Hx. apply andb_prop in Hx. destruct Hx as [Hc0 Hx].
    destruct (q c0); [discriminate Hc0|].
    rewrite (IH _ Hx Hc), append_cons_assoc. reflexivity.
Qed.

Lemma remove_all_skip (name x y : string) :
  remove_all name (String.length x) (x ++ y) = remove_all name 0 y.
Proof.
  induction x as [|c x IH]; simpl; [reflexivity | exact IH].
Qed.

Lemma remove_all_digits (c0 : ascii) (name' d : string) :
  is_digit c0 = false -> all_chars is_digit d = true ->
  remove_all (String c0 name') 0 d = d.
Proof.
  intros Hc0. induction d as [|c d IH]; intros Hd; [reflexivity|].
  simpl in Hd. apply andb_prop in Hd. destruct Hd as [Hc Hd].
  cbn [remove_all]. rewrite prefix_head by congruence.
  rewrite (IH Hd). reflexivity.
Qed.

Lemma remove_all_head (p d : string) :
  p <> "" -> all_chars is_letter p = true -> all_chars is_digit d = true ->
  remove_all p 0 (p ++ d) = d.
Proof.
  intros Hne Hp Hd. destruct p as [|c0 p']; [contradiction Hne; reflexivity|].
  change ((String c0 p') ++ d) with (String c0 (p' ++ d)).
  cbn [remove_all].
  change (String c0 (p' ++ d)) with ((String c0 p') ++ d).
  rewrite prefix_append.
  replace (String.length (String c0 p') - 1) with (String.length p')
    by (cbn [String.length]; lia).
  rewrite remove_all_skip. apply remove_all_digits; [|exact Hd].
  simpl in Hp. apply andb_prop in Hp. destruct Hp as [Hc0 _].
  apply (is_letter_word c0 Hc0).
Qed.

Lemma digits_nondigit_digits (d : string) :
  all_chars is_digit d = true -> digits_nondigit d = "".
Proof.
  intros Hd. unfold digits_nondigit. rewrite (take_while_all is_digit d Hd).
  destruct d as [|c d]; [reflexivity|].
  rewrite <- (append_nil_r (String c d)) at 2. rewrite drop_append. reflexivity.
Qed.

Lemma take_end_all (p : ascii -> bool) (d : string) :
  all_chars p d = true -> take_end p d = d.
Proof.
  intros H. destruct d as [|c d]; [reflexivity|]. cbn [take_end]. rewrite H. reflexivity.
Qed.

Lemma trailing_digits_digits (d : string) :
  d <> "" -> all_chars is_digit d = true -> trailing_digits d = d.
Proof.
  intros Hne Hd. unfold trailing_digits. rewrite (take_end_all is_digit d Hd).
  destruct d; [contradiction Hne; reflexivity | reflexivity].
Qed.

(** In a reference that matches [^\w+\d], the pattern [^d*\W] finds
    nothing at the head: the name of the designator stays a string of word
    characters, which [re.sub] takes literally. *)
Lemma d_run_nonword_word (s : string) :
  has_char is_digit (take_while is_word s) = true -> d_run_nonword s = "".
Proof.
  induction s as [|c s IH]; intros H; [reflexivity|].
  cbn [take_while] in H. destruct (is_word c) eqn:Hw; [|discriminate H].
  unfold d_run_nonword. cbn [take_while].
  destruct (Ascii.eqb "d" c) eqn:Hd.
  - cbn [String.length drop].
    assert (Hs : has_char is_digit (take_while is_word s) = true).
    { apply Ascii.eqb_eq in Hd. subst c. exact H. }
    specialize (IH Hs). unfold d_run_nonword in IH.
    destruct (drop (String.length (take_while (Ascii.eqb "d") s)) s) as [|c2 r];
      [reflexivity|].
    destruct (is_word c2); [reflexivity|].
    destruct (take_while (Ascii.eqb "d") s); discriminate IH.
  - cbn [String.length drop]. rewrite Hw. reflexivity.
Qed.

Lemma int_of_str_int (a : Z) : (0 <= a)%Z -> int_of (str_int a) = Some a.
Proof.
  intros Ha. destruct (str_int_digits a Ha) as (Hne & _ & Hi).
  unfold int_of. destruct (str_int a); [contradiction Hne; reflexivity|].
  rewrite Hi. reflexivity.
Qed.

(** X29: [split_refs] expands a range that [collapse_refs] writes: for a
    prefix of letters, the text [prefix first - prefix last] gives the
    references of the numbers from [first] to [last]. *)
Theorem split_refs_range (p : string) (a b : Z) :
  p <> "" ->
  all_chars is_letter p = true ->
  (0 <= a)%Z -> (0 <= b)%Z ->
  split_refs (format_range p (Range a b))
  = Refs (map (fun k => p ++ str_int k) (int_range a b)).
Proof.
  intros Hne Hp Ha Hb.
  destruct (str_int_digits a Ha) as (Hane & Had & _).
  destruct (str_int_digits b Hb) as (Hbne & Hbd & _).
  pose proof (letters_word p Hp) as Hpw.
  assert (Hfirst : all_chars is_word (p ++ str_int a) = true).
  { rewrite all_chars_app, Hpw, (digits_word _ Had). reflexivity. }
  assert (Hlast : all_chars is_word (p ++ str_int b) = true).
  { rewrite all_chars_app, Hpw, (digits_word _ Hbd). reflexivity. }
  assert (Htext : format_range p (Range a b)
                  = (p ++ str_int a) ++ String "-" (p ++ str_int b)).
  { unfold format_range. rewrite append_assoc. reflexivity. }
  assert (Hmark : forall q : ascii -> bool,
            (forall c, is_word c = true -> q c = false) -> q "-"%char = false ->
            all_chars (fun c => negb (q c))
                      ((p ++ str_int a) ++ String "-" (p ++ str_int b)) = true).
  { intros q Hq Hdash. rewrite all_chars_app. cbn [all_chars].
    rewrite (word_no_mark q _ Hq Hfirst), (word_no_mark q _ Hq Hlast), Hdash.
    reflexivity. }
  rewrite Htext. unfold split_refs.
  rewrite (split_chars_none is_list_sep _ ""
             (Hmark is_list_sep word_not_list_sep eq_refl)).
  cbn [append split_loop]. unfold split_ref.
  rewrite (remove_chars_none is_not_allowed _
             (Hmark is_not_allowed word_not_allowed eq_refl)).
  (* the test of [^\w+\d] *)
  assert (Hhead : word_digit_head ((p ++ str_int a) ++ String "-" (p ++ str_int b))
                  = true).
  { unfold word_digit_head. rewrite (take_while_app_all is_word _ _ Hfirst).
    cbn [take_while]. replace (is_word "-") with false by reflexivity.
    rewrite append_nil_r.
    destruct p as [|c0 p']; [contradiction Hne; reflexivity|].
    cbn [append]. apply has_char_digits; assumption. }
  rewrite Hhead.
  assert (Hdash : has_char is_dash ((p ++ str_int a) ++ String "-" (p ++ str_int b))
                  = true).
  { unfold has_char. rewrite all_chars_app. cbn [all_chars].
    replace (is_dash "-") with true by reflexivity.
    cbn [negb andb]. rewrite andb_false_r. reflexivity. }
  rewrite Hdash.
  assert (Hname : designator ((p ++ str_int a) ++ String "-" (p ++ str_int b)) = Ok p).
  { unfold designator. rewrite append_assoc.
    rewrite (take_while_app_all _ p _ (letters_no_digit p Hp)).
    destruct (str_int a) as [|c sa]; [contradiction Hane; reflexivity|].
    simpl in Had. apply andb_prop in Had. destruct Had as [Hc _].
    cbn [append take_while]. rewrite Hc. cbn [negb]. rewrite append_nil_r.
    destruct p; [contradiction Hne; reflexivity | reflexivity]. }
  rewrite Hname.
  rewrite (split_chars_app is_dash (p ++ str_int a) "-" (p ++ str_int b) ""
             (word_no_mark is_dash _ word_not_dash Hfirst) eq_refl).
  rewrite (split_chars_none is_dash (p ++ str_int b) ""
             (word_no_mark is_dash _ word_not_dash Hlast)).
  cbn [append hd].
  rewrite d_run_nonword_word.
  2:{ rewrite (take_while_all is_word _ Hfirst).
      destruct p as [|c0 p']; [contradiction Hne; reflexivity|].
      unfold has_char. cbn [append all_chars].
      replace (negb (is_digit c0)) with true.
      2:{ simpl in Hp. apply andb_prop in Hp. destruct Hp as [Hc0 _].
          destruct (is_letter_word c0 Hc0) as [_ E]. rewrite E. reflexivity. }
      cbn [andb]. apply has_char_digits; assumption. }
  rewrite append_nil_r. cbn [map].
  rewrite (remove_all_head p (str_int a) Hne Hp Had).
  rewrite (remove_all_head p (str_int b) Hne Hp Hbd).
  cbn [hd]. rewrite (digits_nondigit_digits _ Had).
  rewrite (trailing_digits_digits _ Hane Had), (trailing_digits_digits _ Hbne Hbd).
  cbn [nth_error]. rewrite (int_of_str_int a Ha), (int_of_str_int b Hb).
  reflexivity.
Qed.

Lemma split_refs_range_witness :
  split_refs (format_range "D" (Range 33 36))
  = Refs (map (fun k => "D" ++ str_int k) (int_range 33 36)).
Proof.
  apply (split_refs_range "D" 33 36); [discriminate | reflexivity | lia | lia].
Defined.

Lemma join_cons (sep x y : string) (l : list string) :
  join sep (x :: y :: l) = x ++ sep ++ join sep (y :: l).
Proof. reflexivity. Qed.

Lemma join_no_mark (q : ascii -> bool) (l : list string) :
  (forall c, is_word c = true -> q c = false) -> q "/"%char = false ->
  Forall (fun n => all_chars is_digit n = true) l ->
  all_chars (fun c => negb (q c)) (join "/" l) = true.
Proof.
  intros Hq Hslash Hl. induction Hl as [|x l Hx Hl IH]; [reflexivity|].
  destruct l as [|y l].
  - cbn [join String.concat]. apply (word_no_mark q _ Hq (digits_word x Hx)).
  - rewrite join_cons, all_chars_app. cbn [append all_chars].
    rewrite (word_no_mark q _ Hq (digits_word x Hx)), Hslash, IH. reflexivity.
Qed.

Lemma split_chars_join (l : list string) :
  forall (cur x : string),
  Forall (fun n => all_chars is_digit n = true) (x :: l) ->
  split_chars is_slash cur (join "/" (x :: l)) = (cur ++ x) :: l.
Proof.
  induction l as [|y l IH]; intros cur x Hl.
  - cbn [join String.concat]. apply split_chars_none.
    inversion Hl; subst. apply (word_no_mark is_slash _ word_not_slash).
    apply digits_word. assumption.
  - rewrite join_cons. change ("/" ++ join "/" (y :: l)) with (String "/" (join "/" (y :: l))).
    inversion Hl as [|x' l' Hx Hrest]; subst.
    rewrite (split_chars_app is_slash x "/" _ cur
               (word_no_mark is_slash _ word_not_slash (digits_word x Hx)) eq_refl).
    rewrite (IH "" y Hrest). reflexivity.
Qed.

Lemma remove_prefix_digits (p n : string) :
  p <> "" -> all_chars is_letter p = true -> all_chars is_digit n = true ->
  remove_prefix p n = n.
Proof.
  intros Hne Hp Hn. unfold remove_prefix.
  destruct p as [|c0 p']; [contradiction Hne; reflexivity|].
  destruct n as [|c n']; [reflexivity|].
  rewrite prefix_head; [reflexivity|].
  simpl in Hp, Hn. apply andb_prop in Hp, Hn. destruct Hp as [Hc0 _], Hn as [Hc _].
  destruct (is_letter_word c0 Hc0) as [_ E]. congruence.
Qed.

(** X30: A list of numbers under one prefix, [prefix n0/n1/.../nk], gives
    the references [prefix n0], [prefix n1], ..., [prefix nk]. *)
Theorem split_refs_slash_list (p n0 n1 : string) (rest : list string) :
  p <> "" ->
  all_chars is_letter p = true ->
  n0 <> "" ->
  Forall (fun n => all_chars is_digit n = true) (n0 :: n1 :: rest) ->
  split_refs (p ++ join "/" (n0 :: n1 :: rest))
  = Refs (map (fun n => p ++ n) (n0 :: n1 :: rest)).
Proof.
  intros Hne Hp Hn0 Hl.
  pose proof (letters_word p Hp) as Hpw.
  assert (Hd0 : all_chars is_digit n0 = true) by (inversion Hl; assumption).
  assert (Hrest : Forall (fun n => all_chars is_digit n = true) (n1 :: rest))
    by (inversion Hl; assumption).
  assert (Hmark : forall q : ascii -> bool,
            (forall c, is_word c = true -> q c = false) -> q "/"%char = false ->
            all_chars (fun c => negb (q c)) (p ++ join "/" (n0 :: n1 :: rest)) = true).
  { intros q Hq Hslash. rewrite all_chars_app, (word_no_mark q _ Hq Hpw).
    apply (join_no_mark q _ Hq Hslash Hl). }
  assert (Hfirst : all_chars is_word (p ++ n0) = true).
  { rewrite all_chars_app, Hpw, (digits_word _ Hd0). reflexivity. }
  assert (Htext : p ++ join "/" (n0 :: n1 :: rest)
                  = (p ++ n0) ++ String "/" (join "/" (n1 :: rest))).
  { rewrite join_cons, append_assoc. reflexivity. }
  unfold split_refs.
  rewrite (split_chars_none is_list_sep _ ""
             (Hmark is_list_sep word_not_list_sep eq_refl)).
  cbn [append split_loop]. unfold split_ref.
  rewrite (remove_chars_none is_not_allowed _
             (Hmark is_not_allowed word_not_allowed eq_refl)).
  assert (Hhead : word_digit_head (p ++ join "/" (n0 :: n1 :: rest)) = true).
  { rewrite Htext. unfold word_digit_head.
    rewrite (take_while_app_all is_word _ _ Hfirst).
    cbn [take_while]. replace (is_word "/") with false by reflexivity.
    rewrite append_nil_r.
    destruct p as [|c0 p']; [contradiction Hne; reflexivity|].
    cbn [append]. apply has_char_digits; assumption. }
  rewrite Hhead.
  rewrite (has_char_none is_dash _ (Hmark is_dash word_not_dash eq_refl)).
  assert (Hslash : has_char is_slash (p ++ join "/" (n0 :: n1 :: rest)) = true).
  { rewrite Htext. unfold has_char. rewrite all_chars_app. cbn [all_chars].
    replace (is_slash "/") with true by reflexivity.
    cbn [negb andb]. rewrite andb_false_r. reflexivity. }
  rewrite Hslash.
  assert (Hname : designator (p ++ join "/" (n0 :: n1 :: rest)) = Ok p).
  { unfold designator. rewrite join_cons.
    rewrite (take_while_app_all _ p _ (letters_no_digit p Hp)).
    destruct n0 as [|c n0']; [contradiction Hn0; reflexivity|].
    simpl in Hd0. apply andb_prop in Hd0. destruct Hd0 as [Hc _].
    cbn [append take_while]. rewrite Hc. cbn [negb]. rewrite append_nil_r.
    destruct p; [contradiction Hne; reflexivity | reflexivity]. }
  rewrite Hname. rewrite Htext.
  rewrite (split_chars_app is_slash (p ++ n0) "/" _ ""
             (word_no_mark is_slash _ word_not_slash Hfirst) eq_refl).
  rewrite (split_chars_join rest "" n1 Hrest).
  assert (Hfirst' : remove_prefix p (p ++ n0) = n0).
  { unfold remove_prefix. rewrite prefix_append, drop_append. reflexivity. }
  assert (Hrest' : map (remove_prefix p) (n1 :: rest) = n1 :: rest).
  { rewrite <- (map_id (n1 :: rest)) at 2. apply map_ext_in. intros n Hn.
    apply remove_prefix_digits; [exact Hne | exact Hp|].
    rewrite Forall_forall in Hrest. apply Hrest. exact Hn. }
  cbn [append]. change (map (remove_prefix p) ((p ++ n0) :: n1 :: rest))
    with (remove_prefix p (p ++ n0) :: map (remove_prefix p) (n1 :: rest)).
  rewrite Hfirst', Hrest'. reflexivity.
Qed.

Lemma split_chars_snoc (q : ascii -> bool) (c : ascii) (s : string) :
  forall cur, q c = true ->
  split_chars q cur (s ++ String c "") = (split_chars q cur s ++ [""])%list.
Proof.
  induction s as [|x s IH]; intros cur Hc; simpl.
  - rewrite Hc. reflexivity.
  - destruct (q x); rewrite (IH _ Hc); reflexivity.
Qed.

Lemma split_loop_empty (l : list string) :
  forall refs out, split_loop (l ++ [""]) refs <> Refs out.
Proof.
  induction l as [|ref l IH]; intros refs out; cbn [app split_loop].
  - vm_compute. discriminate.
  - destruct (split_ref ref); [apply IH | discriminate | discriminate].
Qed.

(** A text with a separator at its end has an empty reference in its list,
    where [PART_REF_REGEX] finds nothing: [split_refs] does not return. *)
Lemma split_refs_trailing_separator (text : string) (out : list string) :
  split_refs (text ++ ",") <> Refs out.
Proof.
  unfold split_refs. rewrite (split_chars_snoc is_list_sep "," text "" eq_refl).
  apply split_loop_empty.
Qed.

Lemma split_refs_slash_list_witness :
  split_refs ("C" ++ join "/" ["17"; "18"; "19"; "20"])
  = Refs (map (fun n => "C" ++ n) ["17"; "18"; "19"; "20"]).
Proof.
  apply (split_refs_slash_list "C" "17" "18" ["19"; "20"]);
    [discriminate | reflexivity | discriminate | repeat constructor].
Defined.

Example split_refs_docstring :
  split_refs "C17/18/19/20" = Refs ["C17"; "C18"; "C19"; "C20"]
  /\ split_refs "C17\18\19\20" = Refs ["C17"; "C18"; "C19"; "C20"]
  /\ split_refs "D33-D36" = Refs ["D33"; "D34"; "D35"; "D36"]
  /\ split_refs "D33-36" = Refs ["D33"; "D34"; "D35"; "D36"].
Proof. repeat split; vm_compute; reflexivity. Qed.

(** ** An instance of the agreement of the members *)

Lemma group_parts_agree_witness :
  let components : dict record :=
    [ ("R1", [("value", Some "10k"); ("footprint", Some "0603")]);
      ("R2", [("value", Some "10k"); ("footprint", Some "0603")]) ] in
  exists groups,
    group_parts ["digikey"; "mouser"] ":" example_hash insertion_order components []
    = Ok groups
    /\ forall grp, In grp groups ->
         exists grp_fields,
           fields grp = Some grp_fields
           /\ forall ref key val,
                In ref (refs grp) ->
                ~ In key (map (translate ["digikey"; "mouser"])
                              (map (translate ["digikey"; "mouser"]) [])) ->
                In (key, Some val) (component components ref) ->
                val <> "" -> get_field grp_fields key = Some val.
Proof.
  intros components. eexists. split; [vm_compute; reflexivity|].
  apply (group_parts_agree ["digikey"; "mouser"] ":" example_hash insertion_order
           components []).
  vm_compute. reflexivity.
Defined.
